(** * Vibe-Automation: directory summaries, benefit parsing and chart data

    A shallow embedding of the three source files of the application:

    - [src/app.component.ts]: the actions [analyzeTask], [scanLocalProject]
      and [scanLearningFolder], [pickAndSummarizeDirectory],
      [generateDirectorySummary] and its inner [traverse];
    - the visualization component: [chartData],
      [parseBenefitToWeeklyHours], [truncateLabel] and what [createChart]
      computes from the data;
    - [src/services/gemini.service.ts]: the constructor, the three prompts
      and [generateSuggestions].

    Modelling choices.

    - A JavaScript string is a [string], the bytes of its UTF-8 form; a
      surrogate without its partner has the three bytes of its number.
      JavaScript counts UTF-16 code units: [length], [substring] and
      [trim] of [JsString] count and cut as it does, and remove the white
      space of Unicode; [Utf16] says what that means on code units and
      [JsStringFacts] proves that they do it. A search ([includes],
      [startsWith], [endsWith]) compares bytes, which finds in UTF-8 what
      it finds in UTF-16.
    - A JavaScript number is a binary64 [float] of the kernel; its
      operations are specified by [SpecFloat] through [FloatAxioms].
    - [throw], and a promise that rejects, is the [Threw] case of
      [outcome]; [await] of a promise that resolves is [Returned].
    - The handles of the File System Access API form a finite tree; what
      [getFile()], [text()] and the iteration of [values()] do, or throw, is
      part of the tree.
    - [JSON.parse], the model behind [generateContent], and of the
      JavaScript engine the conversion of a string or an object to a number
      and the message of a [TypeError] belong to the host: they are
      parameters.

    The definitions come first, the facts after them. *)

From Stdlib Require Import Bool Arith ZArith NArith Lia List String Ascii.
From Stdlib Require Import Floats Sorted Permutation.
From Stdlib Require Uint63.
Import ListNotations.

Local Open Scope list_scope.
Local Open Scope string_scope.

(** * Part I: the program *)

(** ** JavaScript string operations used by the sources *)

Module JsString.

(** The line feed written [\n] in the sources. *)
Definition nl : string := String (ascii_of_nat 10) "".

(** The triple backquote that delimits a file's content in the summary. *)
Definition fence : string :=
  let bq := ascii_of_nat 96 in String bq (String bq (String bq "")).

(** [s.repeat(n)] *)
Fixpoint repeat (s : string) (n : nat) : string :=
  match n with
  | O => ""
  | S k => s ++ repeat s k
  end.

(** [s.startsWith(p)] *)
Definition startsWith (s p : string) : bool := String.prefix p s.

(** [s.endsWith(suffix)] *)
Definition endsWith (s suffix : string) : bool :=
  let n := String.length s in
  let m := String.length suffix in
  (m <=? n)%nat && String.eqb (String.substring (n - m) m s) suffix.

(** [s.includes(k)] *)
Fixpoint includes (s k : string) : bool :=
  String.prefix k s ||
  match s with
  | EmptyString => false
  | String _ t => includes t k
  end.

(** [lines.join(sep)] *)
Definition join (sep : string) (lines : list string) : string :=
  String.concat sep lines.

(** *** Characters and code units

    A text is held as the bytes of its UTF-8 form. JavaScript counts in
    UTF-16 code units: [length], [substring] and [trim] below work on the
    characters of the text and count each as JavaScript does, one unit, or
    two for a character beyond U+FFFF (four bytes, a surrogate pair). *)

(** A byte [10xxxxxx], which continues a character. *)
Definition isContinuation (c : ascii) : bool :=
  (128 <=? N_of_ascii c)%N && (N_of_ascii c <? 192)%N.

(** The characters of a text: each is a first byte with the continuation
    bytes that follow it. *)
Fixpoint chars (s : string) : list string :=
  match s with
  | EmptyString => []
  | String c t =>
      match chars t with
      | String d u :: rest =>
          if isContinuation d then String c (String d u) :: rest
          else String c "" :: String d u :: rest
      | rest => String c "" :: rest
      end
  end.

(** The bytes of a code point. A surrogate that stands alone, which
    [substring] leaves when it cuts a pair, has the three bytes of its
    number. *)
Definition utf8 (cp : N) : string :=
  let byte := ascii_of_N in
  (if cp <? 128 then String (byte cp) ""
   else if cp <? 2048 then
     String (byte (192 + cp / 64)) (String (byte (128 + cp mod 64)) "")
   else if cp <? 65536 then
     String (byte (224 + cp / 4096))
       (String (byte (128 + cp / 64 mod 64)) (String (byte (128 + cp mod 64)) ""))
   else
     String (byte (240 + cp / 262144))
       (String (byte (128 + cp / 4096 mod 64))
          (String (byte (128 + cp / 64 mod 64))
             (String (byte (128 + cp mod 64)) ""))))%N.

(** The code point of a character. *)
Definition codePoint (ch : string) : N :=
  let n := N_of_ascii in
  match ch with
  | String a "" => n a
  | String a (String b "") => n a mod 32 * 64 + n b mod 64
  | String a (String b (String c "")) =>
      n a mod 16 * 4096 + n b mod 64 * 64 + n c mod 64
  | String a (String b (String c (String d ""))) =>
      n a mod 8 * 262144 + n b mod 64 * 4096 + n c mod 64 * 64 + n d mod 64
  | _ => 0
  end%N.

(** The code units of the character that a byte starts: a continuation
    byte is counted with its first byte, a first byte [11110xxx] starts a
    character of two units. *)
Definition units (c : ascii) : nat :=
  if isContinuation c then 0 else if (N_of_ascii c <? 240)%N then 1 else 2.

(** [s.length] *)
Fixpoint length (s : string) : nat :=
  match s with
  | EmptyString => 0
  | String c t => units c + length t
  end.

(** The two halves of a character of two units. *)
Definition highSurrogate (ch : string) : string :=
  utf8 (55296 + (codePoint ch - 65536) / 1024).

Definition lowSurrogate (ch : string) : string :=
  utf8 (56320 + (codePoint ch - 65536) mod 1024).

(** The first [count] code units of a list of characters. *)
Fixpoint take (count : nat) (cs : list string) : list string :=
  match cs with
  | [] => []
  | ch :: rest =>
      if (length ch <=? count)%nat then ch :: take (count - length ch) rest
      else match count with O => [] | S _ => [highSurrogate ch] end
  end.

(** What is left after the first [start] code units. *)
Fixpoint drop (start : nat) (cs : list string) {struct cs} : list string :=
  match start, cs with
  | O, _ => cs
  | _, [] => []
  | S _, ch :: rest =>
      if (length ch <=? start)%nat then drop (start - length ch) rest
      else lowSurrogate ch :: rest
  end.

(** [s.substring(start, end)]: the two positions are swapped when
    [end < start], and a position past the end of the text is its end. *)
Definition substring (start end_ : nat) (s : string) : string :=
  let from := Nat.min start end_ in
  let to := Nat.max start end_ in
  String.concat "" (take (to - from) (drop from (chars s))).

(** The code points that [trim] removes: WhiteSpace (tab, vertical tab,
    form feed, the space separators of Unicode, the byte order mark) and
    LineTerminator (line feed, carriage return, U+2028, U+2029). *)
Definition whiteSpace : list N :=
  [9; 11; 12; 32; 160; 5760; 8192; 8193; 8194; 8195; 8196; 8197; 8198; 8199;
   8200; 8201; 8202; 8239; 8287; 12288; 65279; 10; 13; 8232; 8233]%N.

Definition isWhiteSpace (ch : string) : bool :=
  existsb (fun cp => String.eqb ch (utf8 cp)) whiteSpace.

Fixpoint dropWhile {A : Type} (p : A -> bool) (l : list A) : list A :=
  match l with
  | [] => []
  | x :: rest => if p x then dropWhile p rest else l
  end.

Definition trimStart (s : string) : string :=
  String.concat "" (dropWhile isWhiteSpace (chars s)).

Definition trimEnd (s : string) : string :=
  String.concat "" (rev (dropWhile isWhiteSpace (rev (chars s)))).

(** [s.trim()] *)
Definition trim (s : string) : string := trimEnd (trimStart s).

(** The case mapping of [toLowerCase] on the letters A to Z; every other
    byte is kept. Beyond ASCII, [toLowerCase] gives an ASCII letter for two
    characters only: U+212A becomes k, and U+0130 becomes i followed by the
    combining dot U+0307. The sources search the lower-cased text for
    words without k in which another letter follows each i, so that what
    these searches find is what they find here. *)
Definition lowerChar (c : ascii) : ascii :=
  let n := nat_of_ascii c in
  if (65 <=? n)%nat && (n <=? 90)%nat then ascii_of_nat (n + 32) else c.

(** [s.toLowerCase()] *)
Fixpoint toLowerCase (s : string) : string :=
  match s with
  | EmptyString => ""
  | String c t => String (lowerChar c) (toLowerCase t)
  end.

End JsString.

(** ** A text as JavaScript holds it: UTF-16 code units

    The notions below say what the operations of [JsString] do in terms of
    code units; the facts about [JsString] are stated with them. *)

Module Utf16.
Import JsString.

(** The code units of a character: its code point, or a surrogate pair. *)
Definition unitsOf (ch : string) : list N :=
  let cp := codePoint ch in
  (if cp <? 65536 then [cp]
   else [55296 + (cp - 65536) / 1024; 56320 + (cp - 65536) mod 1024])%N.

Definition codeUnits (s : string) : list N := flat_map unitsOf (chars s).

(** A character is held by the bytes of its code point, and by no others,
    and is a code point of Unicode. *)
Definition canonical (ch : string) : bool :=
  String.eqb (utf8 (codePoint ch)) ch && (codePoint ch <=? 1114111)%N.

(** The bytes hold a text: every character is canonical. That includes a
    surrogate without its partner, in three bytes. *)
Definition wellFormed (s : string) : bool := forallb canonical (chars s).

(** A code unit that is white space or a line terminator of ECMAScript:
    U+0009 to U+000D, U+0020, U+00A0, U+1680, U+2000 to U+200A, U+2028,
    U+2029, U+202F, U+205F, U+3000 and U+FEFF. *)
Definition isWhiteSpaceUnit (u : N) : bool :=
  ((9 <=? u) && (u <=? 13) || (u =? 32) || (u =? 160) || (u =? 5760)
   || (8192 <=? u) && (u <=? 8202) || (u =? 8232) || (u =? 8233)
   || (u =? 8239) || (u =? 8287) || (u =? 12288) || (u =? 65279))%N.

(** Code units without the white space at their start, at their end. *)
Definition strip_start (l : list N) : list N := dropWhile isWhiteSpaceUnit l.

Definition strip_end (l : list N) : list N :=
  rev (dropWhile isWhiteSpaceUnit (rev l)).

(** The text of a list of characters. *)
Definition cat (l : list string) : string := String.concat "" l.

(** The shape of the characters of a text: a first byte and continuation
    bytes; every character but the first of a text starts with a byte that
    is no continuation byte. *)
Fixpoint allContinuation (k : string) : bool :=
  match k with
  | EmptyString => true
  | String c t => isContinuation c && allContinuation t
  end.

Definition group (g : string) : bool :=
  match g with
  | EmptyString => false
  | String _ k => allContinuation k
  end.

Definition starts (g : string) : bool :=
  match g with
  | EmptyString => false
  | String c _ => negb (isContinuation c)
  end.

Definition grouped (l : list string) : Prop :=
  Forall (fun g => group g = true) l /\ Forall (fun g => starts g = true) (tl l).

(** A white-space character is one white-space unit; another character
    neither starts nor ends with one. *)
Definition faithful (f : string -> list N) (ch : string) : Prop :=
  (isWhiteSpace ch = true ->
     exists u, f ch = [u] /\ isWhiteSpaceUnit u = true) /\
  (isWhiteSpace ch = false ->
     exists u r, f ch = u :: r /\ isWhiteSpaceUnit u = false).

(** A text that consists of white space only. *)
Inductive blank : string -> Prop :=
| blank_empty : blank ""
| blank_more (cp : N) (s : string) :
    isWhiteSpaceUnit cp = true -> blank s -> blank (utf8 cp ++ s).

End Utf16.

(** ** Exceptions and results of calls that may throw *)

(** What is thrown, as the sources distinguish it: [catch] tests
    [err instanceof DOMException && err.name === 'AbortError'] and
    [e instanceof Error]. A [DOMException] is an [Error], and so is an
    [OtherError] (a [TypeError], a [SyntaxError]); [NotAnError] is a thrown
    value that is no [Error], a string for instance. *)
Inductive exn : Type :=
| DOMException (name message : string)
| Error (message : string)
| OtherError (name message : string)
| NotAnError (value : string).

(** What a call (or an awaited promise) yields. *)
Inductive outcome (A : Type) : Type :=
| Returned (a : A)
| Threw (e : exn).

Arguments Returned {A} a.
Arguments Threw {A} e.

(** ** The directory summarizer of [app.component.ts] *)

Module Summarizer.
Import JsString.

(** The [File] that [getFile()] resolves to: its [size], and what
    [text()] resolves to ([None] when it rejects). *)
Record file : Type := mkFile { size : Z; text : option string }.

(** [FileSystemFileHandle | FileSystemDirectoryHandle]. A file handle has a
    name and the result of [getFile()] ([None] when it rejects). A directory
    handle has a name, the entries that [values()] yields in order, and the
    exception, if any, that the iteration throws after the last of them. *)
#[warnings="-register-all"]
Inductive handle : Type :=
| FileHandle (name : string) (getFile : option file)
| DirectoryHandle (name : string) (entries : list handle) (failure : option exn).

Definition handle_name (h : handle) : string :=
  match h with
  | FileHandle n _ => n
  | DirectoryHandle n _ _ => n
  end.

Definition is_directory (h : handle) : bool :=
  match h with
  | FileHandle _ _ => false
  | DirectoryHandle _ _ _ => true
  end.

(** The two icons, as the literals stand in the source file. *)
Definition dirIcon : string := "ðŸ“".
Definition fileIcon : string := "ðŸ“„".

Definition IGNORE_DIRS : list string :=
  ["node_modules"; "dist"; ".git"; "target"; "build"; "__pycache__"].

(** [set.has(x)] on a set of strings. *)
Definition has (set : list string) (x : string) : bool :=
  existsb (String.eqb x) set.

Record key_file : Type := mkKeyFile { path : string; content : string }.

(** The variables the closure [traverse] captures and mutates, and the
    messages it sends to [console.warn]. *)
Record state : Type := mkState {
  fileTree : list string;
  importantFiles : list key_file;
  warnings : list string
}.

Definition initial : state := mkState [] [] [].

Definition push_line (l : string) (st : state) : state :=
  mkState (fileTree st ++ [l])%list (importantFiles st) (warnings st).

Definition push_file (f : key_file) (st : state) : state :=
  mkState (fileTree st) (importantFiles st ++ [f])%list (warnings st).

Definition warn (msg : string) (st : state) : state :=
  mkState (fileTree st) (importantFiles st) (warnings st ++ [msg])%list.

(** [100 * 1024] *)
Definition size_limit : Z := 100 * 1024.

(** The line [traverse] pushes for a handle at a depth. *)
Definition tree_line (h : handle) (depth : nat) : string :=
  repeat "  " depth ++ (if is_directory h then dirIcon else fileIcon)
    ++ " " ++ handle_name h.

(** [for await (const entry of handle.values()) { await visit(entry) }]:
    the entries one after the other, the first exception ends the loop. *)
Definition for_await (visit : handle -> state -> outcome state)
    (failure : option exn) : list handle -> state -> outcome state :=
  fix loop (entries : list handle) (st : state) : outcome state :=
    match entries with
    | [] =>
        match failure with
        | None => Returned st
        | Some e => Threw e
        end
    | entry :: rest =>
        match visit entry st with
        | Returned st' => loop rest st'
        | Threw e => Threw e
        end
    end.

Section Traverse.

Variable keyFiles : list string.
Variable checkExtension : bool.
Variable maxDepth : Z.

Definition isKeyFile (name : string) : bool :=
  if checkExtension
  then existsb (fun ext => endsWith name ext) keyFiles
  else has keyFiles name.

Definition isBinaryDocument (name : string) : bool :=
  endsWith name ".pdf" || endsWith name ".epub".

(** The [else if (handle.kind === 'file')] branch. *)
Definition visit_file (name : string) (getFile : option file)
    (path : string) (st : state) : state :=
  if isKeyFile name then
    if isBinaryDocument name then st
    else
      match getFile with
      | None => warn ("Could not read file: " ++ path ++ "/" ++ name) st
      | Some f =>
          if (size f <? size_limit)%Z then
            match text f with
            | Some c => push_file (mkKeyFile (path ++ "/" ++ name) c) st
            | None => warn ("Could not read file: " ++ path ++ "/" ++ name) st
            end
          else st
      end
  else st.

Fixpoint traverse (h : handle) (path : string) (depth : nat) (st : state)
    {struct h} : outcome state :=
  if (maxDepth <? Z.of_nat depth)%Z then Returned st
  else
    let st := push_line (tree_line h depth) st in
    match h with
    | DirectoryHandle name entries failure =>
        if has IGNORE_DIRS name then Returned st
        else
          for_await
            (fun entry st =>
               traverse entry (path ++ "/" ++ handle_name entry) (S depth) st)
            failure entries st
    | FileHandle name getFile =>
        Returned (visit_file name getFile path st)
    end.

End Traverse.

(** The text of the summary, from the root's name and the final state. *)
Definition render_file (f : key_file) : string :=
  "### FILE: " ++ path f ++ nl ++ fence ++ nl ++ content f ++ nl ++ fence
    ++ nl ++ nl.

Definition render (rootName : string) (st : state) : string :=
  let summary := "Directory Root: " ++ rootName ++ nl ++ nl in
  let summary :=
    summary ++ ("Directory Structure:" ++ nl ++ join nl (fileTree st) ++ nl ++ nl) in
  match importantFiles st with
  | [] => summary
  | files =>
      fold_left (fun acc f => acc ++ render_file f) files
        (summary ++ ("--- Key File Contents ---" ++ nl ++ nl))
  end.

(** The state when [await traverse(directoryHandle, directoryHandle.name, 0)]
    returns. *)
Definition scan (directoryHandle : handle) (keyFiles : list string)
    (checkExtension : bool) (maxDepth : Z) : outcome state :=
  traverse keyFiles checkExtension maxDepth directoryHandle
    (handle_name directoryHandle) 0 initial.

Definition generateDirectorySummary (directoryHandle : handle)
    (keyFiles : list string) (checkExtension : bool) (maxDepth : Z)
    : outcome string :=
  match scan directoryHandle keyFiles checkExtension maxDepth with
  | Returned st => Returned (render (handle_name directoryHandle) st)
  | Threw e => Threw e
  end.

(** The part of [window] the function looks at: whether it has
    [showDirectoryPicker], and what a call of it yields. *)
Record window : Type := mkWindow {
  has_showDirectoryPicker : bool;
  showDirectoryPicker : outcome handle
}.

Definition isAbortError (err : exn) : bool :=
  match err with
  | DOMException name _ => String.eqb name "AbortError"
  | _ => false
  end.

Definition unsupported : exn :=
  Error "Your browser does not support scanning local folders. Please use a modern browser like Chrome or Edge.".

Definition empty_directory : exn :=
  Error "The selected directory appears to be empty or could not be read.".

(** [maxDepth] is never passed: it has its default, 3. *)
Definition pickAndSummarizeDirectory (w : window) (keyFileSet : list string)
    (checkExtension : bool) : outcome (option string) :=
  if negb (has_showDirectoryPicker w) then Threw unsupported
  else
    let attempt : outcome string :=
      match showDirectoryPicker w with
      | Threw e => Threw e
      | Returned directoryHandle =>
          match generateDirectorySummary directoryHandle keyFileSet checkExtension 3 with
          | Threw e => Threw e
          | Returned summary =>
              if String.eqb (trim summary) "" then Threw empty_directory
              else Returned summary
          end
      end in
    match attempt with
    | Returned summary => Returned (Some summary)
    | Threw err => if isAbortError err then Returned None else Threw err
    end.

End Summarizer.

(** ** What the traversal lists: the nodes of the tree in pre-order *)

Module Listing.
Import JsString Summarizer.

(** A node of the tree under a root: the handle, the [path] and [depth]
    that a call of [traverse] on it receives, and whether one of its proper
    ancestors has a name of [IGNORE_DIRS]. *)
Record visit : Type := mkVisit {
  v_handle : handle;
  v_path : string;
  v_depth : nat;
  v_below_ignored : bool
}.

(** Every node of the tree, parents before children, entries in the order
    of [values()]. *)
Fixpoint preorder (h : handle) (path : string) (depth : nat) (below : bool)
    {struct h} : list visit :=
  mkVisit h path depth below ::
  match h with
  | FileHandle _ _ => []
  | DirectoryHandle name entries _ =>
      flat_map
        (fun e =>
           preorder e (path ++ "/" ++ handle_name e) (S depth)
             (below || has IGNORE_DIRS name))
        entries
  end.

(** The nodes of the tree under a root directory handle. *)
Definition nodes (root : handle) : list visit :=
  preorder root (handle_name root) 0 false.

Definition line_of (v : visit) : string := tree_line (v_handle v) (v_depth v).

(** What the file branch adds to [importantFiles] at a node. *)
Definition captured (keyFiles : list string) (checkExtension : bool)
    (v : visit) : list key_file :=
  match v_handle v with
  | FileHandle name getFile =>
      importantFiles
        (visit_file keyFiles checkExtension name getFile (v_path v) initial)
  | DirectoryHandle _ _ _ => []
  end.

(** A node gets a line: it is not deeper than [maxDepth] and no proper
    ancestor of it is an ignored directory. *)
Definition listed (maxDepth : Z) (v : visit) : bool :=
  (Z.of_nat (v_depth v) <=? maxDepth)%Z && negb (v_below_ignored v).

(** The two lists of a later state are those of an earlier one followed by
    the lines, and by the captured files, of some nodes. *)
Definition extends (keyFiles : list string) (checkExtension : bool)
    (st st' : state) (vs : list visit) : Prop :=
  fileTree st' = (fileTree st ++ map line_of vs)%list /\
  importantFiles st' =
    (importantFiles st ++ flat_map (captured keyFiles checkExtension) vs)%list.

(** No iteration of a directory of the tree throws. *)
Fixpoint readable (h : handle) : bool :=
  match h with
  | FileHandle _ _ => true
  | DirectoryHandle _ entries failure =>
      match failure with
      | None => forallb readable entries
      | Some _ => false
      end
  end.

(** Induction on handles, with the entries of a directory. *)
Fixpoint handle_induction (P : handle -> Prop)
    (Hfile : forall name getFile, P (FileHandle name getFile))
    (Hdir : forall name entries failure,
        Forall P entries -> P (DirectoryHandle name entries failure))
    (h : handle) {struct h} : P h :=
  match h with
  | FileHandle name getFile => Hfile name getFile
  | DirectoryHandle name entries failure =>
      Hdir name entries failure
        ((fix all (es : list handle) : Forall P es :=
            match es with
            | [] => Forall_nil P
            | e :: rest =>
                Forall_cons e (handle_induction P Hfile Hdir e) (all rest)
            end) entries)
  end.

End Listing.

(** ** The response adapter of [gemini.service.ts] *)

Module Gemini.
Import JsString.

Record AutomationSuggestion : Type := mkSuggestion {
  area : string;
  tool : string;
  benefit : string;
  steps : list string
}.

(** The values [JSON.parse] produces. An [AutomationResponse] is such a
    value: the cast [parsedResponse as AutomationResponse] checks nothing. *)
#[warnings="-register-all"]
Inductive json : Type :=
| JNull
| JBool (b : bool)
| JNumber (n : float)
| JString (s : string)
| JArray (items : list json)
| JObject (fields : list (string * json)).

(** [value.key], [None] for [undefined]. *)
Fixpoint lookup (key : string) (fields : list (string * json)) : option json :=
  match fields with
  | [] => None
  | (k, v) :: rest => if String.eqb k key then Some v else lookup key rest
  end.

Definition field (key : string) (value : json) : option json :=
  match value with
  | JObject fields => lookup key fields
  | _ => None
  end.

(** What [generateContent] resolves to: [response.text] may be undefined. *)
Record response : Type := mkResponse { text : option string }.

(** The service: [isConfigured], and [ai] with its
    [models.generateContent] as a function of the prompt. *)
Record service : Type := mkService {
  isConfigured : bool;
  ai : option (string -> outcome response)
}.

Definition not_configured : exn :=
  Error "Gemini API key is not configured. Please set the API_KEY environment variable to use the application.".

Definition failed : exn :=
  Error "Failed to get automation suggestions. Please check your API key and try again.".

Section Adapter.

(** [JSON.parse] of the host: a value, or the [SyntaxError] it throws. *)
Variable JSON_parse : string -> outcome json.

Definition generateSuggestions (this : service) (prompt : string)
    : outcome json :=
  match isConfigured this, ai this with
  | true, Some generateContent =>
      let attempt : outcome json :=
        match generateContent prompt with
        | Threw e => Threw e
        | Returned response =>
            match text response with
            | None => Threw (OtherError "TypeError" "Cannot read properties of undefined (reading 'trim')")
            | Some t =>
                let jsonString := trim t in
                JSON_parse jsonString
            end
        end in
      match attempt with
      | Returned parsedResponse => Returned parsedResponse
      | Threw _ => Threw failed
      end
  | _, _ => Threw not_configured
  end.

End Adapter.

(** A host whose [JSON.parse] is known on one text: [{}] is the object
    with no field; every other text is taken to be a syntax error. *)
Definition parse_empty_object (s : string) : outcome json :=
  if String.eqb s "{}" then Returned (JObject [])
  else Threw (OtherError "SyntaxError" "Unexpected token").

(** A service whose model answers every prompt with a given text. *)
Definition answering (t : string) : service :=
  mkService true (Some (fun _ => Returned (mkResponse (Some t)))).

End Gemini.

(** ** The visualization component: benefit parsing and chart data *)

Module Chart.
Import JsString.

Local Open Scope float_scope.

(** [\d] *)
Definition isDigit (c : ascii) : bool :=
  let n := nat_of_ascii c in (48 <=? n)%nat && (n <=? 57)%nat.

(** The longest run of digits at the start of a string, and what follows. *)
Fixpoint digits (s : string) : string * string :=
  match s with
  | EmptyString => ("", "")
  | String c t =>
      if isDigit c then let (d, rest) := digits t in (String c d, rest)
      else ("", s)
  end.

(** The fraction [\.\d+] at the start of a string, without its point. *)
Definition fraction (s : string) : string :=
  match s with
  | String "." t => fst (digits t)
  | _ => ""
  end.

(** [(\d+(\.\d+)?)] matched at the start of a string: both quantifiers are
    greedy and nothing follows them in the pattern. *)
Definition match_here (s : string) : option string :=
  let (int, rest) := digits s in
  match int with
  | EmptyString => None
  | _ =>
      match fraction rest with
      | EmptyString => Some int
      | frac => Some (int ++ "." ++ frac)
      end
  end.

(** [benefit.match(/(\d+(\.\d+)?)/)]: the match at the leftmost position
    that has one; [numbers[0]] when there is a match. *)
Fixpoint match_number (s : string) : option string :=
  match match_here s with
  | Some m => Some m
  | None =>
      match s with
      | EmptyString => None
      | String _ t => match_number t
      end
  end.

Definition digit_value (c : ascii) : Z := Z.of_nat (nat_of_ascii c) - 48.

Fixpoint decimal (acc : Z) (s : string) : Z :=
  match s with
  | EmptyString => acc
  | String c t => decimal (10 * acc + digit_value c) t
  end.

(** The binary64 number nearest to [n / d] (ties to even), for [0 <= n]
    and [0 < d]. *)
Definition nearest (n d : Z) : spec_float :=
  match n, d with
  | Zpos p, Zpos q =>
      SFdiv prec emax (S754_finite false p 0) (S754_finite false q 0)
  | Z0, Zpos _ => S754_zero false
  | _, _ => S754_nan
  end.

(** [parseFloat] on the texts the pattern matches, digits with an optional
    fraction: the number nearest to the decimal value. A text that does not
    start with a digit is not such a match and gives NaN here. *)
Definition parseFloat (s : string) : float :=
  let (int, rest) := digits s in
  match int with
  | EmptyString => nan
  | _ =>
      let frac := fraction rest in
      SF2Prim
        (nearest (decimal 0 (int ++ frac)) (10 ^ Z.of_nat (String.length frac)))
  end.

Definition parseBenefitToWeeklyHours (benefit : string) : float :=
  let text := toLowerCase benefit in
  match match_number benefit with
  | None => 0
  | Some number =>
      let value := parseFloat number in
      if includes text "hour" || includes text "hr" then
        if includes text "per day" || includes text "daily" then value * 5
        else if includes text "per month" || includes text "monthly" then value / 4
        else value
      else if includes text "minute" || includes text "min" then
        let hours := value / 60 in
        if includes text "per day" || includes text "daily" then hours * 5
        else if includes text "per month" || includes text "monthly" then hours / 4
        else hours
      else 0
  end.

Record ChartData : Type := mkChartData { area : string; hoursSaved : float }.

(** [Array.prototype.sort(comparefn)]. The sort is stable, and for a
    comparator that orders the elements consistently the result of a stable
    sort does not depend on the algorithm: insertion, from the right. An
    element moves behind another when [comparefn] of the two is above zero
    (a NaN counts as zero). *)
Section Sort.

Context {A : Type}.
Variable comparefn : A -> A -> float.

Fixpoint insert (x : A) (sorted : list A) : list A :=
  match sorted with
  | [] => [x]
  | y :: rest =>
      if 0 <? comparefn x y then y :: insert x rest else x :: sorted
  end.

Fixpoint sort (l : list A) : list A :=
  match l with
  | [] => []
  | x :: rest => insert x (sort rest)
  end.

End Sort.

(** The record of a suggestion: the [map] of [chartData]. *)
Definition toChartData (s : Gemini.AutomationSuggestion) : ChartData :=
  mkChartData (Gemini.area s) (parseBenefitToWeeklyHours (Gemini.benefit s)).

(** The [computed] signal, [None] for a [null] input. *)
Definition chartData (suggestions : option (list Gemini.AutomationSuggestion))
    : list ChartData :=
  match suggestions with
  | None => []
  | Some suggestions =>
      sort (fun a b => hoursSaved b - hoursSaved a)
        (filter (fun s => 0 <? hoursSaved s) (map toChartData suggestions))
  end.

Definition truncateLabel (label : string) (maxLength : nat) : string :=
  if (length label <=? maxLength)%nat then label
  else trim (substring 0 maxLength label) ++ "...".

(** The labels [createChart] gives to the band scale of the renderer. *)
Definition chartLabels (data : list ChartData) : list string :=
  map (fun d => truncateLabel (area d) 20) data.

End Chart.

(** ** Notions used to state facts about the chart data *)

Module ChartSpec.
Import JsString Chart.

Local Open Scope float_scope.

(** [a] stands before [b] in a list sorted by a key, largest first. *)
Definition descending {A : Type} (key : A -> float) (a b : A) : Prop :=
  (key b <=? key a) = true.

Definition above_zero {A : Type} (key : A -> float) (a : A) : Prop :=
  (0 <? key a) = true.

(** The records that pass the filter of [chartData]. *)
Definition kept (suggestions : list Gemini.AutomationSuggestion) : list ChartData :=
  filter (fun s => 0 <? hoursSaved s) (map toChartData suggestions).

Fixpoint all_digits (s : string) : bool :=
  match s with
  | EmptyString => true
  | String c t => isDigit c && all_digits t
  end.

(** [/\d/.test(s)] *)
Fixpoint has_digit (s : string) : bool :=
  match s with
  | EmptyString => false
  | String c t => isDigit c || has_digit t
  end.

(** *** Decimal notation and unit words, as the specification reads them *)

(** The value of a decimal digit: its place among the ten digits. *)
Definition digit (c : ascii) : option Z :=
  option_map Z.of_nat (String.index 0 (String c "") "0123456789").

Definition is_digit (c : ascii) : bool :=
  match digit c with
  | Some _ => true
  | None => false
  end.

Fixpoint digits_only (s : string) : bool :=
  match s with
  | EmptyString => true
  | String c t => is_digit c && digits_only t
  end.

Fixpoint digit_free (s : string) : bool :=
  match s with
  | EmptyString => true
  | String c t => negb (is_digit c) && digit_free t
  end.

(** The natural number that a run of digits writes. *)
Fixpoint natural (s : string) : Z :=
  match s with
  | EmptyString => 0
  | String c t =>
      (match digit c with Some d => d | None => 0 end)
        * 10 ^ Z.of_nat (String.length t) + natural t
  end%Z.

(** The text of a number: digits, or digits, a point and digits. *)
Definition numeral (int frac : string) : string :=
  match frac with
  | EmptyString => int
  | _ => int ++ "." ++ frac
  end.

(** The number that [int.frac] writes, as JavaScript holds it: the
    binary64 number nearest to [natural (int ++ frac) / 10 ^ |frac|], the
    quotient of the two integers rounded once, ties to even. *)
Definition decimal_value (int frac : string) : float :=
  match natural (int ++ frac) with
  | Zpos n =>
      SF2Prim
        (SFdiv prec emax (S754_finite false n 0)
           (S754_finite false (Z.to_pos (10 ^ Z.of_nat (String.length frac))) 0))
  | _ => 0
  end.

Definition starts_with_digit (s : string) : bool :=
  match s with
  | String c _ => is_digit c
  | EmptyString => false
  end.

Definition starts_with_fraction (s : string) : bool :=
  match s with
  | String "." t => starts_with_digit t
  | _ => false
  end.

(** [int.frac] is the first number of a text, between [pre] and [post]: no
    digit stands before it, and it is as long as it can be. *)
Definition first_number (text pre int frac post : string) : Prop :=
  text = pre ++ numeral int frac ++ post /\
  digit_free pre = true /\
  int <> "" /\ digits_only int = true /\ digits_only frac = true /\
  starts_with_digit post = false /\
  (frac = "" -> starts_with_fraction post = false).

(** The capital of a small letter. *)
Definition capital (w : ascii) : ascii :=
  let n := nat_of_ascii w in
  if (97 <=? n)%nat && (n <=? 122)%nat then ascii_of_nat (n - 32) else w.

(** A text starts with a word, which is in small letters, letter case
    apart. *)
Fixpoint starts_with (word s : string) : bool :=
  match word, s with
  | EmptyString, _ => true
  | String _ _, EmptyString => false
  | String w word', String c s' =>
      (Ascii.eqb c w || Ascii.eqb c (capital w)) && starts_with word' s'
  end.

(** A text contains a word, letter case apart. *)
Fixpoint mentions (s word : string) : bool :=
  starts_with word s ||
  match s with
  | EmptyString => false
  | String _ t => mentions t word
  end.

(** The truncation as the specification words it: the first characters,
    the white space at their end removed, then the ellipsis. *)
Definition truncated_at_end (label : string) (maxLength : nat) : string :=
  if (length label <=? maxLength)%nat then label
  else trimEnd (substring 0 maxLength label) ++ "...".

End ChartSpec.

(** ** Shapes of binary64 numbers *)

Module FloatShape.

(** Zero, a finite number or infinity, of sign plus. *)
Definition nonneg (x : spec_float) : bool :=
  match x with
  | S754_zero false | S754_infinity false | S754_finite false _ _ => true
  | _ => false
  end.

(** A finite number or infinity, of sign plus. *)
Definition pos (x : spec_float) : bool :=
  match x with
  | S754_infinity false | S754_finite false _ _ => true
  | _ => false
  end.

(** A [float] that is a number (not NaN), not below zero and not [-0]. *)
Definition is_nonneg (a : float) : Prop := nonneg (Prim2SF a) = true.

End FloatShape.

(** ** Sample directories *)

Module Samples.
Import JsString Summarizer Listing.

(** A directory [root] with [notes.md] (50 bytes, text "hello") and
    [node_modules/pkg/index.js]. *)
Definition notes_md : handle :=
  FileHandle "notes.md" (Some (mkFile 50 (Some "hello"))).

Definition node_modules : handle :=
  DirectoryHandle "node_modules"
    [DirectoryHandle "pkg"
       [FileHandle "index.js" (Some (mkFile 120 (Some "module.exports = 1;")))]
       None]
    None.

Definition notes_root : handle :=
  DirectoryHandle "root" [notes_md; node_modules] None.

(** The state at the end of the traversal of [notes_root]. *)
Definition notes_state : state :=
  mkState
    [dirIcon ++ " root"; "  " ++ fileIcon ++ " notes.md";
     "  " ++ dirIcon ++ " node_modules"]
    [mkKeyFile "root/notes.md/notes.md" "hello"]
    [].





(** A picker that the user dismisses, and one that yields [notes_root]. *)
Definition dismissed : window :=
  mkWindow true (Threw (DOMException "AbortError" "The user aborted a request.")).

Definition picked : window := mkWindow true (Returned notes_root).

End Samples.

(** ** The service of [gemini.service.ts]: constructor and entry points *)

Module GeminiApi.
Import JsString Gemini.

(** The double quote. *)
Definition dq : string := String (ascii_of_nat 34) "".

(** The task template, before and after [${taskDescription}]. *)
Definition task_head : string :=
  join nl
    ["You are an expert automation consultant. Your goal is to help users identify repetitive tasks that can be automated to save time and reduce errors. Analyze the following user-described task and provide a list of concrete automation suggestions.";
     "";
     "When recommending a tool, consider the task's nature and suggest the most appropriate option from the following categories, explaining briefly why it's a good fit:";
     "- **No-Code/Low-Code Platforms (Zapier, IFTTT, Make/Integromat):** Best for connecting different web apps and services.";
     "- **RPA (Robotic Process Automation) Tools (UiPath, Automation Anywhere):** Excellent for automating tasks within desktop applications or websites that lack APIs.";
     "- **Web Browser Automation (Selenium, Playwright):** Suited for complex web scraping or data extraction.";
     "- **Custom Scripting (Python, JavaScript/Node.js):** The most flexible option for unique, complex logic.";
     "- **Built-in Application Features (e.g., Excel Macros, Gmail Filters):** Simple solutions within existing software.";
     "";
     "Task description: " ++ dq].

Definition task_tail : string :=
  join nl
    [dq;
     "";
     "For each suggestion, provide the following details in a clear, structured JSON format:";
     "- area: The specific sub-task or component of the process that can be automated.";
     "- tool: A recommended tool, script, or technology (e.g., " ++ dq ++ "Python with Selenium library" ++ dq ++ ", " ++ dq ++ "Zapier" ++ dq ++ ") and a brief justification.";
     "- benefit: The primary benefit of automating this area (e.g., " ++ dq ++ "Saves ~2 hours per week" ++ dq ++ ").";
     "- steps: A bulleted list of high-level steps to implement the automation.";
     ""].

(** The project template, before and after [${projectSummary}]. *)
Definition project_head : string :=
  join nl
    ["You are an expert DevOps and software automation consultant. Your goal is to help developers improve their monorepo workflows. Analyze the following summary of a local software project.";
     "";
     "Based on this information, provide a list of concrete automation suggestions focusing on areas like CI/CD, dependency management, code quality, and local development experience.";
     "";
     "Project Summary:";
     "---";
     ""].

Definition project_tail : string :=
  join nl
    ["";
     "---";
     "";
     "For each suggestion, provide the following details in a clear, structured JSON format:";
     "- area: The specific process or workflow that can be automated (e.g., " ++ dq ++ "Automated Testing on Pull Requests" ++ dq ++ ").";
     "- tool: A recommended tool or technology (e.g., " ++ dq ++ "GitHub Actions" ++ dq ++ ", " ++ dq ++ "Husky with lint-staged" ++ dq ++ "). Briefly justify your choice.";
     "- benefit: The primary benefit of this automation (e.g., " ++ dq ++ "Catches bugs early" ++ dq ++ ").";
     "- steps: A bulleted list of high-level steps to implement the automation.";
     ""].

(** The learning template, before and after [${learningSummary}]. *)
Definition learning_head : string :=
  join nl
    ["You are an expert in learning science and personal knowledge management (PKM). Your goal is to help users automate their learning process. Analyze the following summary of a local folder containing learning materials.";
     "";
     "Based on the file structure and content, provide a list of concrete automation suggestions. Focus on areas like:";
     "- **Knowledge Extraction & Summarization:** Automatically creating summaries, key takeaways, or outlines from text files.";
     "- **Active Recall & Spaced Repetition:** Generating flashcards (e.g., for Anki) or quizzes from notes.";
     "- **Connecting Ideas:** Suggesting ways to build a connected knowledge base (e.g., using Obsidian or Logseq) and automate the creation of links or indexes.";
     "- **Study Planning:** Recommending a study schedule based on the number of files/modules.";
     "- **Content Conversion:** Ideas for converting content from one format to another (e.g., text-to-speech for audio review).";
     "";
     "Learning Materials Summary:";
     "---";
     ""].

Definition learning_tail : string :=
  join nl
    ["";
     "---";
     "";
     "For each suggestion, provide the following details in a clear, structured JSON format:";
     "- area: The specific learning task to automate (e.g., " ++ dq ++ "Generate Flashcards from Notes" ++ dq ++ ").";
     "- tool: A recommended tool, script, or platform (e.g., " ++ dq ++ "Python script with NLTK" ++ dq ++ ", " ++ dq ++ "Anki flashcard software" ++ dq ++ ", " ++ dq ++ "Obsidian plugin" ++ dq ++ "). Briefly justify your choice.";
     "- benefit: The primary learning benefit (e.g., " ++ dq ++ "Improves long-term retention" ++ dq ++ ", " ++ dq ++ "Saves time on manual summarization" ++ dq ++ ").";
     "- steps: A bulleted list of high-level steps to implement the automation.";
     ""].

Definition taskPrompt (taskDescription : string) : string :=
  task_head ++ taskDescription ++ task_tail.

Definition projectPrompt (projectSummary : string) : string :=
  project_head ++ projectSummary ++ project_tail.

Definition learningPrompt (learningSummary : string) : string :=
  learning_head ++ learningSummary ++ learning_tail.

Section Service.

(** [JSON.parse], and [new GoogleGenAI({ apiKey })]: for a key, what
    [models.generateContent] does with a prompt. *)
Variable JSON_parse : string -> outcome json.
Variable GoogleGenAI : string -> string -> outcome response.

(** The constructor, from [process.env.API_KEY] ([None] when it is not
    set); an empty key is falsy. *)
Definition constructor (API_KEY : option string) : service :=
  match API_KEY with
  | Some apiKey =>
      if String.eqb apiKey "" then mkService false None
      else mkService true (Some (GoogleGenAI apiKey))
  | None => mkService false None
  end.

Definition getTaskAutomationSuggestions (this : service)
    (taskDescription : string) : outcome json :=
  generateSuggestions JSON_parse this (taskPrompt taskDescription).

Definition getProjectAutomationSuggestions (this : service)
    (projectSummary : string) : outcome json :=
  generateSuggestions JSON_parse this (projectPrompt projectSummary).

Definition getLearningAutomationSuggestions (this : service)
    (learningSummary : string) : outcome json :=
  generateSuggestions JSON_parse this (learningPrompt learningSummary).

End Service.

End GeminiApi.

(** ** The component of [app.component.ts]: the three actions *)

Module App.
Import JsString Summarizer Gemini.

Local Open Scope float_scope.

(** The service as the component uses it. Its methods promise an
    [AutomationResponse]; what they resolve to is the value that
    [JSON.parse] returned, of whatever shape, and each may reject. *)
Record GeminiService : Type := mkGeminiService {
  getTaskAutomationSuggestions : string -> outcome json;
  getProjectAutomationSuggestions : string -> outcome json;
  getLearningAutomationSuggestions : string -> outcome json
}.

(** [inject(GeminiService)]: the service of [gemini.service.ts]. *)
Definition inject (JSON_parse : string -> outcome json) (this : service)
    : GeminiService :=
  mkGeminiService
    (GeminiApi.getTaskAutomationSuggestions JSON_parse this)
    (GeminiApi.getProjectAutomationSuggestions JSON_parse this)
    (GeminiApi.getLearningAutomationSuggestions JSON_parse this).

Inductive loading : Type :=
| idle
| analyzing_task
| scanning_project
| scanning_learning.

(** The four signals of the component. [suggestions] holds what was set:
    [None] for [null], else the [suggestions] of a response. *)
Record component : Type := mkComponent {
  taskDescription : string;
  suggestions : option json;
  loadingState : loading;
  error : option string
}.

(** The browser during one action: the answer to [window.confirm], the
    directory picker, and of its JavaScript engine the conversion
    [ToNumber] of a string, an array or an object to a number (which may
    throw), and the message of the [TypeError] for reading a property of
    [undefined] ([None]) or of [null]. *)
Record browser : Type := mkBrowser {
  confirm : bool;
  window : Summarizer.window;
  ToNumber : json -> outcome float;
  typeErrorMessage : option json -> string
}.

Definition set_taskDescription (t : string) (c : component) : component :=
  mkComponent t (suggestions c) (loadingState c) (error c).

Definition set_suggestions (v : option json) (c : component) : component :=
  mkComponent (taskDescription c) v (loadingState c) (error c).

Definition set_loadingState (l : loading) (c : component) : component :=
  mkComponent (taskDescription c) (suggestions c) l (error c).

Definition set_error (e : option string) (c : component) : component :=
  mkComponent (taskDescription c) (suggestions c) (loadingState c) e.

(** [e instanceof Error ? e.message : 'An unknown error occurred.'] *)
Definition message (e : exn) : string :=
  match e with
  | DOMException _ m => m
  | Error m => m
  | OtherError _ m => m
  | NotAnError _ => "An unknown error occurred."
  end.

Definition selectExample (prompt : string) (c : component) : component :=
  set_taskDescription prompt c.

(** A value in a condition: [null], [false], zero, NaN and the empty
    string are falsy. *)
Definition truthy (value : json) : bool :=
  match value with
  | JNull => false
  | JBool b => b
  | JNumber n => negb ((n =? 0) || is_nan n)
  | JString s => negb (String.eqb s "")
  | JArray _ => true
  | JObject _ => true
  end.

(** [value.length > 0] for a value that is neither [undefined] nor
    [null]. A string and an array have their length; an object has the
    field of that name, if any; a number and a boolean have none.
    [undefined > 0] and [null > 0] are false, [true > 0] is true. *)
Definition hasPositiveLength (b : browser) (value : json) : outcome bool :=
  match value with
  | JString s => Returned (0 <? length s)%nat
  | JArray items => Returned (0 <? List.length items)%nat
  | JObject fields =>
      match lookup "length" fields with
      | None => Returned false
      | Some JNull => Returned false
      | Some (JBool x) => Returned x
      | Some (JNumber n) => Returned (0 <? n)
      | Some l =>
          match ToNumber b l with
          | Returned n => Returned (0 <? n)
          | Threw e => Threw e
          end
      end
  | _ => Returned false
  end.

(** [if (response && response.suggestions.length > 0)
       this.suggestions.set(response.suggestions);
     else this.error.set(nothing);] *)
Definition show (b : browser) (response : json) (nothing : string)
    (c : component) : outcome component :=
  if truthy response then
    match field "suggestions" response with
    | None => Threw (OtherError "TypeError" (typeErrorMessage b None))
    | Some JNull => Threw (OtherError "TypeError" (typeErrorMessage b (Some JNull)))
    | Some suggestions =>
        match hasPositiveLength b suggestions with
        | Returned true => Returned (set_suggestions (Some suggestions) c)
        | Returned false => Returned (set_error (Some nothing) c)
        | Threw e => Threw e
        end
    end
  else Returned (set_error (Some nothing) c).

(** [try { ... } catch (e) { error.set(message) } finally { idle }], from
    the state [c] the signals have when the body starts. *)
Definition settle (c : component) (attempt : outcome component) : component :=
  set_loadingState idle
    match attempt with
    | Returned c' => c'
    | Threw e => set_error (Some (message e)) c
    end.

Definition task_keyFiles : list string := [".csv"; ".json"; ".xml"; ".txt"; ".md"].

Definition project_keyFiles : list string :=
  ["package.json"; "pnpm-workspace.yaml"; "lerna.json"; "nx.json"; "turbo.json";
   "angular.json"; "vite.config.ts"; "webpack.config.js"; ".gitlab-ci.yml";
   "docker-compose.yml"; "Dockerfile"; "Jenkinsfile"; "azure-pipelines.yml";
   "tsconfig.json"; "pyproject.toml"; "requirements.txt"].

Definition learning_keyFiles : list string :=
  [".md"; ".txt"; ".json"; ".srt"; ".vtt"; ".pdf"; ".epub"].

Definition context_header : string :=
  nl ++ nl ++ "--- CONTEXT FROM LOCAL FILES ---" ++ nl.

Definition no_task_suggestions : string :=
  "No automation suggestions could be generated for this task. Please try a different description.".

Definition no_project_suggestions : string :=
  "No automation suggestions could be generated for this project. It might not contain recognizable configuration files.".

Definition no_learning_suggestions : string :=
  "No learning automation suggestions could be generated. Try a folder with more text-based content like .md or .txt files.".

Definition analyzeTask (b : browser) (geminiService : GeminiService)
    (c : component) : component :=
  let taskText := trim (taskDescription c) in
  if String.eqb taskText "" then
    set_error (Some "Please describe a task to analyze.") c
  else
    let c :=
      set_error None (set_suggestions None (set_loadingState analyzing_task c)) in
    let described : outcome string :=
      if confirm b then
        match pickAndSummarizeDirectory (window b) task_keyFiles true with
        | Threw e => Threw e
        | Returned (Some summary) =>
            if String.eqb summary "" then Returned taskText
            else Returned (taskText ++ context_header ++ summary)
        | Returned None => Returned taskText
        end
      else Returned taskText in
    settle c
      match described with
      | Threw e => Threw e
      | Returned fullTaskDescription =>
          match getTaskAutomationSuggestions geminiService fullTaskDescription with
          | Threw e => Threw e
          | Returned response => show b response no_task_suggestions c
          end
      end.

Definition scanLocalProject (b : browser) (geminiService : GeminiService)
    (c : component) : component :=
  let c :=
    set_error None (set_suggestions None (set_loadingState scanning_project c)) in
  settle c
    match pickAndSummarizeDirectory (window b) project_keyFiles false with
    | Threw e => Threw e
    | Returned None => Returned c
    | Returned (Some summary) =>
        match getProjectAutomationSuggestions geminiService summary with
        | Threw e => Threw e
        | Returned response => show b response no_project_suggestions c
        end
    end.

Definition scanLearningFolder (b : browser) (geminiService : GeminiService)
    (c : component) : component :=
  let c :=
    set_error None (set_suggestions None (set_loadingState scanning_learning c)) in
  settle c
    match pickAndSummarizeDirectory (window b) learning_keyFiles true with
    | Threw e => Threw e
    | Returned None => Returned c
    | Returned (Some summary) =>
        match getLearningAutomationSuggestions geminiService summary with
        | Threw e => Threw e
        | Returned response => show b response no_learning_suggestions c
        end
    end.

End App.

(** ** Notions used to state facts about the component *)

Module AppSpec.
Import App Gemini.





(** A browser with a given answer to [confirm] and a given picker; its
    engine makes NaN of what it converts and words its [TypeError] as V8
    does. *)
Definition plain (confirm : bool) (w : Summarizer.window) : browser :=
  mkBrowser confirm w (fun _ => Returned nan)
    (fun _ => "Cannot read properties of undefined (reading 'length')").

(** A service whose three methods reject. *)
Definition rejecting (e : exn) : GeminiService :=
  mkGeminiService (fun _ => Threw e) (fun _ => Threw e) (fun _ => Threw e).

(** A service whose three methods resolve to a value. *)
Definition resolving (v : json) : GeminiService :=
  mkGeminiService (fun _ => Returned v) (fun _ => Returned v) (fun _ => Returned v).

End AppSpec.

(** ** What [createChart] hands to the renderer *)

Module ChartView.
Import JsString Chart.

Local Open Scope float_scope.

(** [d3.max(values)] of d3-array: the first value with [value >= value]
    is taken, a later one replaces it when [max < value]; [None] for
    [undefined]. *)
Definition d3_max (values : list float) : option float :=
  fold_left
    (fun max value =>
       match max with
       | None => if value <=? value then Some value else None
       | Some m => if m <? value then Some value else max
       end)
    values None.

(** [d3.max(data, d => d.hoursSaved) || 10], the upper end of the domain
    of the linear scale: zero, NaN and [undefined] are falsy. *)
Definition xDomainMax (data : list ChartData) : float :=
  match d3_max (map hoursSaved data) with
  | None => 10
  | Some m => if (m =? 0) || is_nan m then 10 else m
  end.

(** [data.length * 35 + margin.top + margin.bottom] *)
Definition chartHeight (data : list ChartData) : Z :=
  Z.of_nat (List.length data) * 35 + 20 + 40.

End ChartView.

(** ** More notions about the traversal *)

Module Reading.
Import JsString Summarizer Listing.

(** The message the file branch sends to [console.warn] at a node. *)
Definition warned (keyFiles : list string) (checkExtension : bool)
    (v : visit) : list string :=
  match v_handle v with
  | FileHandle name getFile =>
      warnings (visit_file keyFiles checkExtension name getFile (v_path v) initial)
  | DirectoryHandle _ _ _ => []
  end.

(** The tree with every ignored directory emptied. *)
Fixpoint prune (h : handle) : handle :=
  match h with
  | FileHandle _ _ => h
  | DirectoryHandle name entries failure =>
      if has IGNORE_DIRS name then DirectoryHandle name [] None
      else DirectoryHandle name (map prune entries) failure
  end.

(** A node that is a directory [traverse] iterates when it lists it: one
    that is not ignored; [failure] is what its iteration ends with. *)
Definition iterated (v : visit) (failure : option exn) : Prop :=
  exists name entries,
    v_handle v = DirectoryHandle name entries failure /\
    has IGNORE_DIRS name = false.

End Reading.

(** ** More sample directories *)

Module MoreSamples.
Import JsString Summarizer Listing.

Definition denied : exn :=
  DOMException "NotAllowedError" "The request is not allowed.".

(** A project whose [src] cannot be iterated to its end, and whose
    [node_modules] could not be either. *)
Definition locked_root : handle :=
  DirectoryHandle "project"
    [FileHandle "package.json" (Some (mkFile 300 (Some "{}")));
     DirectoryHandle "node_modules" [] (Some (Error "never iterated"));
     DirectoryHandle "src" [FileHandle "main.ts" None] (Some denied)]
    None.

(** A folder with a readable note, a note whose [text()] rejects, a note
    whose [getFile()] rejects and a book. *)
Definition notes_folder : handle :=
  DirectoryHandle "notes"
    [FileHandle "a.md" (Some (mkFile 5 (Some "alpha")));
     FileHandle "b.md" (Some (mkFile 7 None));
     FileHandle "c.md" None;
     FileHandle "d.epub" None]
    None.

Definition notes_folder_state : state :=
  mkState
    [dirIcon ++ " notes"; "  " ++ fileIcon ++ " a.md"; "  " ++ fileIcon ++ " b.md";
     "  " ++ fileIcon ++ " c.md"; "  " ++ fileIcon ++ " d.epub"]
    [mkKeyFile "notes/a.md/a.md" "alpha"]
    ["Could not read file: notes/b.md/b.md"; "Could not read file: notes/c.md/c.md"].

End MoreSamples.

(** * Part II: the facts *)

(** ** Facts about characters, code units and white space *)

Module JsStringFacts.
Import JsString Utf16.

Lemma append_empty_r s : s ++ "" = s.
Proof. induction s as [| c s IH]; simpl; congruence. Qed.

Lemma cat_cons x l : cat (x :: l) = x ++ cat l.
Proof. destruct l; simpl; [now rewrite append_empty_r | reflexivity]. Qed.

Lemma cat_app a b : cat (a ++ b) = cat a ++ cat b.
Proof.
  induction a as [| x a IH]; [reflexivity |].
  change ((x :: a) ++ b)%list with (x :: (a ++ b))%list.
  rewrite !cat_cons, IH. induction x; simpl; congruence.
Qed.

Lemma chars_grouped s : grouped (chars s).
Proof.
  induction s as [| c t [Hg Hs]]; [split; constructor |].
  cbn [chars]. destruct (chars t) as [| [| d u] rest] eqn:E.
  - split; repeat constructor.
  - inversion Hg; discriminate.
  - destruct (isContinuation d) eqn:Hd.
    + split.
      * inversion Hg; subst. constructor; [| assumption]. cbn. now rewrite Hd.
      * exact Hs.
    + split.
      * constructor; [reflexivity | assumption].
      * cbn [tl]. constructor; [cbn; now rewrite Hd |]. exact Hs.
Qed.

Lemma chars_group_app c k : forall l,
  allContinuation k = true ->
  Forall (fun g => starts g = true) l ->
  chars (cat l) = l ->
  chars (String c k ++ cat l) = String c k :: l.
Proof.
  revert c. induction k as [| d k IH]; intros c l Hk Hl Hc.
  - cbn [append chars]. rewrite Hc. destruct l as [| [| e u] rest]; [reflexivity | |].
    + inversion Hl; discriminate.
    + inversion Hl as [| ? ? He _]; subst. cbn in He.
      destruct (isContinuation e); [discriminate | reflexivity].
  - cbn [allContinuation] in Hk. apply andb_prop in Hk as [Hd Hk].
    change (String c (String d k) ++ cat l) with (String c (String d k ++ cat l)).
    cbn [chars]. rewrite (IH d l Hk Hl Hc). now rewrite Hd.
Qed.

Lemma chars_cat l : grouped l -> chars (cat l) = l.
Proof.
  induction l as [| g l IH]; intros [Hg Hs]; [reflexivity |].
  rewrite cat_cons. inversion Hg as [| ? ? Hg1 Hg2]; subst. cbn [tl] in Hs.
  destruct g as [| c k]; [discriminate |].
  apply chars_group_app; [exact Hg1 | exact Hs |].
  apply IH. split; [exact Hg2 |]. destruct l; [constructor | now inversion Hs].
Qed.

Lemma cat_chars s : cat (chars s) = s.
Proof.
  induction s as [| c t IH]; [reflexivity |].
  cbn [chars]. destruct (chars t) as [| [| d u] rest] eqn:E.
  - cbn in IH. now subst t.
  - rewrite cat_cons. rewrite <- IH. reflexivity.
  - destruct (isContinuation d).
    + rewrite cat_cons in *. rewrite <- IH. reflexivity.
    + rewrite cat_cons. rewrite IH. reflexivity.
Qed.


(** Parts of a grouped list *)
Lemma grouped_suffix a b : grouped (a ++ b)%list -> grouped b.
Proof.
  induction a as [| x a IH]; [trivial |]. intros [Hg Hs]. apply IH.
  cbn in Hg, Hs. inversion Hg; subst. split; [assumption |].
  destruct (a ++ b)%list; [constructor | now inversion Hs].
Qed.

Lemma grouped_prefix a b : grouped (a ++ b)%list -> grouped a.
Proof.
  intros [Hg Hs]. split.
  - apply Forall_app in Hg. apply Hg.
  - destruct a as [| x a]; [constructor |]. cbn in Hs. apply Forall_app in Hs. apply Hs.
Qed.

Lemma dropWhile_suffix {A} (p : A -> bool) l : exists a, l = (a ++ dropWhile p l)%list.
Proof.
  induction l as [| x l [a IH]]; [now exists [] |]. cbn.
  destruct (p x); [| now exists []]. exists (x :: a). cbn. now f_equal.
Qed.

Lemma dropWhileEnd_prefix {A} (p : A -> bool) l :
  exists b, l = (rev (dropWhile p (rev l)) ++ b)%list.
Proof.
  destruct (dropWhile_suffix p (rev l)) as [a Ha]. exists (rev a).
  rewrite <- rev_app_distr, <- Ha. now rewrite rev_involutive.
Qed.

Lemma grouped_dropWhile p l : grouped l -> grouped (dropWhile p l).
Proof.
  destruct (dropWhile_suffix p l) as [a Ha]. intros H. rewrite Ha in H.
  now apply grouped_suffix in H.
Qed.

Lemma grouped_dropWhileEnd p l : grouped l -> grouped (rev (dropWhile p (rev l))).
Proof.
  destruct (dropWhileEnd_prefix p l) as [b Hb]. intros H. rewrite Hb in H.
  now apply grouped_prefix in H.
Qed.

(** Lengths *)
Lemma length_append a b : length (a ++ b) = length a + length b.
Proof. induction a as [| c a IH]; simpl; [reflexivity | rewrite IH; lia]. Qed.

Lemma length_cat_app a b : length (cat (a ++ b)) = length (cat a) + length (cat b).
Proof. now rewrite cat_app, length_append. Qed.

Lemma length_dropWhile p l : length (cat (dropWhile p l)) <= length (cat l).
Proof.
  destruct (dropWhile_suffix p l) as [a Ha]. rewrite Ha at 2.
  rewrite length_cat_app. lia.
Qed.

Lemma length_dropWhileEnd p l : length (cat (rev (dropWhile p (rev l)))) <= length (cat l).
Proof.
  destruct (dropWhileEnd_prefix p l) as [b Hb]. rewrite Hb at 2.
  rewrite length_cat_app. lia.
Qed.

Lemma length_trimStart_le s : length (trimStart s) <= length s.
Proof.
  unfold trimStart. rewrite <- (cat_chars s) at 2. apply length_dropWhile.
Qed.

Lemma length_trimEnd_le s : length (trimEnd s) <= length s.
Proof.
  unfold trimEnd. rewrite <- (cat_chars s) at 2. apply length_dropWhileEnd.
Qed.

Lemma length_trim_le s : length (trim s) <= length s.
Proof.
  unfold trim. pose proof (length_trimEnd_le (trimStart s)).
  pose proof (length_trimStart_le s). lia.
Qed.

(** The bytes of [utf8] *)
Lemma byte_of n : (n < 256)%N -> N_of_ascii (ascii_of_N n) = n.
Proof. apply N_ascii_embedding. Qed.

Ltac euclid := zify; Z.to_euclidean_division_equations; lia.

Lemma isContinuation_byte n :
  (128 <= n < 192)%N -> isContinuation (ascii_of_N n) = true.
Proof.
  intros H. unfold isContinuation. rewrite byte_of by lia.
  apply andb_true_intro. split; [apply N.leb_le | apply N.ltb_lt]; lia.
Qed.

Lemma isContinuation_first n :
  (n < 128 \/ 192 <= n < 256)%N -> isContinuation (ascii_of_N n) = false.
Proof.
  intros H. unfold isContinuation. rewrite byte_of by lia.
  apply andb_false_iff. destruct H; [left; apply N.leb_gt | right; apply N.ltb_ge]; lia.
Qed.

Lemma units_first n : (n < 128 \/ 192 <= n < 240)%N -> units (ascii_of_N n) = 1.
Proof.
  intros H. unfold units. rewrite isContinuation_first by lia.
  rewrite byte_of by lia. replace (n <? 240)%N with true; [reflexivity |].
  symmetry. apply N.ltb_lt. lia.
Qed.

Lemma units_four n : (240 <= n < 256)%N -> units (ascii_of_N n) = 2.
Proof.
  intros H. unfold units. rewrite isContinuation_first by lia.
  rewrite byte_of by lia. replace (n <? 240)%N with false; [reflexivity |].
  symmetry. apply N.ltb_ge. lia.
Qed.

Lemma units_continuation c : isContinuation c = true -> units c = 0.
Proof. intros H. unfold units. now rewrite H. Qed.

(** The shape of [utf8 cp] *)
Ltac bytes_of_utf8 :=
  repeat match goal with
  | |- context [units (ascii_of_N ?n)] =>
      first [ rewrite (units_first n) by euclid
            | rewrite (units_four n) by euclid
            | rewrite (units_continuation (ascii_of_N n))
                by (apply isContinuation_byte; euclid) ]
  | |- context [isContinuation (ascii_of_N ?n)] =>
      first [ rewrite (isContinuation_byte n) by euclid
            | rewrite (isContinuation_first n) by euclid ]
  end.

Lemma utf8_shape cp :
  (cp < 2097152)%N ->
  group (utf8 cp) = true /\ starts (utf8 cp) = true /\
  length (utf8 cp) = (if (cp <? 65536)%N then 1 else 2).
Proof.
  intros Hcp. unfold utf8.
  destruct (cp <? 128)%N eqn:H1; [apply N.ltb_lt in H1 | apply N.ltb_ge in H1].
  { replace (cp <? 65536)%N with true by (symmetry; apply N.ltb_lt; lia).
    cbn [group starts length allContinuation]. bytes_of_utf8. auto. }
  destruct (cp <? 2048)%N eqn:H2; [apply N.ltb_lt in H2 | apply N.ltb_ge in H2].
  { replace (cp <? 65536)%N with true by (symmetry; apply N.ltb_lt; lia).
    cbn [group starts length allContinuation]. bytes_of_utf8. auto. }
  destruct (cp <? 65536)%N eqn:H3; [apply N.ltb_lt in H3 | apply N.ltb_ge in H3].
  { cbn [group starts length allContinuation]. bytes_of_utf8. auto. }
  cbn [group starts length allContinuation]. bytes_of_utf8. auto.
Qed.

Lemma codePoint_utf8 cp : (cp < 2097152)%N -> codePoint (utf8 cp) = cp.
Proof.
  intros Hcp. unfold utf8.
  destruct (cp <? 128)%N eqn:H1; [apply N.ltb_lt in H1 | apply N.ltb_ge in H1].
  { cbn [codePoint]. now rewrite byte_of by lia. }
  destruct (cp <? 2048)%N eqn:H2; [apply N.ltb_lt in H2 | apply N.ltb_ge in H2].
  { cbn [codePoint]. rewrite !byte_of by euclid. euclid. }
  destruct (cp <? 65536)%N eqn:H3; [apply N.ltb_lt in H3 | apply N.ltb_ge in H3].
  { cbn [codePoint]. rewrite !byte_of by euclid. euclid. }
  cbn [codePoint]. rewrite !byte_of by euclid. euclid.
Qed.

Lemma codePoint_bound ch : (codePoint ch < 2097152)%N.
Proof.
  destruct ch as [| a [| b [| c [| d [| e t]]]]]; cbn [codePoint]; try lia.
  - pose proof (N_ascii_bounded a). lia.
  - euclid.
  - euclid.
  - euclid.
Qed.


(** *** Characters and their code units *)

Lemma canonical_utf8 ch : canonical ch = true -> utf8 (codePoint ch) = ch.
Proof. intros H. apply andb_prop in H as [H _]. now apply String.eqb_eq. Qed.

Lemma canonical_group ch :
  canonical ch = true -> group ch = true /\ starts ch = true.
Proof.
  intros H. apply canonical_utf8 in H. rewrite <- H.
  pose proof (utf8_shape _ (codePoint_bound ch)). tauto.
Qed.

Lemma length_unitsOf ch :
  canonical ch = true -> List.length (unitsOf ch) = length ch /\ 1 <= length ch.
Proof.
  intros H. apply canonical_utf8 in H.
  destruct (utf8_shape _ (codePoint_bound ch)) as [_ [_ Hl]]. rewrite H in Hl.
  rewrite Hl. unfold unitsOf. destruct (codePoint ch <? 65536)%N; cbn; lia.
Qed.

Lemma whiteSpace_bound w : In w whiteSpace -> (w < 65536)%N.
Proof.
  intros H. cbn in H.
  repeat (destruct H as [<- | H]; [reflexivity |]). contradiction.
Qed.

(** The white space of [trim] is the white space of ECMAScript. *)
Lemma isWhiteSpaceUnit_iff u : isWhiteSpaceUnit u = true <-> In u whiteSpace.
Proof.
  split.
  - unfold isWhiteSpaceUnit. intros H.
    repeat rewrite ?orb_true_iff, ?andb_true_iff, ?N.leb_le, ?N.eqb_eq in H.
    cbn [In whiteSpace]. lia.
  - intros H. cbn in H.
    repeat (destruct H as [<- | H]; [reflexivity |]). contradiction.
Qed.

Lemma isWhiteSpaceUnit_existsb u :
  isWhiteSpaceUnit u = existsb (N.eqb u) whiteSpace.
Proof.
  destruct (existsb (N.eqb u) whiteSpace) eqn:E.
  - apply isWhiteSpaceUnit_iff. apply existsb_exists in E as [w [Hin Hw]].
    apply N.eqb_eq in Hw. now subst.
  - apply not_true_is_false. intros H. apply isWhiteSpaceUnit_iff in H.
    assert (existsb (N.eqb u) whiteSpace = true); [| congruence].
    apply existsb_exists. exists u. split; [exact H | apply N.eqb_refl].
Qed.

Lemma isWhiteSpace_codePoint ch :
  canonical ch = true -> isWhiteSpace ch = isWhiteSpaceUnit (codePoint ch).
Proof.
  intros H. apply canonical_utf8 in H. rewrite isWhiteSpaceUnit_existsb.
  unfold isWhiteSpace.
  assert (Hw : forall w, In w whiteSpace ->
            String.eqb ch (utf8 w) = N.eqb (codePoint ch) w).
  { intros w Hin. apply whiteSpace_bound in Hin.
    destruct (N.eqb (codePoint ch) w) eqn:E.
    - apply N.eqb_eq in E. rewrite <- E, H. apply String.eqb_refl.
    - apply String.eqb_neq. intros Hc. apply N.eqb_neq in E. apply E.
      rewrite Hc. apply codePoint_utf8. lia. }
  induction whiteSpace as [| w l IH]; [reflexivity |].
  cbn [existsb]. rewrite Hw by now left. f_equal. apply IH.
  intros w' Hin. apply Hw. now right.
Qed.

Lemma surrogate_not_whiteSpace u :
  (55296 <= u < 57344)%N -> isWhiteSpaceUnit u = false.
Proof.
  intros Hu. apply not_true_is_false. unfold isWhiteSpaceUnit. intros H.
  repeat rewrite ?orb_true_iff, ?andb_true_iff, ?N.leb_le, ?N.eqb_eq in H. lia.
Qed.

Lemma unitsOf_faithful ch :
  canonical ch = true ->
  faithful unitsOf ch /\ faithful (fun c => rev (unitsOf c)) ch.
Proof.
  intros H. unfold faithful, unitsOf. rewrite (isWhiteSpace_codePoint ch H).
  destruct (codePoint ch <? 65536)%N eqn:E.
  - cbn [rev app]. repeat split; intros Hw; eauto.
  - apply N.ltb_ge in E. pose proof (codePoint_bound ch) as Hb.
    assert (Hhi : isWhiteSpaceUnit (55296 + (codePoint ch - 65536) / 1024) = false)
      by (apply surrogate_not_whiteSpace; euclid).
    assert (Hlo : isWhiteSpaceUnit (56320 + (codePoint ch - 65536) mod 1024) = false)
      by (apply surrogate_not_whiteSpace; euclid).
    cbn [rev app]. repeat split; intros Hw; eauto.
    + exfalso. apply isWhiteSpaceUnit_iff, whiteSpace_bound in Hw. lia.
    + exfalso. apply isWhiteSpaceUnit_iff, whiteSpace_bound in Hw. lia.
Qed.

Lemma flat_map_dropWhile (f : string -> list N) cs :
  Forall (faithful f) cs ->
  flat_map f (dropWhile isWhiteSpace cs) = dropWhile isWhiteSpaceUnit (flat_map f cs).
Proof.
  induction 1 as [| ch cs [Hy Hn] _ IH]; [reflexivity |].
  cbn [dropWhile flat_map]. destruct (isWhiteSpace ch).
  - destruct (Hy eq_refl) as [u [-> Hu]]. cbn [app dropWhile]. now rewrite Hu.
  - destruct (Hn eq_refl) as [u [r [E Hu]]]. cbn [flat_map]. rewrite E.
    cbn [app dropWhile]. now rewrite Hu.
Qed.

Lemma flat_map_rev {A B} (f : A -> list B) l :
  rev (flat_map f l) = flat_map (fun x => rev (f x)) (rev l).
Proof.
  induction l as [| x l IH]; [reflexivity |]. cbn [flat_map rev].
  rewrite rev_app_distr, IH, flat_map_app. cbn. now rewrite app_nil_r.
Qed.

Lemma flat_map_dropWhileEnd cs :
  Forall (fun ch => canonical ch = true) cs ->
  flat_map unitsOf (rev (dropWhile isWhiteSpace (rev cs))) =
  strip_end (flat_map unitsOf cs).
Proof.
  intros H. unfold strip_end. rewrite flat_map_rev.
  rewrite <- flat_map_dropWhile.
  - rewrite flat_map_rev. symmetry.
    apply flat_map_ext. intros a. apply rev_involutive.
  - apply Forall_rev. eapply Forall_impl; [| exact H].
    intros ch Hc. now apply unitsOf_faithful.
Qed.

Lemma flat_map_dropWhileStart cs :
  Forall (fun ch => canonical ch = true) cs ->
  flat_map unitsOf (dropWhile isWhiteSpace cs) = strip_start (flat_map unitsOf cs).
Proof.
  intros H. apply flat_map_dropWhile. eapply Forall_impl; [| exact H].
  intros ch Hc. now apply unitsOf_faithful.
Qed.

Lemma canonical_highSurrogate ch :
  canonical ch = true -> length ch = 2 ->
  canonical (highSurrogate ch) = true /\
  exists lo, unitsOf ch = codePoint (highSurrogate ch) :: [lo] /\
             unitsOf (highSurrogate ch) = [codePoint (highSurrogate ch)].
Proof.
  intros H Hl. pose proof (codePoint_bound ch) as Hb.
  destruct (utf8_shape _ Hb) as [_ [_ Hs]]. rewrite (canonical_utf8 ch H), Hl in Hs.
  destruct (codePoint ch <? 65536)%N eqn:E; [discriminate |]. apply N.ltb_ge in E.
  unfold highSurrogate.
  set (hi := (55296 + (codePoint ch - 65536) / 1024)%N).
  assert (Hhi : (55296 <= hi < 57344)%N) by (subst hi; euclid).
  assert (Hcp : codePoint (utf8 hi) = hi) by (apply codePoint_utf8; lia).
  split.
  - unfold canonical. rewrite Hcp, String.eqb_refl. apply N.leb_le. lia.
  - rewrite Hcp. unfold unitsOf. rewrite Hcp.
    replace (codePoint ch <? 65536)%N with false by (symmetry; apply N.ltb_ge; lia).
    replace (hi <? 65536)%N with true by (symmetry; apply N.ltb_lt; lia).
    eauto.
Qed.

Lemma take_units cs : forall n,
  Forall (fun ch => canonical ch = true) cs ->
  Forall (fun ch => canonical ch = true) (take n cs) /\
  flat_map unitsOf (take n cs) = firstn n (flat_map unitsOf cs).
Proof.
  induction cs as [| ch cs IH]; intros n H.
  - split; [constructor | now destruct n].
  - inversion H as [| ? ? Hc Hcs]; subst. cbn [take flat_map].
    destruct (length_unitsOf ch Hc) as [Hlen Hpos].
    destruct (length ch <=? n)%nat eqn:E.
    + apply Nat.leb_le in E. destruct (IH (n - length ch) Hcs) as [IH1 IH2].
      split; [now constructor |]. cbn [flat_map]. rewrite IH2.
      rewrite firstn_app. rewrite (firstn_all2 (unitsOf ch)) by lia. now rewrite Hlen.
    + apply Nat.leb_gt in E. destruct n as [| n]; [split; [constructor | reflexivity] |].
      assert (Hn : n = 0 /\ length ch = 2).
      { unfold unitsOf in Hlen. destruct (codePoint ch <? 65536)%N; cbn in Hlen; lia. }
      destruct Hn as [-> H2].
      destruct (canonical_highSurrogate ch Hc H2) as [Hh [lo [E1 E2]]].
      split; [repeat constructor; exact Hh |].
      cbn [flat_map]. rewrite E1, E2. reflexivity.
Qed.

Lemma highSurrogate_shape ch :
  group (highSurrogate ch) = true /\ starts (highSurrogate ch) = true /\
  length (highSurrogate ch) = 1.
Proof.
  unfold highSurrogate. pose proof (codePoint_bound ch) as Hb.
  set (hi := (55296 + (codePoint ch - 65536) / 1024)%N).
  assert (Hhi : (55296 <= hi < 57344)%N) by (subst hi; euclid).
  destruct (utf8_shape hi) as [Hg [Hs Hl]]; [lia |].
  replace (hi <? 65536)%N with true in Hl by (symmetry; apply N.ltb_lt; lia).
  auto.
Qed.

Lemma take_grouped cs : forall n,
  grouped cs -> grouped (take n cs).
Proof.
  induction cs as [| ch cs IH]; intros n [Hg Hs]; [split; constructor |].
  cbn [take]. inversion Hg as [| ? ? Hg1 Hg2]; subst. cbn [tl] in Hs.
  assert (Hcs : grouped cs).
  { split; [exact Hg2 |]. destruct cs; [constructor | now inversion Hs]. }
  destruct (length ch <=? n)%nat.
  - specialize (IH (n - length ch) Hcs). destruct IH as [IH1 IH2]. split.
    + now constructor.
    + cbn [tl]. destruct cs as [| c2 cs2]; [constructor |].
      inversion Hs as [| ? ? Hs1 Hs2]; subst.
      cbn [take] in *. destruct (length c2 <=? n - length ch)%nat.
      * constructor; [exact Hs1 | exact IH2].
      * destruct (n - length ch); [constructor |]. repeat constructor.
        apply highSurrogate_shape.
  - destruct n; [split; constructor |]. split; [| constructor].
    repeat constructor. apply highSurrogate_shape.
Qed.

Lemma length_take cs : forall n, length (cat (take n cs)) <= n.
Proof.
  induction cs as [| ch cs IH]; intros n; [cbn; lia |].
  cbn [take]. destruct (length ch <=? n)%nat eqn:E.
  - apply Nat.leb_le in E. rewrite cat_cons, length_append.
    specialize (IH (n - length ch)). lia.
  - destruct n; [cbn; lia |]. cbn [cat String.concat].
    destruct (highSurrogate_shape ch) as [_ [_ ->]]. lia.
Qed.

Lemma substring_0 n s : substring 0 n s = cat (take n (chars s)).
Proof.
  unfold substring. cbn [Nat.min Nat.max]. rewrite Nat.sub_0_r.
  now destruct (chars s).
Qed.

Lemma length_substring_le s n : length (substring 0 n s) <= n.
Proof. rewrite substring_0. apply length_take. Qed.

Lemma grouped_app a b :
  grouped a -> Forall (fun g => group g = true) b ->
  Forall (fun g => starts g = true) b -> grouped (a ++ b)%list.
Proof.
  intros [Hg Hs] Hb1 Hb2. split; [now apply Forall_app |].
  destruct a as [| x a]; cbn [tl app].
  - destruct b; [constructor | now inversion Hb2].
  - apply Forall_app. now split.
Qed.

Lemma codeUnits_cat l : grouped l -> codeUnits (cat l) = flat_map unitsOf l.
Proof. intros H. unfold codeUnits. now rewrite chars_cat. Qed.

Lemma wellFormed_chars s :
  wellFormed s = true -> Forall (fun ch => canonical ch = true) (chars s).
Proof. intros H. apply Forall_forall. now apply forallb_forall. Qed.

Lemma canonical_dropWhile p l :
  Forall (fun ch => canonical ch = true) l ->
  Forall (fun ch => canonical ch = true) (dropWhile p l).
Proof.
  destruct (dropWhile_suffix p l) as [a Ha]. intros H. rewrite Ha in H.
  apply Forall_app in H. apply H.
Qed.

(** The code units of a text cut at [n] units, trimmed, with an ellipsis. *)
Lemma codeUnits_substring s n :
  wellFormed s = true ->
  length s = List.length (codeUnits s) /\
  codeUnits (substring 0 n s) = firstn n (codeUnits s) /\
  codeUnits (trimStart (substring 0 n s)) = strip_start (firstn n (codeUnits s)) /\
  codeUnits (trim (substring 0 n s) ++ "...") =
    (strip_end (strip_start (firstn n (codeUnits s))) ++ [46; 46; 46]%N)%list /\
  codeUnits (trimEnd (substring 0 n s) ++ "...") =
    (strip_end (firstn n (codeUnits s)) ++ [46; 46; 46]%N)%list.
Proof.
  intros Hw. apply wellFormed_chars in Hw.
  pose proof (chars_grouped s) as Hg.
  pose proof (substring_0 n s) as Hsub.
  destruct (take_units (chars s) n Hw) as [Hc Hu].
  pose proof (take_grouped (chars s) n Hg) as Hgt.
  assert (Hdots : forall l, grouped l ->
            codeUnits (cat l ++ "...") = (flat_map unitsOf l ++ [46; 46; 46]%N)%list).
  { intros l Hl. change "..." with (cat ["."; "."; "."]).
    rewrite <- cat_app, codeUnits_cat.
    - now rewrite flat_map_app.
    - apply grouped_app; [exact Hl | |]; repeat constructor. }
  split; [| split; [| split; [| split]]].
  - rewrite <- (cat_chars s) at 1. unfold codeUnits. clear - Hw.
    induction Hw as [| ch cs Hch _ IH]; [reflexivity |].
    rewrite cat_cons, length_append. cbn [flat_map]. rewrite List.length_app, IH.
    now destruct (length_unitsOf ch Hch) as [-> _].
  - rewrite Hsub, codeUnits_cat by exact Hgt. exact Hu.
  - rewrite Hsub. unfold trimStart. rewrite chars_cat by exact Hgt.
    rewrite codeUnits_cat by now apply grouped_dropWhile.
    rewrite flat_map_dropWhileStart by exact Hc. now rewrite Hu.
  - rewrite Hsub. unfold trim, trimStart, trimEnd.
    rewrite (chars_cat (take n (chars s))) by exact Hgt.
    rewrite chars_cat by now apply grouped_dropWhile.
    rewrite Hdots by now apply grouped_dropWhileEnd, grouped_dropWhile.
    rewrite flat_map_dropWhileEnd by now apply canonical_dropWhile.
    rewrite flat_map_dropWhileStart by exact Hc. now rewrite Hu.
  - rewrite Hsub. unfold trimEnd. rewrite chars_cat by exact Hgt.
    rewrite Hdots by now apply grouped_dropWhileEnd.
    rewrite flat_map_dropWhileEnd by exact Hc. now rewrite Hu.
Qed.


(** [trim] removes the white-space code units at both ends. *)
Lemma codeUnits_trim s :
  wellFormed s = true ->
  codeUnits (trim s) = strip_end (strip_start (codeUnits s)).
Proof.
  intros Hw. apply wellFormed_chars in Hw. pose proof (chars_grouped s) as Hg.
  unfold trim, trimStart, trimEnd.
  rewrite chars_cat by now apply grouped_dropWhile.
  rewrite codeUnits_cat by now apply grouped_dropWhileEnd, grouped_dropWhile.
  rewrite flat_map_dropWhileEnd by now apply canonical_dropWhile.
  now rewrite flat_map_dropWhileStart.
Qed.

(** *** Blank texts *)

Lemma isWhiteSpace_utf8 cp : In cp whiteSpace -> isWhiteSpace (utf8 cp) = true.
Proof.
  intros H. apply existsb_exists. exists cp. split; [exact H | apply String.eqb_refl].
Qed.

Lemma isWhiteSpace_inv ch :
  isWhiteSpace ch = true -> exists cp, In cp whiteSpace /\ ch = utf8 cp.
Proof.
  intros H. apply existsb_exists in H as [cp [Hin Hcp]].
  apply String.eqb_eq in Hcp. eauto.
Qed.

Lemma whiteSpace_shape cp :
  In cp whiteSpace -> group (utf8 cp) = true /\ starts (utf8 cp) = true.
Proof.
  intros H. apply whiteSpace_bound in H.
  destruct (utf8_shape cp) as [? [? _]]; [lia | auto].
Qed.

Lemma blank_chars s :
  blank s ->
  Forall (fun g => isWhiteSpace g = true) (chars s) /\
  Forall (fun g => starts g = true) (chars s).
Proof.
  induction 1 as [| cp s Hcp _ [IH1 IH2]]; [split; constructor |].
  apply isWhiteSpaceUnit_iff in Hcp.
  destruct (whiteSpace_shape cp Hcp) as [Hg Hs].
  assert (E : chars (utf8 cp ++ s) = utf8 cp :: chars s).
  { rewrite <- (cat_chars s) at 1. destruct (utf8 cp) as [| c k]; [discriminate |].
    apply chars_group_app; [exact Hg | exact IH2 |].
    now rewrite cat_chars. }
  rewrite E. split; constructor; auto using isWhiteSpace_utf8.
Qed.

Lemma dropWhile_all {A} (p : A -> bool) l :
  Forall (fun x => p x = true) l -> dropWhile p l = [].
Proof. induction 1 as [| x l Hx _ IH]; [reflexivity |]. cbn. now rewrite Hx. Qed.

Lemma dropWhile_nil {A} (p : A -> bool) l :
  dropWhile p l = [] -> Forall (fun x => p x = true) l.
Proof.
  induction l as [| x l IH]; [constructor |]. cbn.
  destruct (p x) eqn:Hx; [| discriminate]. intros H. constructor; auto.
Qed.

Lemma dropWhile_head {A} (p : A -> bool) l x rest :
  dropWhile p l = x :: rest -> p x = false.
Proof.
  induction l as [| y l IH]; [discriminate |]. cbn.
  destruct (p y) eqn:Hy; [exact IH |]. now intros [= <- _].
Qed.

Lemma cat_nil l :
  Forall (fun g => group g = true) l -> cat l = "" -> l = [].
Proof.
  intros H. destruct l as [| g l]; [reflexivity |]. rewrite cat_cons.
  inversion H; subst. destruct g; [discriminate |]. discriminate.
Qed.

Lemma blank_cat l :
  Forall (fun g => isWhiteSpace g = true) l -> blank (cat l).
Proof.
  induction 1 as [| g l Hg _ IH]; [constructor |]. rewrite cat_cons.
  apply isWhiteSpace_inv in Hg as [cp [Hin ->]].
  apply isWhiteSpaceUnit_iff in Hin. now constructor.
Qed.

(** [trim] leaves nothing exactly of a blank text. *)
Lemma trim_empty_iff s : trim s = "" <-> blank s.
Proof.
  split.
  - unfold trim, trimEnd, trimStart. intros H.
    pose proof (grouped_dropWhile isWhiteSpace _ (chars_grouped s)) as Hg.
    rewrite chars_cat in H by exact Hg.
    apply cat_nil in H; [| now apply grouped_dropWhileEnd].
    apply (f_equal (@rev string)) in H. rewrite rev_involutive in H. cbn in H.
    apply dropWhile_nil in H. apply Forall_rev in H. rewrite rev_involutive in H.
    destruct (dropWhile isWhiteSpace (chars s)) as [| x rest] eqn:E.
    + apply dropWhile_nil in E. rewrite <- (cat_chars s). now apply blank_cat.
    + apply dropWhile_head in E. inversion H; congruence.
  - intros H. apply blank_chars in H as [H _]. unfold trim, trimStart.
    now rewrite (dropWhile_all _ _ H).
Qed.

(** A text that starts with a letter or a digit is not blank. *)
Lemma blank_first c t :
  blank (String c t) -> exists cp k, In cp whiteSpace /\ utf8 cp = String c k.
Proof.
  intros H. inversion H as [| cp s Hcp Hs E]. apply isWhiteSpaceUnit_iff in Hcp.
  destruct (utf8 cp) as [| c' k] eqn:Hu.
  - destruct (whiteSpace_shape cp Hcp) as [Hg _]. rewrite Hu in Hg. discriminate.
  - cbn in E. injection E as -> _. eauto.
Qed.

Lemma trim_keeps_D t : trim (String "D" t) <> "".
Proof.
  intros H. apply trim_empty_iff in H. apply blank_first in H.
  destruct H as [cp [k [Hin Hu]]]. cbn in Hin.
  repeat (destruct Hin as [<- | Hin]; [discriminate Hu |]). contradiction.
Qed.

Lemma highSurrogate_not_whiteSpace ch : isWhiteSpace (highSurrogate ch) = false.
Proof.
  unfold highSurrogate. pose proof (codePoint_bound ch) as Hb.
  set (hi := (55296 + (codePoint ch - 65536) / 1024)%N).
  assert (Hhi : (55296 <= hi < 57344)%N) by (subst hi; euclid).
  assert (Hc : canonical (utf8 hi) = true).
  { unfold canonical. rewrite codePoint_utf8 by lia. rewrite String.eqb_refl.
    apply N.leb_le. lia. }
  rewrite (isWhiteSpace_codePoint _ Hc), codePoint_utf8 by lia.
  now apply surrogate_not_whiteSpace.
Qed.

(** The start of a text that does not start with white space stays. *)
Lemma trimStart_substring s n ch rest :
  chars s = ch :: rest -> isWhiteSpace ch = false ->
  trimStart (substring 0 n s) = substring 0 n s.
Proof.
  intros Hs Hch. rewrite substring_0. unfold trimStart. rewrite chars_cat by apply take_grouped, chars_grouped.
  rewrite Hs. cbn [take]. destruct (length ch <=? n)%nat.
  - cbn [dropWhile]. now rewrite Hch.
  - destruct n; [reflexivity |]. cbn [dropWhile].
    now rewrite highSurrogate_not_whiteSpace.
Qed.

End JsStringFacts.

(** ** Facts about the traversal *)

Module SummarizerFacts.
Import JsString Summarizer Listing.

Section Walk.

Variable keyFiles : list string.
Variable checkExtension : bool.
Variable maxDepth : Z.

Lemma preorder_depth h : forall path depth below v,
  In v (preorder h path depth below) -> depth <= v_depth v.
Proof.
  induction h as [name getFile | name entries failure IH] using handle_induction;
    intros path depth below v Hin; simpl in Hin.
  - destruct Hin as [<- | []]. simpl. lia.
  - destruct Hin as [<- | Hin]; [simpl; lia |].
    apply in_flat_map in Hin. destruct Hin as [e [He Hv]].
    rewrite Forall_forall in IH.
    specialize (IH e He _ _ _ _ Hv). lia.
Qed.

Lemma preorder_below h : forall path depth v,
  In v (preorder h path depth true) -> v_below_ignored v = true.
Proof.
  induction h as [name getFile | name entries failure IH] using handle_induction;
    intros path depth v Hin; simpl in Hin.
  - destruct Hin as [<- | []]. reflexivity.
  - destruct Hin as [<- | Hin]; [reflexivity |].
    apply in_flat_map in Hin. destruct Hin as [e [He Hv]].
    rewrite Forall_forall in IH. exact (IH e He _ _ _ Hv).
Qed.

Lemma filter_none {A} (f : A -> bool) (l : list A) :
  (forall x, In x l -> f x = false) -> filter f l = [].
Proof.
  induction l as [| x l IH]; intros H; simpl; [reflexivity |].
  rewrite (H x (or_introl eq_refl)). apply IH. intros y Hy. apply H. now right.
Qed.

Lemma too_deep_unlisted h path depth below :
  (maxDepth <? Z.of_nat depth)%Z = true ->
  filter (listed maxDepth) (preorder h path depth below) = [].
Proof.
  intros Hd. apply filter_none. intros v Hv.
  apply preorder_depth in Hv. unfold listed.
  apply Z.ltb_lt in Hd.
  replace (Z.of_nat (v_depth v) <=? maxDepth)%Z with false; [reflexivity |].
  symmetry. apply Z.leb_gt. lia.
Qed.

Lemma below_unlisted h path depth :
  filter (listed maxDepth) (preorder h path depth true) = [].
Proof.
  apply filter_none. intros v Hv. apply preorder_below in Hv.
  unfold listed. rewrite Hv. apply andb_false_r.
Qed.

Lemma visit_file_tree name getFile path st :
  fileTree (visit_file keyFiles checkExtension name getFile path st) = fileTree st.
Proof.
  unfold visit_file.
  destruct (isKeyFile _ _ _); [| reflexivity].
  destruct (isBinaryDocument _); [reflexivity |].
  destruct getFile as [f |]; [| reflexivity].
  destruct (size f <? size_limit)%Z; [| reflexivity].
  destruct (text f); reflexivity.
Qed.

Lemma visit_file_files name getFile path st :
  importantFiles (visit_file keyFiles checkExtension name getFile path st) =
  (importantFiles st ++
   importantFiles (visit_file keyFiles checkExtension name getFile path initial))%list.
Proof.
  unfold visit_file.
  destruct (isKeyFile _ _ _); [| simpl; now rewrite app_nil_r].
  destruct (isBinaryDocument _); [simpl; now rewrite app_nil_r |].
  destruct getFile as [f |]; [| simpl; now rewrite app_nil_r].
  destruct (size f <? size_limit)%Z; [| simpl; now rewrite app_nil_r].
  destruct (text f); simpl; [reflexivity | now rewrite app_nil_r].
Qed.

Lemma extends_nil st : extends keyFiles checkExtension st st [].
Proof. split; simpl; now rewrite app_nil_r. Qed.

Lemma extends_app st1 st2 st3 vs ws :
  extends keyFiles checkExtension st1 st2 vs -> extends keyFiles checkExtension st2 st3 ws -> extends keyFiles checkExtension st1 st3 (vs ++ ws).
Proof.
  intros [H1 H2] [H3 H4]. split.
  - rewrite H3, H1, map_app, app_assoc. reflexivity.
  - rewrite H4, H2, flat_map_app, app_assoc. reflexivity.
Qed.

Lemma for_await_extends (step : handle -> state -> outcome state) failure (children : handle -> list visit) :
  forall entries st st',
  Forall (fun e => forall st st',
            step e st = Returned st' ->
            extends keyFiles checkExtension st st' (filter (listed maxDepth) (children e))) entries ->
  for_await step failure entries st = Returned st' ->
  extends keyFiles checkExtension st st' (filter (listed maxDepth) (flat_map children entries)).
Proof.
  induction entries as [| e rest IH]; intros st st' Hall Hrun; simpl in *.
  - destruct failure; [discriminate |]. injection Hrun as <-. apply extends_nil.
  - inversion Hall as [| ? ? He Hrest]; subst.
    destruct (step e st) as [st1 |] eqn:Hv; [| discriminate].
    rewrite filter_app. eapply extends_app; [exact (He _ _ Hv) |].
    now apply IH.
Qed.

Lemma traverse_extends h : forall path depth st st',
  traverse keyFiles checkExtension maxDepth h path depth st = Returned st' ->
  extends keyFiles checkExtension st st' (filter (listed maxDepth) (preorder h path depth false)).
Proof.
  induction h as [name getFile | name entries failure IH] using handle_induction;
    intros path depth st st' Hrun.
  - simpl in Hrun.
    destruct (maxDepth <? Z.of_nat depth)%Z eqn:Hd.
    + injection Hrun as <-. rewrite too_deep_unlisted by assumption.
      apply extends_nil.
    + injection Hrun as <-. apply Z.ltb_ge in Hd.
      simpl. unfold listed at 1. simpl.
      replace (Z.of_nat depth <=? maxDepth)%Z with true
        by (symmetry; now apply Z.leb_le).
      simpl. split.
      * rewrite visit_file_tree. reflexivity.
      * rewrite visit_file_files. simpl. unfold captured at 1. simpl.
        now rewrite !app_nil_r.
  - cbn [traverse] in Hrun.
    destruct (maxDepth <? Z.of_nat depth)%Z eqn:Hd.
    + injection Hrun as <-. rewrite too_deep_unlisted by assumption.
      apply extends_nil.
    + apply Z.ltb_ge in Hd.
      cbn [preorder filter]. unfold listed at 1. cbn [v_depth v_below_ignored negb].
      replace (Z.of_nat depth <=? maxDepth)%Z with true
        by (symmetry; now apply Z.leb_le).
      cbn [andb orb].
      change (?x :: ?l) with ([x] ++ l)%list.
      eapply extends_app with
        (st2 := push_line (tree_line (DirectoryHandle name entries failure) depth) st).
      * split; simpl; [reflexivity | now rewrite app_nil_r].
      * destruct (has IGNORE_DIRS name) eqn:Hig.
        -- injection Hrun as <-.
           replace (filter (listed maxDepth) _) with (@nil visit); [apply extends_nil |].
           symmetry. apply filter_none. intros v Hv.
           apply in_flat_map in Hv. destruct Hv as [e [_ Hv]].
           apply preorder_below in Hv. unfold listed. rewrite Hv.
           apply andb_false_r.
        -- eapply for_await_extends
             with (children := fun e =>
                     preorder e (path ++ "/" ++ handle_name e) (S depth) false);
             [| exact Hrun].
           eapply Forall_impl; [| exact IH].
           intros e He st0 st1 Hr. exact (He _ _ _ _ Hr).
Qed.

Lemma for_await_returns (step : handle -> state -> outcome state) :
  forall entries st,
  Forall (fun e => forall st, exists st', step e st = Returned st') entries ->
  exists st', for_await step None entries st = Returned st'.
Proof.
  induction entries as [| e rest IH]; intros st Hall; simpl.
  - now exists st.
  - inversion Hall as [| ? ? He Hrest]; subst.
    destruct (He st) as [st1 ->]. now apply IH.
Qed.

(** When no directory of the tree fails to iterate, the traversal returns. *)
Lemma traverse_returns h : forall path depth st,
  readable h = true ->
  exists st', traverse keyFiles checkExtension maxDepth h path depth st = Returned st'.
Proof.
  induction h as [name getFile | name entries failure IH] using handle_induction;
    intros path depth st Hr; cbn [traverse].
  - destruct (maxDepth <? Z.of_nat depth)%Z; eauto.
  - destruct (maxDepth <? Z.of_nat depth)%Z; [eauto |].
    destruct (has IGNORE_DIRS name); [eauto |].
    simpl in Hr. destruct failure; [discriminate |].
    apply for_await_returns.
    rewrite forallb_forall in Hr. rewrite Forall_forall in IH |- *.
    intros e He st0. apply IH; auto.
Qed.

End Walk.

(** *** Strings of the summary *)

Lemma append_assoc (a b c : string) : (a ++ b) ++ c = a ++ (b ++ c).
Proof. induction a as [| x a IH]; simpl; [reflexivity | now rewrite IH]. Qed.

Lemma append_nil_r (a : string) : a ++ "" = a.
Proof. induction a as [| x a IH]; simpl; [reflexivity | now rewrite IH]. Qed.

Lemma fold_append {A} (g : A -> string) (l : list A) : forall init,
  exists rest, fold_left (fun acc f => acc ++ g f) l init = init ++ rest.
Proof.
  induction l as [| x l IH]; intros init; simpl.
  - exists "". now rewrite append_nil_r.
  - destruct (IH (init ++ g x)) as [rest ->].
    exists (g x ++ rest). apply append_assoc.
Qed.

Lemma join_cons sep x xs : exists rest, join sep (x :: xs) = x ++ rest.
Proof.
  unfold join. destruct xs as [| y ys]; simpl.
  - exists "". now rewrite append_nil_r.
  - eexists. reflexivity.
Qed.

Lemma render_shape rootName l ls files ws :
  exists rest,
    render rootName (mkState (l :: ls) files ws) =
    "Directory Root: " ++ rootName ++ nl ++ nl ++ "Directory Structure:" ++ nl
      ++ l ++ rest.
Proof.
  unfold render. cbn [fileTree importantFiles].
  destruct (join_cons nl l ls) as [r1 ->].
  set (head := "Directory Root: " ++ rootName ++ nl ++ nl).
  assert (Hhead : forall tail,
    (head ++ "Directory Structure:" ++ nl ++ (l ++ r1) ++ nl ++ nl) ++ tail =
    "Directory Root: " ++ rootName ++ nl ++ nl ++ "Directory Structure:" ++ nl
      ++ l ++ (r1 ++ nl ++ nl ++ tail)).
  { intros tail. unfold head. now rewrite !append_assoc. }
  destruct files as [| f fs].
  - exists (r1 ++ nl ++ nl ++ ""). rewrite <- Hhead. now rewrite append_nil_r.
  - set (init := (head ++ _) ++ _).
    destruct (fold_append render_file (f :: fs) init) as [r2 ->].
    unfold init. rewrite append_assoc, Hhead. eexists. reflexivity.
Qed.

Lemma scan_extends root keyFiles checkExtension maxDepth st :
  scan root keyFiles checkExtension maxDepth = Returned st ->
  fileTree st = map line_of (filter (listed maxDepth) (nodes root)) /\
  importantFiles st =
    flat_map (captured keyFiles checkExtension) (filter (listed maxDepth) (nodes root)).
Proof.
  intros Hrun. apply traverse_extends in Hrun. exact Hrun.
Qed.

(** When every directory of the tree can be iterated, a summary is
    returned. *)
Lemma generateDirectorySummary_returns root keyFiles checkExtension maxDepth :
  readable root = true ->
  exists summary,
    generateDirectorySummary root keyFiles checkExtension maxDepth = Returned summary.
Proof.
  intros Hr. unfold generateDirectorySummary, scan.
  destruct (traverse_returns keyFiles checkExtension maxDepth root
              (handle_name root) 0 initial Hr) as [st ->].
  eexists. reflexivity.
Qed.

(** *** The summarizer: C1, C3, C7, C8, C10 *)

(** C1 (as the code has it). For [root] with [notes.md] (50 bytes, "hello")
    and [node_modules/pkg/index.js], the extension [.md] as the only key and
    [maxDepth = 3], the traversal lists [root], [notes.md] and
    [node_modules] and nothing beneath [node_modules], and captures exactly
    one key file with content "hello"; the path recorded for it is
    [root/notes.md/notes.md], the name appended to a path that already ends
    with it, and not [root/notes.md]. *)
Theorem notes_example_path_repeats_name :
  scan Samples.notes_root [".md"] true 3 = Returned Samples.notes_state /\
  map path (importantFiles Samples.notes_state) = ["root/notes.md/notes.md"] /\
  map content (importantFiles Samples.notes_state) = ["hello"] /\
  "root/notes.md/notes.md" <> "root/notes.md" /\
  generateDirectorySummary Samples.notes_root [".md"] true 3 =
    Returned (render "root" Samples.notes_state).
Proof.
  repeat split; try reflexivity. discriminate.
Qed.

(** C3. In every summary the tree lines are, in order, the lines of exactly
    those nodes that are at depth at most [maxDepth] (the root at depth 0)
    and have no proper ancestor named in the ignore set
    node_modules, dist, .git, target, build, __pycache__: no line for a
    deeper node, none for a descendant of an ignored directory, and the
    ignored directory itself has its line. *)
Theorem tree_lines_bounded_and_pruned root keyFiles checkExtension maxDepth st :
  scan root keyFiles checkExtension maxDepth = Returned st ->
  IGNORE_DIRS = ["node_modules"; "dist"; ".git"; "target"; "build"; "__pycache__"] /\
  fileTree st =
    map line_of
      (filter
         (fun v => (Z.of_nat (v_depth v) <=? maxDepth)%Z && negb (v_below_ignored v))
         (nodes root)) /\
  (forall v name entries failure,
      In v (nodes root) ->
      v_handle v = DirectoryHandle name entries failure ->
      has IGNORE_DIRS name = true ->
      (Z.of_nat (v_depth v) <= maxDepth)%Z ->
      v_below_ignored v = false ->
      In (line_of v) (fileTree st)).
Proof.
  intros Hrun. destruct (scan_extends _ _ _ _ _ Hrun) as [Htree _].
  split; [reflexivity |]. split; [exact Htree |].
  intros v name entries failure Hin _ _ Hd Hb.
  rewrite Htree. apply in_map. apply filter_In. split; [exact Hin |].
  unfold listed. rewrite Hb. apply Z.leb_le in Hd. rewrite Hd. reflexivity.
Qed.

Lemma tree_lines_bounded_and_pruned_witness :
  fileTree Samples.notes_state =
    map line_of
      (filter
         (fun v => (Z.of_nat (v_depth v) <=? 3)%Z && negb (v_below_ignored v))
         (nodes Samples.notes_root)).
Proof.
  exact (proj1 (proj2
    (tree_lines_bounded_and_pruned Samples.notes_root [".md"] true 3
       Samples.notes_state eq_refl))).
Defined.





(** C10. For every root handle and [maxDepth >= 0], a summary that
    [generateDirectorySummary] returns begins with the header
    "Directory Root: <name>" and carries the root's own tree line (depth 0)
    first in its structure section, so that it is not blank after [trim];
    [pickAndSummarizeDirectory] then returns it and does not throw its
    "empty or could not be read" error. *)
Theorem summary_never_blank root keyFiles checkExtension maxDepth summary :
  (0 <= maxDepth)%Z ->
  generateDirectorySummary root keyFiles checkExtension maxDepth = Returned summary ->
  (exists rest,
      summary =
        "Directory Root: " ++ handle_name root ++ nl ++ nl
          ++ "Directory Structure:" ++ nl ++ tree_line root 0 ++ rest) /\
  String.eqb (trim summary) "" = false /\
  (forall w,
      maxDepth = 3%Z ->
      has_showDirectoryPicker w = true ->
      showDirectoryPicker w = Returned root ->
      pickAndSummarizeDirectory w keyFiles checkExtension = Returned (Some summary)).
Proof.
  intros Hdepth Hgen.
  unfold generateDirectorySummary in Hgen.
  destruct (scan root keyFiles checkExtension maxDepth) as [st |] eqn:Hscan;
    [| discriminate].
  injection Hgen as <-.
  destruct (scan_extends _ _ _ _ _ Hscan) as [Htree _].
  assert (Hroot : exists vs,
    filter (listed maxDepth) (nodes root) = mkVisit root (handle_name root) 0 false :: vs).
  { unfold nodes. destruct root; cbn [preorder filter];
      unfold listed at 1; cbn [v_depth v_below_ignored negb Z.of_nat];
      replace (0 <=? maxDepth)%Z with true by (symmetry; now apply Z.leb_le);
      cbn [andb]; eexists; reflexivity. }
  destruct Hroot as [vs Hvs]. rewrite Hvs in Htree. cbn [map] in Htree.
  destruct st as [tree files ws]. cbn [fileTree] in Htree. subst tree.
  destruct (render_shape (handle_name root) (line_of (mkVisit root (handle_name root) 0 false))
              (map line_of vs) files ws) as [rest Hrest].
  assert (Hblank : String.eqb (trim (render (handle_name root)
            (mkState (line_of (mkVisit root (handle_name root) 0 false) :: map line_of vs) files ws))) "" = false).
  { rewrite Hrest. apply String.eqb_neq.
    change ("Directory Root: " ++ ?x) with (String "D" ("irectory Root: " ++ x)).
    apply JsStringFacts.trim_keeps_D. }
  split; [| split].
  - exists rest. exact Hrest.
  - exact Hblank.
  - intros w -> Hhas Hpick. unfold pickAndSummarizeDirectory.
    rewrite Hhas, Hpick. cbn [negb]. unfold generateDirectorySummary.
    rewrite Hscan, Hblank. reflexivity.
Qed.

Lemma summary_never_blank_witness :
  pickAndSummarizeDirectory Samples.picked [".md"] true =
    Returned (Some (render "root" Samples.notes_state)).
Proof.
  assert (H3 : (0 <= 3)%Z) by (intro H; discriminate H).
  exact (proj2 (proj2
    (summary_never_blank Samples.notes_root [".md"] true 3
       (render "root" Samples.notes_state) H3 eq_refl))
    Samples.picked eq_refl eq_refl eq_refl).
Defined.

End SummarizerFacts.

(** ** Binary64 arithmetic: signs and order

    The operations on [float] are specified by the functions of
    [SpecFloat]; the lemmas of this module are about those functions, for
    any precision, and are brought to [float] in [Float64]. *)

Module SpecFacts.
Import FloatShape.

Local Open Scope Z_scope.

Lemma pos_nonneg x : pos x = true -> nonneg x = true.
Proof. destruct x as [[] | [] | | [] m e]; simpl; congruence. Qed.

Lemma iter_pos_invariant {A} (f : A -> A) (P : A -> Prop) :
  (forall x, P x -> P (f x)) -> forall n x, P x -> P (iter_pos f n x).
Proof.
  intros Hf. induction n as [n IH | n IH |]; intros x Hx; simpl; auto.
Qed.

Lemma shr_1_div2 mrs : 0 <= shr_m mrs -> shr_m (shr_1 mrs) = Z.div2 (shr_m mrs).
Proof.
  destruct mrs as [m r s]. simpl. destruct m as [| p | p]; [reflexivity | | lia].
  intros _. destruct p; reflexivity.
Qed.

Lemma shr_1_nonneg mrs : 0 <= shr_m mrs -> 0 <= shr_m (shr_1 mrs).
Proof.
  intros H. rewrite shr_1_div2 by assumption. rewrite Z.div2_div.
  apply Z.div_pos; lia.
Qed.

Lemma iter_shr_1_div p : forall mrs,
  0 <= shr_m mrs ->
  shr_m (iter_pos shr_1 p mrs) = shr_m mrs / 2 ^ Zpos p.
Proof.
  induction p as [p IH | p IH |]; intros mrs Hm; simpl iter_pos.
  - assert (H1 := shr_1_nonneg _ Hm).
    assert (H2 : 0 <= shr_m (iter_pos shr_1 p (shr_1 mrs))).
    { apply (iter_pos_invariant shr_1 (fun x => 0 <= shr_m x)); auto using shr_1_nonneg. }
    rewrite IH by assumption. rewrite IH by assumption.
    rewrite shr_1_div2, Z.div2_div by assumption.
    rewrite !Z.div_div by (try apply Z.pow_pos_nonneg; lia).
    f_equal. replace (Zpos p~1) with (1 + Zpos p + Zpos p) by lia.
    rewrite !Z.pow_add_r by lia. change (2 ^ 1) with 2. ring.
  - assert (H2 : 0 <= shr_m (iter_pos shr_1 p mrs)).
    { apply (iter_pos_invariant shr_1 (fun x => 0 <= shr_m x)); auto using shr_1_nonneg. }
    rewrite IH by assumption. rewrite IH by assumption.
    rewrite !Z.div_div by (try apply Z.pow_pos_nonneg; lia).
    f_equal. replace (Zpos p~0) with (Zpos p + Zpos p) by lia.
    rewrite Z.pow_add_r by lia. ring.
  - rewrite shr_1_div2, Z.div2_div by assumption. reflexivity.
Qed.

Lemma digits2_pos_bounds p :
  2 ^ (Zpos (digits2_pos p) - 1) <= Zpos p < 2 ^ Zpos (digits2_pos p).
Proof.
  induction p as [p IH | p IH |]; simpl digits2_pos.
  - rewrite Pos2Z.inj_succ.
    replace (Z.succ (Zpos (digits2_pos p)) - 1) with (Z.succ (Zpos (digits2_pos p) - 1)) by lia.
    rewrite !Z.pow_succ_r by lia.
    set (lo := 2 ^ (Zpos (digits2_pos p) - 1)) in *.
    set (hi := 2 ^ Zpos (digits2_pos p)) in *. clearbody lo hi. lia.
  - rewrite Pos2Z.inj_succ.
    replace (Z.succ (Zpos (digits2_pos p)) - 1) with (Z.succ (Zpos (digits2_pos p) - 1)) by lia.
    rewrite !Z.pow_succ_r by lia.
    set (lo := 2 ^ (Zpos (digits2_pos p) - 1)) in *.
    set (hi := 2 ^ Zpos (digits2_pos p)) in *. clearbody lo hi. lia.
  - simpl. lia.
Qed.

Lemma iter_xO_mul m d : Zpos (Pos.iter xO m d) = Zpos m * 2 ^ Zpos d.
Proof.
  revert m. induction d as [| d IH] using Pos.peano_ind; intros m.
  - simpl. lia.
  - rewrite Pos.iter_succ, Pos2Z.inj_succ, Z.pow_succ_r by lia.
    specialize (IH m). set (q := Pos.iter xO m d) in *.
    set (w := 2 ^ Zpos d) in *. clearbody q w. lia.
Qed.

Lemma shr_record_of_loc_m m l : shr_m (shr_record_of_loc m l) = m.
Proof. destruct l as [| []]; reflexivity. Qed.

Lemma round_nearest_even_ge m l : m <= round_nearest_even m l.
Proof.
  destruct l as [| []]; simpl; try lia. destruct (Z.even m); lia.
Qed.

Lemma SFltb_zero_pos x : pos x = true -> SFltb (S754_zero false) x = true.
Proof.
  destruct x as [[] | [] | | [] m e]; intros H; try discriminate H; reflexivity.
Qed.

Lemma SFleb_zero_nonneg x : nonneg x = true -> SFleb (S754_zero false) x = true.
Proof.
  destruct x as [[] | [] | | [] m e]; intros H; try discriminate H; reflexivity.
Qed.

Lemma pos_SFltb_zero x : SFltb (S754_zero false) x = true -> pos x = true.
Proof.
  destruct x as [[] | [] | | [] m e]; intros H; try discriminate H; reflexivity.
Qed.

Section Rounding.

Variables prec emax : Z.
Hypothesis prec_pos : 0 < prec.

Lemma shr_fexp_nonneg m e l :
  0 <= m -> 0 <= shr_m (fst (shr_fexp prec emax m e l)).
Proof.
  intros Hm. unfold shr_fexp, shr.
  destruct (SpecFloat.fexp prec emax (Zdigits2 m + e) - e) as [| n | n]; simpl;
    rewrite ?shr_record_of_loc_m; try assumption.
  apply (iter_pos_invariant shr_1 (fun x => 0 <= shr_m x)).
  - apply shr_1_nonneg.
  - now rewrite shr_record_of_loc_m.
Qed.

(** Rounding a magnitude with sign plus gives zero, a finite number or
    infinity of sign plus: never NaN, never a negative number. *)
Lemma binary_round_aux_nonneg m e l :
  0 <= m -> nonneg (binary_round_aux prec emax false m e l) = true.
Proof.
  intros Hm. unfold binary_round_aux.
  pose proof (shr_fexp_nonneg m e l Hm) as H1.
  destruct (shr_fexp prec emax m e l) as [mrs1 e1]. simpl in H1.
  pose proof (round_nearest_even_ge (shr_m mrs1) (loc_of_shr_record mrs1)) as Hr.
  pose proof (shr_fexp_nonneg
                (round_nearest_even (shr_m mrs1) (loc_of_shr_record mrs1))
                e1 loc_Exact) as H2.
  destruct (shr_fexp prec emax _ e1 loc_Exact) as [mrs2 e2]. simpl in H2.
  assert (0 <= shr_m mrs2) as H3 by (apply H2; lia).
  destruct (shr_m mrs2) as [| q | q]; [reflexivity | | lia].
  destruct (e2 <=? emax - prec); reflexivity.
Qed.

(** With sign minus the result is never above zero. *)
Lemma binary_round_aux_minus m e l :
  SFltb (S754_zero false) (binary_round_aux prec emax true m e l) = false.
Proof.
  unfold binary_round_aux.
  destruct (shr_fexp prec emax m e l) as [mrs1 e1].
  destruct (shr_fexp prec emax _ e1 loc_Exact) as [mrs2 e2].
  destruct (shr_m mrs2) as [| q | q]; [reflexivity | | reflexivity].
  destruct (e2 <=? emax - prec); reflexivity.
Qed.

Lemma fexp_ge_emin x : SpecFloat.emin prec emax <= SpecFloat.fexp prec emax x.
Proof. unfold SpecFloat.fexp. lia. Qed.

(** Above the least exponent a shift keeps a positive magnitude positive. *)
Lemma shr_fexp_pos m e l :
  0 < m -> SpecFloat.emin prec emax <= e ->
  0 < shr_m (fst (shr_fexp prec emax m e l)) /\
  SpecFloat.emin prec emax <= snd (shr_fexp prec emax m e l).
Proof.
  intros Hm He. destruct m as [| p | p]; try lia.
  unfold shr_fexp, shr. cbn [Zdigits2].
  pose proof (digits2_pos_bounds p) as [Hlo _].
  pose proof (fexp_ge_emin (Zpos (digits2_pos p) + e)) as Hf.
  destruct (SpecFloat.fexp prec emax (Zpos (digits2_pos p) + e) - e) as [| n | n] eqn:Hn;
    cbn [fst snd]; rewrite ?shr_record_of_loc_m; try (split; lia).
  rewrite iter_shr_1_div by (rewrite shr_record_of_loc_m; lia).
  rewrite shr_record_of_loc_m. split; [| lia].
  apply Z.div_str_pos. split; [apply Z.pow_pos_nonneg; lia |].
  apply Z.le_trans with (2 := Hlo).
  apply Z.pow_le_mono_r; [lia |].
  unfold SpecFloat.fexp in Hn. lia.
Qed.

Lemma binary_round_aux_pos m e l :
  0 < m -> SpecFloat.emin prec emax <= e ->
  pos (binary_round_aux prec emax false m e l) = true.
Proof.
  intros Hm He. unfold binary_round_aux.
  pose proof (shr_fexp_pos m e l Hm He) as [H1 H1e].
  destruct (shr_fexp prec emax m e l) as [mrs1 e1]. cbn [fst snd] in H1, H1e.
  pose proof (round_nearest_even_ge (shr_m mrs1) (loc_of_shr_record mrs1)) as Hr.
  pose proof (shr_fexp_pos
                (round_nearest_even (shr_m mrs1) (loc_of_shr_record mrs1))
                e1 loc_Exact) as H2.
  destruct (shr_fexp prec emax _ e1 loc_Exact) as [mrs2 e2]. cbn [fst snd] in H2.
  assert (0 < shr_m mrs2) as H3 by (apply H2; lia).
  destruct (shr_m mrs2) as [| q | q]; [lia | | lia].
  destruct (e2 <=? emax - prec); reflexivity.
Qed.

Lemma binary_round_nonneg p e :
  nonneg (binary_round prec emax false p e) = true.
Proof.
  unfold binary_round.
  destruct (shl_align p e _) as [mz ez]. now apply binary_round_aux_nonneg.
Qed.

Lemma binary_round_pos p e :
  SpecFloat.emin prec emax <= e -> pos (binary_round prec emax false p e) = true.
Proof.
  intros He. unfold binary_round, shl_align.
  pose proof (fexp_ge_emin (Zpos (digits2_pos p) + e)) as Hf.
  destruct (SpecFloat.fexp prec emax (Zpos (digits2_pos p) + e) - e) as [| n | n];
    apply binary_round_aux_pos; lia.
Qed.

Lemma binary_round_minus p e :
  SFltb (S754_zero false) (binary_round prec emax true p e) = false.
Proof.
  unfold binary_round.
  destruct (shl_align p e _) as [mz ez]. apply binary_round_aux_minus.
Qed.

Lemma binary_normalize_nonneg m e :
  0 <= m -> nonneg (binary_normalize prec emax m e false) = true.
Proof.
  intros Hm. destruct m as [| p | p]; [reflexivity | | lia].
  apply binary_round_nonneg.
Qed.

Lemma SFldexp_nonneg x e :
  nonneg x = true -> nonneg (SFldexp prec emax x e) = true.
Proof.
  destruct x as [[] | [] | | [] m ex]; simpl; try congruence.
  intros _. apply binary_round_nonneg.
Qed.

(** Products and quotients by a finite number above zero. *)
Lemma SFmul_nonneg x m e :
  nonneg x = true ->
  nonneg (SFmul prec emax x (S754_finite false m e)) = true.
Proof.
  destruct x as [[] | [] | | [] mx ex]; simpl; try congruence.
  intros _. apply binary_round_aux_nonneg. lia.
Qed.

Lemma SFdiv_nonneg x m e :
  nonneg x = true ->
  nonneg (SFdiv prec emax x (S754_finite false m e)) = true.
Proof.
  destruct x as [[] | [] | | [] mx ex]; cbn [SFdiv nonneg xorb]; try congruence.
  intros _. unfold SFdiv_core_binary.
  set (s := ex - e - _).
  set (m1 := match s with Z0 => Zpos mx | Zpos _ => Z.shiftl (Zpos mx) s | Zneg _ => 0 end).
  assert (Hm1 : 0 <= m1).
  { unfold m1. destruct s; try lia. apply Z.shiftl_nonneg. lia. }
  pose proof (Z.div_pos m1 (Zpos m) Hm1 ltac:(lia)) as Hq.
  unfold Z.div in Hq.
  destruct (Z.div_eucl m1 (Zpos m)) as [q r].
  now apply binary_round_aux_nonneg.
Qed.

Lemma shl_align_fst m e ez :
  ez <= e -> Zpos (fst (shl_align m e ez)) = Zpos m * 2 ^ (e - ez).
Proof.
  intros H. unfold shl_align.
  destruct (ez - e) as [| d | d] eqn:Hd; cbn [fst].
  - replace (e - ez) with 0 by lia. rewrite Z.pow_0_r. lia.
  - lia.
  - rewrite iter_xO_mul. do 2 f_equal. lia.
Qed.

Lemma canonical_exponent m e :
  canonical_mantissa prec emax m e = true ->
  SpecFloat.emin prec emax <= e /\
  Zpos (digits2_pos m) <= prec /\
  (SpecFloat.emin prec emax < e -> Zpos (digits2_pos m) = prec).
Proof.
  unfold canonical_mantissa, SpecFloat.fexp. intros H. apply Z.eqb_eq in H. lia.
Qed.

(** Canonical numbers are ordered by their exponents first. *)
Lemma canonical_lt m1 e1 m2 e2 :
  canonical_mantissa prec emax m1 e1 = true ->
  canonical_mantissa prec emax m2 e2 = true ->
  e1 < e2 ->
  Zpos m1 < Zpos m2 * 2 ^ (e2 - e1).
Proof.
  intros H1 H2 Hlt.
  apply canonical_exponent in H1. apply canonical_exponent in H2.
  destruct H1 as [Hmin1 [Hd1 _]]. destruct H2 as [_ [_ Hd2]].
  specialize (Hd2 ltac:(lia)).
  pose proof (digits2_pos_bounds m1) as [_ Hhi1].
  pose proof (digits2_pos_bounds m2) as [Hlo2 _].
  rewrite Hd2 in Hlo2.
  assert (Hp : 2 ^ Zpos (digits2_pos m1) <= 2 ^ prec)
    by (apply Z.pow_le_mono_r; lia).
  assert (Hs : 2 ^ prec = 2 * 2 ^ (prec - 1)).
  { replace prec with (Z.succ (prec - 1)) at 1 by lia.
    apply Z.pow_succ_r. lia. }
  assert (Hk : 2 ^ 1 <= 2 ^ (e2 - e1)) by (apply Z.pow_le_mono_r; lia).
  change (2 ^ 1) with 2 in Hk.
  set (a := 2 ^ Zpos (digits2_pos m1)) in *.
  set (b := 2 ^ (prec - 1)) in *.
  set (c := 2 ^ (e2 - e1)) in *.
  set (d := 2 ^ prec) in *.
  clearbody a b c d. nia.
Qed.

(** For two numbers above zero, the difference [x - y] is above zero
    exactly when [y < x]: a difference of distinct numbers is never
    rounded to zero. *)
Lemma SFsub_sign x y :
  pos x = true -> pos y = true ->
  SpecFloat.valid_binary prec emax x = true ->
  SpecFloat.valid_binary prec emax y = true ->
  SFltb (S754_zero false) (SFsub prec emax x y) = SFltb y x.
Proof.
  intros Hx Hy Hvx Hvy.
  destruct x as [[] | [] | | [] mx ex]; try discriminate Hx;
    destruct y as [[] | [] | | [] my ey]; try discriminate Hy;
    try reflexivity.
  cbn [SpecFloat.valid_binary] in Hvx, Hvy. unfold bounded in Hvx, Hvy.
  apply andb_prop in Hvx as [Hcx _]. apply andb_prop in Hvy as [Hcy _].
  pose proof (canonical_exponent _ _ Hcx) as [Hex _].
  pose proof (canonical_exponent _ _ Hcy) as [Hey _].
  unfold SFsub, cond_Zopp, SFltb at 2, SFcompare.
  pose proof (shl_align_fst mx ex (Z.min ex ey) ltac:(lia)) as HX.
  pose proof (shl_align_fst my ey (Z.min ex ey) ltac:(lia)) as HY.
  assert (Hmin : SpecFloat.emin prec emax <= Z.min ex ey) by lia.
  set (X := Zpos (fst (shl_align mx ex (Z.min ex ey)))) in *.
  set (Y := Zpos (fst (shl_align my ey (Z.min ex ey)))) in *.
  assert (Hsign : forall D, D = X - Y ->
            SFltb (S754_zero false)
              (binary_normalize prec emax D (Z.min ex ey) false) = (0 <? D)).
  { intros D _. destruct D as [| d | d]; cbn [binary_normalize].
    - reflexivity.
    - rewrite SFltb_zero_pos; [reflexivity | now apply binary_round_pos].
    - now rewrite binary_round_minus. }
  rewrite (Hsign _ eq_refl). clear Hsign.
  destruct (Z.compare_spec ey ex) as [Heq | Hlt | Hgt].
  - subst ey. rewrite Z.min_id, Z.sub_diag, Z.pow_0_r in HX, HY.
    change (Pos.compare_cont Eq my mx) with (Pos.compare my mx).
    destruct (Pos.compare_spec my mx) as [He | Hl | Hg].
    + subst my. apply Z.ltb_ge. lia.
    + apply Z.ltb_lt. lia.
    + apply Z.ltb_ge. lia.
  - apply Z.ltb_lt.
    pose proof (canonical_lt _ _ _ _ Hcy Hcx Hlt) as Hc.
    replace (Z.min ex ey) with ey in HX, HY by lia.
    rewrite Z.sub_diag, Z.pow_0_r in HY. lia.
  - apply Z.ltb_ge.
    pose proof (canonical_lt _ _ _ _ Hcx Hcy Hgt) as Hc.
    replace (Z.min ex ey) with ex in HX, HY by lia.
    rewrite Z.sub_diag, Z.pow_0_r in HX. lia.
Qed.

End Rounding.

(** *** The order of the numbers above zero *)

Lemma SFltb_finite m1 e1 m2 e2 :
  SFltb (S754_finite false m1 e1) (S754_finite false m2 e2) = true <->
  e1 < e2 \/ (e1 = e2 /\ Zpos m1 < Zpos m2).
Proof.
  unfold SFltb, SFcompare.
  change (Pos.compare_cont Eq m1 m2) with (Pos.compare m1 m2).
  destruct (Z.compare_spec e1 e2); destruct (Pos.compare_spec m1 m2);
    split; intros K; try discriminate K; try reflexivity; lia.
Qed.

Lemma SFleb_finite m1 e1 m2 e2 :
  SFleb (S754_finite false m1 e1) (S754_finite false m2 e2) = true <->
  e1 < e2 \/ (e1 = e2 /\ Zpos m1 <= Zpos m2).
Proof.
  unfold SFleb, SFcompare.
  change (Pos.compare_cont Eq m1 m2) with (Pos.compare m1 m2).
  destruct (Z.compare_spec e1 e2); destruct (Pos.compare_spec m1 m2);
    split; intros K; try discriminate K; try reflexivity; lia.
Qed.

Lemma SFeqb_finite m1 e1 m2 e2 :
  SFeqb (S754_finite false m1 e1) (S754_finite false m2 e2) = true <->
  e1 = e2 /\ Zpos m1 = Zpos m2.
Proof.
  unfold SFeqb, SFcompare.
  change (Pos.compare_cont Eq m1 m2) with (Pos.compare m1 m2).
  destruct (Z.compare_spec e1 e2); destruct (Pos.compare_spec m1 m2);
    split; intros K; try discriminate K; try reflexivity; lia.
Qed.

Lemma SFltb_SFleb x y : SFltb x y = true -> SFleb x y = true.
Proof.
  unfold SFltb, SFleb. destruct (SFcompare x y) as [[] |]; congruence.
Qed.

Lemma SFleb_total x y :
  pos x = true -> pos y = true -> SFltb x y = false -> SFleb y x = true.
Proof.
  intros Hx Hy.
  destruct x as [[] | [] | | [] mx ex]; try discriminate Hx;
    destruct y as [[] | [] | | [] my ey]; try discriminate Hy;
    intros H; try reflexivity; try discriminate H.
  apply SFleb_finite.
  destruct (SFltb (S754_finite false mx ex) (S754_finite false my ey)) eqn:E;
    [discriminate |].
  assert (Hn : ~ (ex < ey \/ ex = ey /\ Zpos mx < Zpos my)).
  { intros C. apply SFltb_finite in C. congruence. }
  lia.
Qed.

Lemma SFleb_trans x y z :
  pos x = true -> pos y = true -> pos z = true ->
  SFleb x y = true -> SFleb y z = true -> SFleb x z = true.
Proof.
  intros Hx Hy Hz.
  destruct x as [[] | [] | | [] mx ex]; try discriminate Hx;
    destruct y as [[] | [] | | [] my ey]; try discriminate Hy;
    destruct z as [[] | [] | | [] mz ez]; try discriminate Hz;
    intros H1 H2; try reflexivity; try discriminate H1; try discriminate H2.
  apply SFleb_finite. apply SFleb_finite in H1. apply SFleb_finite in H2. lia.
Qed.

(** Two numbers above zero that equal a third are not one below the other. *)
Lemma SFeqb_not_SFltb x y v :
  pos x = true -> pos y = true ->
  SFeqb x v = true -> SFeqb y v = true -> SFltb x y = false.
Proof.
  intros Hx Hy.
  destruct x as [[] | [] | | [] mx ex]; try discriminate Hx;
    destruct y as [[] | [] | | [] my ey]; try discriminate Hy;
    destruct v as [[] | [] | | [] mv ev];
    intros H1 H2; try reflexivity; try discriminate H1; try discriminate H2.
  apply SFeqb_finite in H1. apply SFeqb_finite in H2.
  destruct (SFltb (S754_finite false mx ex) (S754_finite false my ey)) eqn:E;
    [| reflexivity].
  apply SFltb_finite in E. lia.
Qed.

End SpecFacts.

(** ** The same facts on [float] *)

Module Float64.
Import FloatShape SpecFacts.

Local Open Scope float_scope.

Lemma prec_pos : (0 < prec)%Z.
Proof. reflexivity. Qed.

Lemma Prim2SF_zero : Prim2SF 0 = S754_zero false.
Proof. reflexivity. Qed.

Lemma is_nonneg_leb a : is_nonneg a -> (0 <=? a) = true.
Proof.
  intros H. rewrite leb_spec, Prim2SF_zero. now apply SFleb_zero_nonneg.
Qed.

Lemma ltb_zero_pos a : (0 <? a) = true <-> pos (Prim2SF a) = true.
Proof.
  rewrite ltb_spec, Prim2SF_zero.
  split; [apply pos_SFltb_zero | apply SFltb_zero_pos].
Qed.

(** For [a] and [b] above zero, [b - a > 0] is [a < b]. *)
Lemma sub_above_zero a b :
  (0 <? a) = true -> (0 <? b) = true -> (0 <? b - a) = (a <? b).
Proof.
  intros Ha Hb. apply ltb_zero_pos in Ha. apply ltb_zero_pos in Hb.
  rewrite !ltb_spec, sub_spec, Prim2SF_zero.
  apply (SFsub_sign prec emax prec_pos); auto using Prim2SF_valid.
Qed.

Lemma ltb_leb a b : (a <? b) = true -> (a <=? b) = true.
Proof. rewrite ltb_spec, leb_spec. apply SFltb_SFleb. Qed.

Lemma leb_total a b :
  (0 <? a) = true -> (0 <? b) = true -> (a <? b) = false -> (b <=? a) = true.
Proof.
  intros Ha Hb. apply ltb_zero_pos in Ha. apply ltb_zero_pos in Hb.
  rewrite ltb_spec, leb_spec. now apply SFleb_total.
Qed.

Lemma leb_trans a b c :
  (0 <? a) = true -> (0 <? b) = true -> (0 <? c) = true ->
  (a <=? b) = true -> (b <=? c) = true -> (a <=? c) = true.
Proof.
  intros Ha Hb Hc. apply ltb_zero_pos in Ha. apply ltb_zero_pos in Hb.
  apply ltb_zero_pos in Hc. rewrite !leb_spec. now apply SFleb_trans.
Qed.

Lemma eqb_not_ltb a b v :
  (0 <? a) = true -> (0 <? b) = true ->
  (a =? v) = true -> (b =? v) = true -> (a <? b) = false.
Proof.
  intros Ha Hb. apply ltb_zero_pos in Ha. apply ltb_zero_pos in Hb.
  rewrite !eqb_spec, ltb_spec. now apply SFeqb_not_SFltb.
Qed.

Lemma zero_is_nonneg : is_nonneg 0.
Proof. reflexivity. Qed.

Lemma SF2Prim_is_nonneg x : nonneg x = true -> is_nonneg (SF2Prim x).
Proof.
  unfold is_nonneg.
  destruct x as [[] | [] | | [] m e]; intros H; try discriminate H;
    try reflexivity.
  unfold SF2Prim. rewrite Z_ldexp_spec. apply SFldexp_nonneg.
  rewrite of_uint63_spec. apply binary_normalize_nonneg.
  apply Uint63.to_Z_bounded.
Qed.

Lemma mul_is_nonneg a c m e :
  Prim2SF c = S754_finite false m e -> is_nonneg a -> is_nonneg (a * c).
Proof.
  unfold is_nonneg. intros Hc Ha. rewrite mul_spec, Hc. now apply SFmul_nonneg.
Qed.

Lemma div_is_nonneg a c m e :
  Prim2SF c = S754_finite false m e -> is_nonneg a -> is_nonneg (a / c).
Proof.
  unfold is_nonneg. intros Hc Ha. rewrite div_spec, Hc. now apply SFdiv_nonneg.
Qed.

End Float64.

(** ** Facts about the chart data *)

Module ChartFacts.
Import JsStringFacts Utf16.
Import JsString Chart ChartSpec FloatShape SpecFacts Float64.

Local Open Scope float_scope.

(** *** Sorting by a key, largest first *)

Section SortByKey.

Context {A : Type}.
Variable key : A -> float.

Let comparefn (a b : A) : float := key b - key a.

Lemma insert_permutation x l : Permutation (insert comparefn x l) (x :: l).
Proof.
  induction l as [| y l IH]; simpl; [apply Permutation_refl |].
  destruct (0 <? comparefn x y).
  - eapply Permutation_trans; [apply perm_skip, IH | apply perm_swap].
  - apply Permutation_refl.
Qed.

Lemma sort_permutation l : Permutation (sort comparefn l) l.
Proof.
  induction l as [| x l IH]; simpl; [constructor |].
  eapply Permutation_trans; [apply insert_permutation | now apply perm_skip].
Qed.

Lemma insert_sorted x l :
  above_zero key x -> Forall (above_zero key) l ->
  StronglySorted (descending key) l ->
  StronglySorted (descending key) (insert comparefn x l).
Proof.
  intros Hx Hl Hs. induction l as [| y l IH]; simpl.
  - repeat constructor.
  - inversion Hl as [| ? ? Hy Hl']; subst.
    inversion Hs as [| ? ? Hs' Hall]; subst.
    unfold comparefn at 1. rewrite (sub_above_zero (key x) (key y) Hx Hy).
    destruct (key x <? key y) eqn:Hlt.
    + constructor; [now apply IH |].
      eapply Permutation_Forall;
        [apply Permutation_sym, insert_permutation |].
      constructor; [| exact Hall].
      unfold descending. now apply ltb_leb.
    + constructor; [exact Hs |].
      assert (Hyx : descending key x y) by (now apply leb_total).
      constructor; [exact Hyx |].
      rewrite Forall_forall in Hall, Hl' |- *. intros z Hz.
      unfold descending in *.
      apply leb_trans with (b := key y); auto.
      now apply Hl'.
Qed.

Lemma sort_sorted l :
  Forall (above_zero key) l -> StronglySorted (descending key) (sort comparefn l).
Proof.
  induction l as [| x l IH]; intros Hl; simpl; [constructor |].
  inversion Hl as [| ? ? Hx Hl']; subst.
  apply insert_sorted; auto.
  eapply Permutation_Forall; [apply Permutation_sym, sort_permutation | exact Hl'].
Qed.

(** Stability: the elements of one key keep their order. *)
Lemma insert_stable v x l :
  above_zero key x -> Forall (above_zero key) l ->
  filter (fun a => key a =? v) (insert comparefn x l) =
  filter (fun a => key a =? v) (x :: l).
Proof.
  intros Hx Hl. induction l as [| y l IH]; [reflexivity |].
  inversion Hl as [| ? ? Hy Hl']; subst.
  cbn [insert]. unfold comparefn at 1.
  rewrite (sub_above_zero (key x) (key y) Hx Hy).
  destruct (key x <? key y) eqn:Hlt; [| reflexivity].
  cbn [filter]. rewrite (IH Hl'). cbn [filter].
  destruct (key x =? v) eqn:Ex; destruct (key y =? v) eqn:Ey; try reflexivity.
  rewrite (eqb_not_ltb _ _ v Hx Hy Ex Ey) in Hlt. discriminate.
Qed.

Lemma sort_stable v l :
  Forall (above_zero key) l ->
  filter (fun a => key a =? v) (sort comparefn l) =
  filter (fun a => key a =? v) l.
Proof.
  induction l as [| x l IH]; intros Hl; [reflexivity |].
  inversion Hl as [| ? ? Hx Hl']; subst. cbn [sort].
  rewrite insert_stable; auto.
  - cbn [filter]. now rewrite (IH Hl').
  - eapply Permutation_Forall; [apply Permutation_sym, sort_permutation | exact Hl'].
Qed.

End SortByKey.

Lemma above_zero_not_leb a : (0 <? a) = true -> (a <=? 0) = false.
Proof.
  intros H. apply ltb_zero_pos in H. rewrite leb_spec, Prim2SF_zero.
  destruct (Prim2SF a) as [[] | [] | | [] m e]; try discriminate H; reflexivity.
Qed.

Lemma kept_above_zero suggestions : Forall (above_zero hoursSaved) (kept suggestions).
Proof.
  apply Forall_forall. intros r Hr. apply filter_In in Hr. apply Hr.
Qed.

(** C4. For every sequence of suggestions, let [records] be the records
    [{area, hoursSaved}] of the suggestions, one for each, in their order,
    where [hoursSaved] is the weekly hours parsed from the [benefit]. The
    chart data has no record with [hoursSaved <= 0]; it is a rearrangement
    of the records with [hoursSaved > 0]; it is sorted by [hoursSaved],
    largest first; records of equal [hoursSaved] keep their order; and it
    is empty for an empty (or null) input. *)
Theorem chartData_filtered_sorted_stable
    (suggestions : list Gemini.AutomationSuggestion) :
  let records :=
    map (fun s => mkChartData (Gemini.area s)
                    (parseBenefitToWeeklyHours (Gemini.benefit s)))
      suggestions in
  let positive := filter (fun r => 0 <? hoursSaved r) records in
  (forall r, In r (chartData (Some suggestions)) ->
     (exists s, In s suggestions /\
        r = mkChartData (Gemini.area s)
              (parseBenefitToWeeklyHours (Gemini.benefit s))) /\
     (0 <? hoursSaved r) = true /\ (hoursSaved r <=? 0) = false) /\
  Permutation (chartData (Some suggestions)) positive /\
  StronglySorted (fun a b => (hoursSaved b <=? hoursSaved a) = true)
    (chartData (Some suggestions)) /\
  (forall v,
     filter (fun r => hoursSaved r =? v) (chartData (Some suggestions)) =
     filter (fun r => hoursSaved r =? v) positive) /\
  chartData (Some []) = [] /\
  chartData None = [].
Proof.
  intros records positive.
  pose proof (kept_above_zero suggestions) as Hk.
  assert (Hp : Permutation (chartData (Some suggestions)) (kept suggestions))
    by apply sort_permutation.
  split; [| split; [exact Hp | split; [| split; [| split; reflexivity]]]].
  - intros r Hr.
    apply (Permutation_in _ Hp) in Hr. unfold kept in Hr.
    apply filter_In in Hr. destruct Hr as [Hin Hpos].
    apply in_map_iff in Hin. destruct Hin as [s [<- Hs]].
    split; [now exists s |]. split; [exact Hpos |].
    now apply above_zero_not_leb.
  - apply (sort_sorted hoursSaved). exact Hk.
  - intros v. apply (sort_stable hoursSaved). exact Hk.
Qed.

(** Five suggestions: three of 10 hours a week keep their order, the one
    without a number is dropped, and each record has the area of its
    suggestion. *)
Lemma chartData_filtered_sorted_stable_witness :
  chartData
    (Some [Gemini.mkSuggestion "Morning report" "Python" "Saves 2 hours per day" [];
           Gemini.mkSuggestion "Code review" "Linter" "Fewer mistakes" [];
           Gemini.mkSuggestion "Inbox triage" "Filters" "Saves 30 minutes daily" [];
           Gemini.mkSuggestion "Backups" "Cron" "Saves 10 hours weekly" [];
           Gemini.mkSuggestion "Invoices" "Zapier" "Saves 600 min per week" []]) =
  [mkChartData "Morning report" 10; mkChartData "Backups" 10;
   mkChartData "Invoices" 10; mkChartData "Inbox triage" 2.5] /\
  filter (fun r => hoursSaved r =? 10)
    [mkChartData "Morning report" 10; mkChartData "Backups" 10;
     mkChartData "Invoices" 10; mkChartData "Inbox triage" 2.5] =
  filter (fun r => hoursSaved r =? 10)
    [mkChartData "Morning report" 10; mkChartData "Inbox triage" 2.5;
     mkChartData "Backups" 10; mkChartData "Invoices" 10].
Proof.
  split; [reflexivity |].
  exact (proj1 (proj2 (proj2 (proj2
    (chartData_filtered_sorted_stable
       [Gemini.mkSuggestion "Morning report" "Python" "Saves 2 hours per day" [];
        Gemini.mkSuggestion "Code review" "Linter" "Fewer mistakes" [];
        Gemini.mkSuggestion "Inbox triage" "Filters" "Saves 30 minutes daily" [];
        Gemini.mkSuggestion "Backups" "Cron" "Saves 10 hours weekly" [];
        Gemini.mkSuggestion "Invoices" "Zapier" "Saves 600 min per week" []]))))
    10).
Defined.

(** [parseFloat] rounds to the nearest number, ties to even. *)
Example parseFloat_samples :
  parseFloat "0.1" = 0x1.999999999999ap-4 /\
  parseFloat "2.5" = 2.5 /\
  parseFloat "9007199254740993" = 9007199254740992 /\
  match_number "v1.2.3 saves 4 hours" = Some "1.2" /\
  match_number "about 12. 5 minutes" = Some "12".
Proof. repeat split; reflexivity. Qed.

(** *** Letter case *)

Lemma prefix_toLowerCase k : forall s,
  String.prefix k s = true ->
  String.prefix (toLowerCase k) (toLowerCase s) = true.
Proof.
  induction k as [| a k IH]; intros s; [now destruct s |].
  destruct s as [| b s]; [discriminate |]. cbn [String.prefix toLowerCase].
  destruct (Ascii.ascii_dec a b) as [-> | Hne]; [| discriminate].
  intros H. destruct (Ascii.ascii_dec (lowerChar b) (lowerChar b)); [| congruence].
  now apply IH.
Qed.

(** A word in small letters that a text contains is contained in the
    lower-cased text. *)
Lemma includes_toLowerCase s k :
  includes s k = true -> toLowerCase k = k ->
  includes (toLowerCase s) k = true.
Proof.
  intros H Hk. rewrite <- Hk. clear Hk.
  induction s as [| c t IH]; cbn [includes toLowerCase] in *.
  - apply orb_true_iff in H as [H | H]; [| discriminate].
    apply prefix_toLowerCase in H. cbn [toLowerCase] in H. now rewrite H.
  - apply orb_true_iff in H as [H | H].
    + apply prefix_toLowerCase in H. cbn [toLowerCase] in H. now rewrite H.
    + rewrite (IH H). apply orb_true_r.
Qed.

(** *** The number the pattern matches *)

Lemma digits_all s : all_digits (fst (digits s)) = true.
Proof.
  induction s as [| c t IH]; simpl; [reflexivity |].
  destruct (isDigit c) eqn:Hc; [| reflexivity].
  destruct (digits t) as [d rest]. simpl in *. now rewrite Hc.
Qed.

Lemma fraction_all s : all_digits (fraction s) = true.
Proof.
  destruct s as [| c t]; [reflexivity |]. unfold fraction.
  destruct (Ascii.ascii_dec c ".") as [-> | Hne].
  - apply digits_all.
  - destruct c as [[] [] [] [] [] [] [] []]; try reflexivity. now elim Hne.
Qed.

Lemma all_digits_app a b :
  all_digits (a ++ b) = all_digits a && all_digits b.
Proof.
  induction a as [| c a IH]; simpl; [reflexivity |].
  now rewrite IH, andb_assoc.
Qed.

Lemma decimal_nonneg s : forall acc,
  all_digits s = true -> (0 <= acc)%Z -> (0 <= decimal acc s)%Z.
Proof.
  induction s as [| c t IH]; intros acc Hs Hacc; cbn [decimal]; [exact Hacc |].
  cbn [all_digits] in Hs. apply andb_prop in Hs as [Hc Ht].
  apply IH; [exact Ht |].
  unfold isDigit in Hc. apply andb_prop in Hc as [Hlo _].
  apply Nat.leb_le in Hlo. unfold digit_value.
  set (k := nat_of_ascii c) in *. clearbody k. lia.
Qed.

Lemma match_here_digit s m :
  match_here s = Some m -> exists c t, m = String c t /\ isDigit c = true.
Proof.
  unfold match_here. pose proof (digits_all s) as Hall.
  destruct (digits s) as [int rest]. cbn [fst] in Hall.
  destruct int as [| c d]; [discriminate |].
  simpl in Hall. apply andb_prop in Hall as [Hc _].
  destruct (fraction rest); intros [= <-]; eauto.
Qed.

Lemma match_number_digit s : forall m,
  match_number s = Some m -> exists c t, m = String c t /\ isDigit c = true.
Proof.
  induction s as [| c t IH]; intros m; cbn [match_number].
  - discriminate.
  - destruct (match_here (String c t)) eqn:E.
    + intros [= <-]. now apply match_here_digit in E.
    + apply IH.
Qed.

Lemma match_here_none c t :
  match_here (String c t) = None <-> isDigit c = false.
Proof.
  unfold match_here. simpl. destruct (isDigit c).
  - destruct (digits t) as [d rest]. destruct (fraction rest); split; discriminate.
  - split; reflexivity.
Qed.

(** The pattern has no match exactly when the text has no digit. *)
Lemma match_number_none s : match_number s = None <-> has_digit s = false.
Proof.
  induction s as [| c t IH].
  - split; reflexivity.
  - cbn [match_number has_digit].
    destruct (match_here (String c t)) eqn:E.
    + split; [discriminate |]. intros H. apply orb_false_elim in H as [Hc _].
      apply (proj2 (match_here_none c t)) in Hc. congruence.
    + apply (proj1 (match_here_none c t)) in E. rewrite E. exact IH.
Qed.

Lemma nearest_nonneg n d :
  (0 <= n)%Z -> (0 < d)%Z -> nonneg (nearest n d) = true.
Proof.
  intros Hn Hd. destruct n as [| p | p]; destruct d as [| q | q]; try lia.
  - reflexivity.
  - unfold nearest. now apply SFdiv_nonneg.
Qed.

Lemma parseFloat_is_nonneg c t :
  isDigit c = true -> is_nonneg (parseFloat (String c t)).
Proof.
  intros Hc. unfold parseFloat.
  pose proof (digits_all (String c t)) as Hall.
  assert (Hint : fst (digits (String c t)) <> "").
  { simpl. rewrite Hc. destruct (digits t). discriminate. }
  destruct (digits (String c t)) as [int rest]. cbn [fst] in Hall, Hint.
  destruct int as [| c' d]; [congruence |].
  apply SF2Prim_is_nonneg. apply nearest_nonneg.
  - apply decimal_nonneg; [| lia].
    rewrite all_digits_app, Hall. apply fraction_all.
  - apply Z.pow_pos_nonneg; lia.
Qed.

Lemma parse_is_nonneg benefit : is_nonneg (parseBenefitToWeeklyHours benefit).
Proof.
  unfold parseBenefitToWeeklyHours.
  destruct (match_number benefit) as [number |] eqn:Hm; [| apply zero_is_nonneg].
  apply match_number_digit in Hm. destruct Hm as [c [t [-> Hc]]].
  pose proof (parseFloat_is_nonneg c t Hc) as Hv.
  assert (H5 : forall a, is_nonneg a -> is_nonneg (a * 5))
    by (intro a; eapply mul_is_nonneg; reflexivity).
  assert (H4 : forall a, is_nonneg a -> is_nonneg (a / 4))
    by (intro a; eapply div_is_nonneg; reflexivity).
  assert (H60 : forall a, is_nonneg a -> is_nonneg (a / 60))
    by (intro a; eapply div_is_nonneg; reflexivity).
  repeat match goal with
         | |- context [if ?b then _ else _] => destruct b
         end; auto using zero_is_nonneg.
Qed.

(** *** The pattern and the words, as the specification reads them *)

Lemma isDigit_is_digit c : isDigit c = is_digit c.
Proof. destruct c as [[] [] [] [] [] [] [] []]; reflexivity. Qed.

Lemma digit_value_digit c : is_digit c = true -> digit c = Some (digit_value c).
Proof.
  destruct c as [[] [] [] [] [] [] [] []]; intros H;
    try discriminate H; reflexivity.
Qed.

Lemma all_digits_only s : all_digits s = digits_only s.
Proof.
  induction s as [| c t IH]; [reflexivity |]. cbn [all_digits digits_only].
  now rewrite isDigit_is_digit, IH.
Qed.

Lemma has_digit_free s : has_digit s = negb (digit_free s).
Proof.
  induction s as [| c t IH]; [reflexivity |]. cbn [has_digit digit_free].
  rewrite isDigit_is_digit, IH. now destruct (is_digit c).
Qed.

Lemma digits_app int : forall rest,
  digits_only int = true -> starts_with_digit rest = false ->
  digits (int ++ rest) = (int, rest).
Proof.
  induction int as [| c int IH]; intros rest Hint Hrest.
  - destruct rest as [| c t]; [reflexivity |]. cbn [append digits].
    cbn [starts_with_digit] in Hrest. now rewrite isDigit_is_digit, Hrest.
  - cbn [digits_only] in Hint. apply andb_prop in Hint as [Hc Hint].
    cbn [append digits]. rewrite isDigit_is_digit, Hc.
    now rewrite (IH rest Hint Hrest).
Qed.

Lemma digits_rest s : starts_with_digit (snd (digits s)) = false.
Proof.
  induction s as [| c t IH]; [reflexivity |]. cbn [digits].
  destruct (isDigit c) eqn:Hc.
  - destruct (digits t) as [d rest]. exact IH.
  - cbn [snd starts_with_digit]. now rewrite <- isDigit_is_digit.
Qed.

Lemma natural_nonneg s : (0 <= natural s)%Z.
Proof.
  induction s as [| c t IH]; cbn [natural]; [lia |].
  assert (0 <= match digit c with Some d => d | None => 0 end)%Z
    by (destruct c as [[] [] [] [] [] [] [] []]; cbn; lia).
  assert (0 <= 10 ^ Z.of_nat (String.length t))%Z by (apply Z.pow_nonneg; lia).
  nia.
Qed.

Lemma decimal_natural s : forall acc,
  digits_only s = true ->
  decimal acc s = (acc * 10 ^ Z.of_nat (String.length s) + natural s)%Z.
Proof.
  induction s as [| c t IH]; intros acc Hs; cbn [decimal natural String.length].
  - cbn. lia.
  - cbn [digits_only] in Hs. apply andb_prop in Hs as [Hc Ht].
    rewrite (IH _ Ht), (digit_value_digit c Hc).
    rewrite Nat2Z.inj_succ, Z.pow_succ_r by lia. ring.
Qed.

Lemma match_number_here s m : match_here s = Some m -> match_number s = Some m.
Proof. intros H. destruct s; cbn [match_number]; now rewrite H. Qed.

Lemma match_number_pre pre : forall rest,
  digit_free pre = true -> match_number (pre ++ rest) = match_number rest.
Proof.
  induction pre as [| c pre IH]; intros rest Hpre; [reflexivity |].
  cbn [digit_free] in Hpre. apply andb_prop in Hpre as [Hc Hpre].
  cbn [append match_number].
  replace (match_here (String c (pre ++ rest))) with (@None string).
  - now apply IH.
  - symmetry. apply match_here_none. rewrite isDigit_is_digit.
    now destruct (is_digit c).
Qed.

Lemma fraction_numeral frac post :
  digits_only frac = true -> starts_with_digit post = false ->
  fraction ("." ++ frac ++ post) = frac.
Proof.
  intros Hf Hp. cbn [append fraction]. now rewrite (digits_app frac post Hf Hp).
Qed.

Lemma fraction_none post : starts_with_fraction post = false -> fraction post = "".
Proof.
  destruct post as [| c t]; [reflexivity |].
  destruct (Ascii.ascii_dec c ".") as [-> | Hne].
  - cbn [starts_with_fraction fraction]. destruct t as [| d t]; [reflexivity |].
    cbn [starts_with_digit digits]. rewrite isDigit_is_digit. now intros ->.
  - intros _. destruct c as [[] [] [] [] [] [] [] []]; try reflexivity. now elim Hne.
Qed.

(** The first number of a text is what the pattern matches. *)
Lemma first_number_match text pre int frac post :
  first_number text pre int frac post ->
  match_number text = Some (numeral int frac).
Proof.
  intros [-> [Hpre [Hne [Hint [Hfrac [Hpost Hmax]]]]]].
  rewrite (match_number_pre pre _ Hpre). apply match_number_here.
  unfold match_here, numeral. destruct frac as [| f frac].
  - rewrite (digits_app int post Hint Hpost).
    destruct int as [| c int]; [now elim Hne |].
    now rewrite (fraction_none post (Hmax eq_refl)).
  - rewrite SummarizerFacts.append_assoc.
    change (("." ++ String f frac) ++ post) with ("." ++ String f frac ++ post).
    rewrite (digits_app int ("." ++ String f frac ++ post) Hint eq_refl).
    destruct int as [| c int]; [now elim Hne |].
    now rewrite (fraction_numeral (String f frac) post Hfrac Hpost).
Qed.

(** ... and [parseFloat] reads it as the number it writes. *)
Lemma parseFloat_numeral int frac :
  int <> "" -> digits_only int = true -> digits_only frac = true ->
  parseFloat (numeral int frac) = decimal_value int frac.
Proof.
  intros Hne Hint Hfrac.
  assert (Hall : digits_only (int ++ frac) = true).
  { rewrite <- all_digits_only, all_digits_app, !all_digits_only.
    now rewrite Hint, Hfrac. }
  assert (Hparse : parseFloat (numeral int frac) =
            SF2Prim (nearest (decimal 0 (int ++ frac))
                       (10 ^ Z.of_nat (String.length frac)))).
  { unfold parseFloat, numeral. destruct frac as [| f frac].
    - rewrite <- (SummarizerFacts.append_nil_r int) at 1.
      rewrite (digits_app int "" Hint eq_refl).
      destruct int as [| c int]; [now elim Hne | reflexivity].
    - rewrite (digits_app int ("." ++ String f frac) Hint eq_refl).
      destruct int as [| c int]; [now elim Hne |].
      assert (Hf : fraction ("." ++ String f frac) = String f frac).
      { rewrite <- (SummarizerFacts.append_nil_r (String f frac)) at 1.
        now apply fraction_numeral. }
      now rewrite Hf. }
  rewrite Hparse, (decimal_natural _ 0 Hall). unfold decimal_value. cbn [Z.mul Z.add].
  pose proof (natural_nonneg (int ++ frac)) as Hn.
  assert (Hd : (0 < 10 ^ Z.of_nat (String.length frac))%Z)
    by (apply Z.pow_pos_nonneg; lia).
  destruct (natural (int ++ frac)) as [| n | n]; [| | lia];
    destruct (10 ^ Z.of_nat (String.length frac))%Z as [| d | d]; try lia;
    reflexivity.
Qed.

Lemma ascii_of_code a b : nat_of_ascii a = nat_of_ascii b -> a = b.
Proof.
  intros H. rewrite <- (ascii_nat_embedding a), <- (ascii_nat_embedding b).
  now rewrite H.
Qed.

(** [lowerChar] gives a letter that it keeps exactly for that letter and
    its capital. *)
Lemma lowerChar_eq a w :
  lowerChar w = w -> (lowerChar a = w <-> a = w \/ a = capital w).
Proof.
  unfold lowerChar, capital.
  pose proof (nat_ascii_bounded a) as Ha. pose proof (nat_ascii_bounded w) as Hw.
  set (n := nat_of_ascii a) in *. set (m := nat_of_ascii w) in *.
  destruct ((65 <=? m)%nat && (m <=? 90)%nat) eqn:Ecw.
  { intros H. apply (f_equal nat_of_ascii) in H.
    apply andb_prop in Ecw as [E1 E2]. apply Nat.leb_le in E1, E2.
    rewrite nat_ascii_embedding in H by lia. fold m in H. lia. }
  intros _.
  assert (Hcw : ~ (65 <= m <= 90)%nat).
  { intros [H1 H2]. apply Nat.leb_le in H1, H2. now rewrite H1, H2 in Ecw. }
  destruct ((65 <=? n)%nat && (n <=? 90)%nat) eqn:Eca;
    destruct ((97 <=? m)%nat && (m <=? 122)%nat) eqn:Esw.
  - apply andb_prop in Eca as [A1 A2]. apply andb_prop in Esw as [S1 S2].
    apply Nat.leb_le in A1, A2, S1, S2. split.
    + intros Hx. right. apply ascii_of_code. fold n.
      apply (f_equal nat_of_ascii) in Hx. fold m in Hx.
      rewrite nat_ascii_embedding in * by lia. lia.
    + intros [Hx | Hx]; apply (f_equal nat_of_ascii) in Hx; fold n m in Hx.
      * lia.
      * rewrite nat_ascii_embedding in Hx by lia. apply ascii_of_code. fold m.
        rewrite nat_ascii_embedding by lia. lia.
  - apply andb_prop in Eca as [A1 A2]. apply Nat.leb_le in A1, A2.
    assert (Hsw : ~ (97 <= m <= 122)%nat).
    { intros [H1 H2]. apply Nat.leb_le in H1, H2. now rewrite H1, H2 in Esw. }
    split.
    + intros Hx. apply (f_equal nat_of_ascii) in Hx. fold m in Hx.
      rewrite nat_ascii_embedding in Hx by lia. lia.
    + intros [Hx | Hx]; apply (f_equal nat_of_ascii) in Hx; fold n m in Hx; lia.
  - apply andb_prop in Esw as [S1 S2]. apply Nat.leb_le in S1, S2.
    assert (Hca : ~ (65 <= n <= 90)%nat).
    { intros [H1 H2]. apply Nat.leb_le in H1, H2. now rewrite H1, H2 in Eca. }
    split; [now left |]. intros [Hx | Hx]; [exact Hx |].
    apply (f_equal nat_of_ascii) in Hx. fold n in Hx.
    rewrite nat_ascii_embedding in Hx by lia. lia.
  - split; [now left | now intros [Hx | Hx]].
Qed.

Lemma prefix_starts_with word : forall s,
  toLowerCase word = word ->
  String.prefix word (toLowerCase s) = starts_with word s.
Proof.
  induction word as [| w word IH]; intros s Hword; [now destruct s |].
  cbn [toLowerCase] in Hword. injection Hword as Hw Hword.
  destruct s as [| c s]; [reflexivity |].
  cbn [toLowerCase String.prefix starts_with]. rewrite <- (IH s Hword).
  pose proof (lowerChar_eq c w Hw) as Heq.
  destruct (Ascii.ascii_dec w (lowerChar c)) as [E | E].
  - symmetry in E. apply Heq in E.
    destruct E as [-> | ->]; rewrite Ascii.eqb_refl; cbn [orb andb];
      [reflexivity | now rewrite orb_true_r].
  - destruct (Ascii.eqb c w) eqn:E1.
    { apply Ascii.eqb_eq in E1. elim E. symmetry. apply Heq. now left. }
    destruct (Ascii.eqb c (capital w)) eqn:E2; [| reflexivity].
    apply Ascii.eqb_eq in E2. elim E. symmetry. apply Heq. now right.
Qed.

(** A word in small letters is in the lower-cased text exactly when the
    text contains it, letter case apart. *)
Lemma includes_mentions word s :
  toLowerCase word = word -> includes (toLowerCase s) word = mentions s word.
Proof.
  intros Hword. induction s as [| c t IH].
  - cbn [toLowerCase includes mentions].
    now rewrite <- (prefix_starts_with word "" Hword).
  - cbn [mentions]. rewrite <- IH, <- (prefix_starts_with word (String c t) Hword).
    reflexivity.
Qed.

(** C2. Let [int.frac] be the first number of a benefit text (no digit
    before it, and as long as it can be) and [n] the number it writes.
    When the text contains "hour" or "hr" (letter case apart), the result
    is [n * 5] if it contains "per day" or "daily", else [n / 4] if it
    contains "per month" or "monthly", else [n]. When it contains neither
    but contains "minute" or "min", [n] is first divided by 60 and the same
    periods apply. "Saves 3 hours" gives 3, "Saves 2 hours per day" gives
    10, "Saves 8 hours per month" gives 2, "Saves 30 minutes daily" gives
    2.5. *)
Theorem weekly_hours_by_unit_and_period benefit pre int frac post :
  first_number benefit pre int frac post ->
  let n := decimal_value int frac in
  let daily := mentions benefit "per day" || mentions benefit "daily" in
  let monthly := mentions benefit "per month" || mentions benefit "monthly" in
  (mentions benefit "hour" || mentions benefit "hr" = true ->
     parseBenefitToWeeklyHours benefit =
       if daily then n * 5 else if monthly then n / 4 else n) /\
  (mentions benefit "hour" || mentions benefit "hr" = false ->
   mentions benefit "minute" || mentions benefit "min" = true ->
     parseBenefitToWeeklyHours benefit =
       if daily then n / 60 * 5 else if monthly then n / 60 / 4 else n / 60) /\
  parseBenefitToWeeklyHours "Saves 3 hours" = 3 /\
  parseBenefitToWeeklyHours "Saves 2 hours per day" = 10 /\
  parseBenefitToWeeklyHours "Saves 8 hours per month" = 2 /\
  parseBenefitToWeeklyHours "Saves 30 minutes daily" = 2.5.
Proof.
  intros Hfirst n daily monthly.
  pose proof (first_number_match _ _ _ _ _ Hfirst) as Hm.
  destruct Hfirst as [_ [_ [Hne [Hint [Hfrac _]]]]].
  pose proof (parseFloat_numeral int frac Hne Hint Hfrac) as Hv. fold n in Hv.
  assert (Hw : forall word, toLowerCase word = word ->
            includes (toLowerCase benefit) word = mentions benefit word)
    by (intros word Hword; now apply includes_mentions).
  split; [| split; [| repeat split; reflexivity]].
  - intros Hh. unfold parseBenefitToWeeklyHours.
    rewrite Hm, Hv, !Hw by reflexivity. fold daily monthly.
    now rewrite Hh.
  - intros Hh Hmin. unfold parseBenefitToWeeklyHours.
    rewrite Hm, Hv, !Hw by reflexivity. fold daily monthly.
    now rewrite Hh, Hmin.
Qed.

(** "About 1.5 hrs daily, 3 on Fridays": the first number is 1.5, the unit
    is hours in capitals or not, the period is daily; "12. 5 MIN" reads 12
    minutes, a fifth of an hour. *)
Lemma weekly_hours_by_unit_and_period_witness :
  parseBenefitToWeeklyHours "About 1.5 HRS Daily, 3 on Fridays" = 7.5 /\
  parseBenefitToWeeklyHours "12. 5 MIN" = 0x1.999999999999ap-3.
Proof.
  split.
  - refine (proj1
      (weekly_hours_by_unit_and_period "About 1.5 HRS Daily, 3 on Fridays"
         "About " "1" "5" " HRS Daily, 3 on Fridays" _) eq_refl).
    repeat split; try reflexivity; discriminate.
  - refine (proj1 (proj2
      (weekly_hours_by_unit_and_period "12. 5 MIN" "" "12" "" ". 5 MIN" _))
      eq_refl eq_refl).
    repeat split; try reflexivity; discriminate.
Defined.

(** C6. [parseBenefitToWeeklyHours] is a total function of the text; its
    result is a number at least 0 (never NaN); it is 0 when the text has no
    digit, and 0 when the text (letter case apart) contains none of "hour",
    "hr", "minute", "min". *)
Theorem weekly_hours_total_nonneg benefit :
  (0 <=? parseBenefitToWeeklyHours benefit) = true /\
  (has_digit benefit = false -> parseBenefitToWeeklyHours benefit = 0) /\
  (includes (toLowerCase benefit) "hour" = false ->
   includes (toLowerCase benefit) "hr" = false ->
   includes (toLowerCase benefit) "minute" = false ->
   includes (toLowerCase benefit) "min" = false ->
   parseBenefitToWeeklyHours benefit = 0).
Proof.
  split; [| split].
  - apply is_nonneg_leb, parse_is_nonneg.
  - intros H. apply match_number_none in H.
    unfold parseBenefitToWeeklyHours. now rewrite H.
  - intros H1 H2 H3 H4. unfold parseBenefitToWeeklyHours.
    rewrite H1, H2, H3, H4. now destruct (match_number benefit).
Qed.

Lemma weekly_hours_total_nonneg_witness :
  parseBenefitToWeeklyHours "Cuts 40 errors, faster reviews" = 0.
Proof.
  exact (proj2 (proj2
    (weekly_hours_total_nonneg "Cuts 40 errors, faster reviews"))
    eq_refl eq_refl eq_refl eq_refl).
Defined.

(** *** Labels *)

(** C9 (as the code has it). A label of at most 20 code units is kept. A
    longer one becomes its first 20 code units with the white space
    removed at both ends, the start as well as the end, followed by "...";
    when the label does not start with white space that is the first 20
    code units with the white space at their end removed. In code units:
    for a well-formed label the result is the label, or its first 20 units
    without the white-space units at both ends, and three full stops. *)
Theorem truncateLabel_trims_both_ends label :
  ((length label <= 20)%nat -> truncateLabel label 20 = label) /\
  ((20 < length label)%nat ->
     truncateLabel label 20 =
       trimEnd (trimStart (substring 0 20 label)) ++ "...") /\
  (forall ch rest, chars label = ch :: rest -> isWhiteSpace ch = false ->
     truncateLabel label 20 = truncated_at_end label 20) /\
  (wellFormed label = true ->
     length label = List.length (codeUnits label) /\
     codeUnits (truncateLabel label 20) =
       if (List.length (codeUnits label) <=? 20)%nat then codeUnits label
       else (strip_end (strip_start (firstn 20 (codeUnits label)))
               ++ [46; 46; 46]%N)%list).
Proof.
  unfold truncateLabel, truncated_at_end. split; [| split; [| split]].
  - intros H. apply Nat.leb_le in H. now rewrite H.
  - intros H. apply Nat.leb_gt in H. now rewrite H.
  - intros ch rest Hl Hch. destruct (_ <=? _)%nat; [reflexivity |].
    unfold trim. now rewrite (trimStart_substring label 20 ch rest Hl Hch).
  - intros Hw. destruct (codeUnits_substring label 20 Hw) as [Hlen [_ [_ [Htrim _]]]].
    split; [exact Hlen |]. rewrite <- Hlen.
    destruct (length label <=? 20)%nat; [reflexivity | exact Htrim].
Qed.

(** Fifteen letters e with an acute accent are thirty bytes and fifteen
    code units: the label is kept. A no-break space at the cut is removed.
    A pair of surrogates at the cut loses its second half. An ideographic
    space and a space at the cut are removed, in code units. *)
Lemma truncateLabel_trims_both_ends_witness :
  truncateLabel (repeat (utf8 233) 15) 20 = repeat (utf8 233) 15 /\
  truncateLabel ("Automated reporting" ++ utf8 160 ++ "pipeline") 20 =
    "Automated reporting..." /\
  truncateLabel ("Automated reporting" ++ utf8 128193 ++ "pipeline") 20 =
    "Automated reporting" ++ utf8 55357 ++ "..." /\
  codeUnits
    (truncateLabel ("Inbox triage and " ++ utf8 233 ++ utf8 12288 ++ " more") 20) =
    [73; 110; 98; 111; 120; 32; 116; 114; 105; 97; 103; 101; 32; 97; 110; 100;
     32; 233; 46; 46; 46]%N.
Proof.
  split; [| split; [| split]].
  - assert (H : (length (repeat (utf8 233) 15) <= 20)%nat)
      by (apply Nat.leb_le; reflexivity).
    exact (proj1 (truncateLabel_trims_both_ends (repeat (utf8 233) 15)) H).
  - assert (H : (20 < length ("Automated reporting" ++ utf8 160 ++ "pipeline"))%nat)
      by (apply Nat.ltb_lt; reflexivity).
    exact (proj1 (proj2
      (truncateLabel_trims_both_ends
         ("Automated reporting" ++ utf8 160 ++ "pipeline"))) H).
  - assert (H : (20 < length ("Automated reporting" ++ utf8 128193 ++ "pipeline"))%nat)
      by (apply Nat.ltb_lt; reflexivity).
    exact (proj1 (proj2
      (truncateLabel_trims_both_ends
         ("Automated reporting" ++ utf8 128193 ++ "pipeline"))) H).
  - exact (proj2 (proj2 (proj2 (proj2
      (truncateLabel_trims_both_ends
         ("Inbox triage and " ++ utf8 233 ++ utf8 12288 ++ " more"))))
      eq_refl)).
Defined.

(** C9, where the specification's wording does not hold: a label of 29
    characters that starts with a space loses that space too. *)
Lemma truncateLabel_leading_space :
  truncateLabel " Automated reporting pipeline" 20 = "Automated reporting..." /\
  truncated_at_end " Automated reporting pipeline" 20 = " Automated reporting...".
Proof. split; reflexivity. Qed.

End ChartFacts.

(** ** Facts about the response adapter *)

Module GeminiFacts.
Import JsString Utf16 Gemini.

(** C5 (as the code has it). For a configured service whose model answers
    with a text: when [JSON.parse] of the trimmed text throws, the adapter
    throws the generic "Failed to get automation suggestions" error and
    returns nothing; when it parses, the adapter returns the parsed value as
    it is, whether or not that value has a [suggestions] field. The trimmed
    text is the text without the white-space code units at its two ends. *)
Theorem generateSuggestions_parse_failure_only
    (JSON_parse : string -> outcome json) this prompt generateContent t :
  isConfigured this = true ->
  ai this = Some generateContent ->
  generateContent prompt = Returned (mkResponse (Some t)) ->
  (forall e, JSON_parse (trim t) = Threw e ->
     generateSuggestions JSON_parse this prompt = Threw failed) /\
  (forall v, JSON_parse (trim t) = Returned v ->
     generateSuggestions JSON_parse this prompt = Returned v) /\
  (wellFormed t = true ->
     codeUnits (trim t) = strip_end (strip_start (codeUnits t))).
Proof.
  intros Hc Hai Hgen. unfold generateSuggestions. rewrite Hc, Hai, Hgen.
  cbn [text]. split; [| split].
  - intros e ->. reflexivity.
  - intros v ->. reflexivity.
  - apply JsStringFacts.codeUnits_trim.
Qed.

Lemma generateSuggestions_parse_failure_only_witness :
  generateSuggestions parse_empty_object (answering "Sorry, no JSON today")
    "Analyze the task" = Threw failed.
Proof.
  exact (proj1
    (generateSuggestions_parse_failure_only parse_empty_object
       (answering "Sorry, no JSON today") "Analyze the task"
       (fun _ => Returned (mkResponse (Some "Sorry, no JSON today")))
       "Sorry, no JSON today" eq_refl eq_refl eq_refl)
    (OtherError "SyntaxError" "Unexpected token") eq_refl).
Defined.

(** C5, where the specification's wording does not hold: the text [{}]
    between a no-break space, spaces and a byte order mark parses once
    trimmed, the value has no [suggestions] field, and the adapter returns
    it without an error. *)
Lemma absent_suggestions_not_signalled :
  parse_empty_object (trim (utf8 160 ++ " {} " ++ utf8 65279)) =
    Returned (JObject []) /\
  field "suggestions" (JObject []) = None /\
  generateSuggestions parse_empty_object
    (answering (utf8 160 ++ " {} " ++ utf8 65279)) "Analyze the task"
    = Returned (JObject []).
Proof. repeat split; reflexivity. Qed.

End GeminiFacts.

(** ** Facts about strings *)

Module StringFacts.
Import JsString SummarizerFacts.

Lemma prefix_iff k : forall s,
  String.prefix k s = true <-> exists post, s = k ++ post.
Proof.
  induction k as [| a k IH]; intros s.
  - split; [intros _; now exists s | intros _; now destruct s].
  - destruct s as [| b s]; cbn [String.prefix].
    + split; [discriminate | intros [post H]; discriminate H].
    + destruct (Ascii.ascii_dec a b) as [-> | Hne].
      * rewrite IH. split; intros [post H]; exists post.
        -- simpl. now rewrite H.
        -- simpl in H. now injection H.
      * split; [discriminate |]. intros [post H]. simpl in H.
        injection H as H1 _. congruence.
Qed.

(** [s.includes(k)] holds exactly when [k] is a piece of [s]. *)
Lemma includes_iff s k :
  includes s k = true <-> exists pre post, s = pre ++ k ++ post.
Proof.
  induction s as [| c t IH]; cbn [includes].
  - rewrite orb_false_r, prefix_iff. split.
    + intros [post H]. now exists "", post.
    + intros [pre [post H]]. destruct pre; [now exists post | discriminate H].
  - rewrite orb_true_iff, prefix_iff, IH. split.
    + intros [[post H] | [pre [post H]]].
      * now exists "", post.
      * exists (String c pre), post. simpl. now rewrite H.
    + intros [pre [post H]]. destruct pre as [| c' pre].
      * left. now exists post.
      * right. simpl in H. injection H as _ H. now exists pre, post.
Qed.

Lemma includes_middle pre k post : includes (pre ++ k ++ post) k = true.
Proof. apply includes_iff. now exists pre, post. Qed.

Lemma includes_trans a b c :
  includes a b = true -> includes b c = true -> includes a c = true.
Proof.
  rewrite !includes_iff. intros [p1 [q1 ->]] [p2 [q2 ->]].
  exists (p1 ++ p2), (q2 ++ q1). now rewrite !append_assoc.
Qed.

Lemma length_app a b :
  String.length (a ++ b) = String.length a + String.length b.
Proof. induction a as [| c a IH]; simpl; [reflexivity | now rewrite IH]. Qed.

End StringFacts.

(** ** More facts about the summarizer *)

Module SummarizerMore.
Import JsString Summarizer Listing Reading SummarizerFacts StringFacts.

Section Walk.

Variable keyFiles : list string.
Variable checkExtension : bool.
Variable maxDepth : Z.

Lemma visit_file_warnings name getFile path st :
  warnings (visit_file keyFiles checkExtension name getFile path st) =
  (warnings st ++
   warnings (visit_file keyFiles checkExtension name getFile path initial))%list.
Proof.
  unfold visit_file.
  destruct (isKeyFile _ _ _); [| simpl; now rewrite app_nil_r].
  destruct (isBinaryDocument _); [simpl; now rewrite app_nil_r |].
  destruct getFile as [f |]; [| reflexivity].
  destruct (size f <? size_limit)%Z; [| simpl; now rewrite app_nil_r].
  destruct (text f); simpl; [now rewrite app_nil_r | reflexivity].
Qed.

(** The warnings of a later state are those of an earlier one followed
    by the warnings of some nodes. *)
Definition warns (st st' : state) (vs : list visit) : Prop :=
  warnings st' =
    (warnings st ++ flat_map (warned keyFiles checkExtension) vs)%list.

Lemma for_await_warns (step : handle -> state -> outcome state) failure
    (children : handle -> list visit) :
  forall entries st st',
  Forall (fun e => forall st st',
            step e st = Returned st' ->
            warns st st' (filter (listed maxDepth) (children e))) entries ->
  for_await step failure entries st = Returned st' ->
  warns st st' (filter (listed maxDepth) (flat_map children entries)).
Proof.
  unfold warns.
  induction entries as [| e rest IH]; intros st st' Hall Hrun; simpl in *.
  - destruct failure; [discriminate |]. injection Hrun as <-.
    now rewrite app_nil_r.
  - inversion Hall as [| ? ? He Hrest]; subst.
    destruct (step e st) as [st1 |] eqn:Hv; [| discriminate].
    rewrite filter_app, flat_map_app, app_assoc, <- (He _ _ Hv).
    now apply IH.
Qed.

Lemma traverse_warns h : forall path depth st st',
  traverse keyFiles checkExtension maxDepth h path depth st = Returned st' ->
  warns st st' (filter (listed maxDepth) (preorder h path depth false)).
Proof.
  unfold warns.
  induction h as [name getFile | name entries failure IH] using handle_induction;
    intros path depth st st' Hrun; cbn [traverse] in Hrun;
    destruct (maxDepth <? Z.of_nat depth)%Z eqn:Hd;
    try (injection Hrun as <-; rewrite too_deep_unlisted by assumption;
         simpl; now rewrite app_nil_r);
    apply Z.ltb_ge in Hd;
    cbn [preorder filter]; unfold listed at 1;
    cbn [v_depth v_below_ignored negb];
    replace (Z.of_nat depth <=? maxDepth)%Z with true
      by (symmetry; now apply Z.leb_le);
    cbn [andb orb flat_map].
  - injection Hrun as <-. rewrite visit_file_warnings.
    unfold warned at 1. cbn [v_handle v_path warnings push_line].
    now rewrite app_nil_r.
  - unfold warned at 1. cbn [v_handle app].
    destruct (has IGNORE_DIRS name) eqn:Hig.
    + injection Hrun as <-. cbn [warnings push_line].
      replace (filter (listed maxDepth) _) with (@nil visit);
        [simpl; now rewrite app_nil_r |].
      symmetry. apply filter_none. intros v Hv.
      apply in_flat_map in Hv. destruct Hv as [e [_ Hv]].
      apply preorder_below in Hv. unfold listed. rewrite Hv.
      apply andb_false_r.
    + change (warnings st) with
        (warnings (push_line (tree_line (DirectoryHandle name entries failure) depth) st)).
      eapply (for_await_warns _ _
                (fun e => preorder e (path ++ "/" ++ handle_name e) (S depth) false));
        [| exact Hrun].
      eapply Forall_impl; [| exact IH].
      intros e He st0 st1 Hr. exact (He _ _ _ _ Hr).
Qed.

(** *** When the traversal throws *)

Lemma in_listed_child (children : handle -> list visit) entries e v :
  In e entries ->
  In v (filter (listed maxDepth) (children e)) ->
  In v (filter (listed maxDepth) (flat_map children entries)).
Proof.
  intros He Hv. apply filter_In in Hv as [Hv Hl]. apply filter_In.
  split; [| exact Hl]. apply in_flat_map. now exists e.
Qed.

Lemma for_await_threw (step : handle -> state -> outcome state) failure :
  forall entries st e,
  for_await step failure entries st = Threw e ->
  failure = Some e \/
  exists entry st0, In entry entries /\ step entry st0 = Threw e.
Proof.
  induction entries as [| x rest IH]; intros st e Hrun; simpl in Hrun.
  - destruct failure; [left; congruence | discriminate].
  - destruct (step x st) as [st1 |] eqn:Hx.
    + destruct (IH _ _ Hrun) as [H | [entry [st0 [Hin H]]]]; [now left |].
      right. exists entry, st0. split; [now right | exact H].
    + right. exists x, st. split; [now left | congruence].
Qed.

Lemma traverse_threw h : forall path depth st e,
  traverse keyFiles checkExtension maxDepth h path depth st = Threw e ->
  exists v, In v (filter (listed maxDepth) (preorder h path depth false)) /\
            iterated v (Some e).
Proof.
  induction h as [name getFile | name entries failure IH] using handle_induction;
    intros path depth st e Hrun; cbn [traverse] in Hrun;
    destruct (maxDepth <? Z.of_nat depth)%Z eqn:Hd; try discriminate.
  apply Z.ltb_ge in Hd.
  destruct (has IGNORE_DIRS name) eqn:Hig; [discriminate |].
  cbn [preorder filter]. unfold listed at 1 3.
  cbn [v_depth v_below_ignored negb].
  replace (Z.of_nat depth <=? maxDepth)%Z with true
    by (symmetry; now apply Z.leb_le).
  cbn [andb orb]. rewrite Hig.
  apply for_await_threw in Hrun.
  destruct Hrun as [-> | [entry [st0 [Hin Hthrew]]]].
  - eexists. split; [left; reflexivity |].
    exists name, entries. now split.
  - rewrite Forall_forall in IH.
    destruct (IH entry Hin _ _ _ _ Hthrew) as [v [Hv Hit]].
    exists v. split; [| exact Hit]. right.
    apply (in_listed_child
             (fun e => preorder e (path ++ "/" ++ handle_name e) (S depth) false)
             entries entry v Hin Hv).
Qed.

Lemma for_await_returned (step : handle -> state -> outcome state) failure :
  forall entries st st',
  for_await step failure entries st = Returned st' ->
  failure = None /\
  forall entry, In entry entries -> exists st0 st1, step entry st0 = Returned st1.
Proof.
  induction entries as [| x rest IH]; intros st st' Hrun; simpl in Hrun.
  - destruct failure; [discriminate |]. split; [reflexivity | intros ? []].
  - destruct (step x st) as [st1 |] eqn:Hx; [| discriminate].
    destruct (IH _ _ Hrun) as [Hf Hrest]. split; [exact Hf |].
    intros entry [<- | Hin]; [now exists st, st1 | now apply Hrest].
Qed.

Lemma traverse_returned h : forall path depth st st',
  traverse keyFiles checkExtension maxDepth h path depth st = Returned st' ->
  forall v failure,
    In v (filter (listed maxDepth) (preorder h path depth false)) ->
    iterated v failure -> failure = None.
Proof.
  induction h as [name getFile | name entries failure IH] using handle_induction;
    intros path depth st st' Hrun v fl Hv Hit; cbn [traverse] in Hrun.
  - apply filter_In in Hv as [Hv _]. simpl in Hv. destruct Hv as [<- | []].
    destruct Hit as [n [es [Hh _]]]. discriminate Hh.
  - destruct (maxDepth <? Z.of_nat depth)%Z eqn:Hd.
    + rewrite too_deep_unlisted in Hv by assumption. destruct Hv.
    + apply filter_In in Hv as [Hv Hl]. cbn [preorder] in Hv.
      destruct Hv as [<- | Hv].
      * destruct Hit as [n [es [Hh Hig]]]. cbn [v_handle] in Hh.
        injection Hh as <- <- <-. rewrite Hig in Hrun.
        now apply for_await_returned in Hrun as [Hf _].
      * destruct (has IGNORE_DIRS name) eqn:Hig.
        -- apply in_flat_map in Hv. destruct Hv as [e [_ Hv]].
           rewrite orb_true_r in Hv || cbn [orb] in Hv.
           apply preorder_below in Hv. unfold listed in Hl.
           rewrite Hv, andb_false_r in Hl. discriminate.
        -- cbn [orb] in Hv. apply in_flat_map in Hv. destruct Hv as [e [He Hv]].
           apply for_await_returned in Hrun as [_ Hall].
           destruct (Hall e He) as [st0 [st1 Hstep]].
           rewrite Forall_forall in IH.
           apply (IH e He _ _ _ _ Hstep v fl); [| exact Hit].
           apply filter_In. now split.
Qed.

End Walk.

Lemma scan_warns root keyFiles checkExtension maxDepth st :
  scan root keyFiles checkExtension maxDepth = Returned st ->
  warnings st =
    flat_map (warned keyFiles checkExtension) (filter (listed maxDepth) (nodes root)).
Proof. intros Hrun. apply traverse_warns in Hrun. exact Hrun. Qed.

Lemma captured_iff keyFiles checkExtension v e :
  In e (captured keyFiles checkExtension v) <->
  exists name f c,
    v_handle v = FileHandle name (Some f) /\
    isKeyFile keyFiles checkExtension name = true /\
    isBinaryDocument name = false /\
    (size f < size_limit)%Z /\
    text f = Some c /\
    e = mkKeyFile (v_path v ++ "/" ++ name) c.
Proof.
  unfold captured, visit_file. split.
  - destruct (v_handle v) as [name getFile | name entries failure]; [| intros []].
    destruct (isKeyFile _ _ name) eqn:Hk; [| intros []].
    destruct (isBinaryDocument name) eqn:Hb; [intros [] |].
    destruct getFile as [f |]; [| intros []].
    destruct (size f <? size_limit)%Z eqn:Hs; [| intros []].
    destruct (text f) as [c |] eqn:Ht; [| intros []].
    intros [<- | []]. exists name, f, c.
    apply Z.ltb_lt in Hs. repeat split; assumption.
  - intros [name [f [c [-> [Hk [Hb [Hs [Ht ->]]]]]]]].
    apply Z.ltb_lt in Hs. rewrite Hk, Hb, Hs, Ht. now left.
Qed.

Lemma warned_iff keyFiles checkExtension v m :
  In m (warned keyFiles checkExtension v) <->
  exists name getFile,
    v_handle v = FileHandle name getFile /\
    isKeyFile keyFiles checkExtension name = true /\
    isBinaryDocument name = false /\
    (getFile = None \/
     exists f, getFile = Some f /\ (size f < size_limit)%Z /\ text f = None) /\
    m = "Could not read file: " ++ v_path v ++ "/" ++ name.
Proof.
  unfold warned, visit_file. split.
  - destruct (v_handle v) as [name getFile | name entries failure]; [| intros []].
    destruct (isKeyFile _ _ name) eqn:Hk; [| intros []].
    destruct (isBinaryDocument name) eqn:Hb; [intros [] |].
    destruct getFile as [f |].
    + destruct (size f <? size_limit)%Z eqn:Hs; [| intros []].
      destruct (text f) as [c |] eqn:Ht; [intros [] |].
      intros [<- | []]. exists name, (Some f).
      apply Z.ltb_lt in Hs. repeat split; try assumption.
      right. now exists f.
    + intros [<- | []]. exists name, None. repeat split; try assumption.
      now left.
  - intros [name [getFile [-> [Hk [Hb [Hread ->]]]]]]. rewrite Hk, Hb.
    destruct Hread as [-> | [f [-> [Hs Ht]]]]; [now left |].
    apply Z.ltb_lt in Hs. rewrite Hs, Ht. now left.
Qed.

Lemma one_trace keyFiles checkExtension v :
  List.length (captured keyFiles checkExtension v) +
  List.length (warned keyFiles checkExtension v) <= 1.
Proof.
  unfold captured, warned, visit_file.
  destruct (v_handle v) as [name getFile | name entries failure]; [| simpl; lia].
  destruct (isKeyFile _ _ name); [| simpl; lia].
  destruct (isBinaryDocument name); [simpl; lia |].
  destruct getFile as [f |]; [| simpl; lia].
  destruct (size f <? size_limit)%Z; [| simpl; lia].
  destruct (text f); simpl; lia.
Qed.

(** *** Which scans return, and what a scan throws *)

(** X1. The traversal returns exactly when no directory that it lists and
    iterates (depth at most [maxDepth], not ignored and not beneath an
    ignored one) fails to iterate. What the files do, a [getFile()] or a
    [text()] that rejects, never makes it throw. *)
Theorem scan_returns_iff root keyFiles checkExtension maxDepth :
  (exists st, scan root keyFiles checkExtension maxDepth = Returned st) <->
  (forall v failure,
     In v (filter (listed maxDepth) (nodes root)) ->
     iterated v failure -> failure = None).
Proof.
  split.
  - intros [st Hrun] v failure. exact (traverse_returned _ _ _ _ _ _ _ _ Hrun v failure).
  - intros Hall.
    destruct (scan root keyFiles checkExtension maxDepth) as [st | e] eqn:Hrun;
      [now exists st |].
    apply traverse_threw in Hrun. destruct Hrun as [v [Hv Hit]].
    specialize (Hall v (Some e) Hv Hit). discriminate Hall.
Qed.

Lemma scan_returns_iff_witness :
  exists st, scan MoreSamples.notes_folder [".md"; ".epub"] true 3 = Returned st.
Proof.
  apply (proj2 (scan_returns_iff MoreSamples.notes_folder [".md"; ".epub"] true 3)).
  intros v failure Hv [name [entries [Hh _]]].
  simpl in Hv.
  repeat (destruct Hv as [<- | Hv]; [simpl in Hh; congruence |]).
  destruct Hv.
Defined.

(** X2. An exception that the traversal throws is the one that ends the
    iteration of a directory it lists and iterates: the traversal throws
    nothing of its own, and nothing that stems from a file or from an
    ignored directory. *)
Theorem scan_throws_what_a_directory_threw
    root keyFiles checkExtension maxDepth e :
  scan root keyFiles checkExtension maxDepth = Threw e ->
  exists v,
    In v (filter (listed maxDepth) (nodes root)) /\ iterated v (Some e).
Proof. intros Hrun. now apply traverse_threw in Hrun. Qed.

Lemma scan_throws_what_a_directory_threw_witness :
  exists v,
    In v (filter (listed 3) (nodes MoreSamples.locked_root)) /\
    iterated v (Some MoreSamples.denied).
Proof.
  exact (scan_throws_what_a_directory_threw MoreSamples.locked_root
           [".json"] true 3 MoreSamples.denied eq_refl).
Defined.

(** *** What is captured and what is warned about *)

(** X3. The key files of a scan are exactly the files that are listed, have
    a key name that does not end in .pdf or .epub, resolve [getFile()] to a
    file smaller than 100KB and resolve [text()]; the content recorded is
    that text and the path recorded is the path of the node followed by a
    slash and the name. *)
Theorem key_files_exactly root keyFiles checkExtension maxDepth st :
  scan root keyFiles checkExtension maxDepth = Returned st ->
  forall e,
    In e (importantFiles st) <->
    exists v name f c,
      In v (filter (listed maxDepth) (nodes root)) /\
      v_handle v = FileHandle name (Some f) /\
      isKeyFile keyFiles checkExtension name = true /\
      isBinaryDocument name = false /\
      (size f < size_limit)%Z /\
      text f = Some c /\
      e = mkKeyFile (v_path v ++ "/" ++ name) c.
Proof.
  intros Hrun e. destruct (scan_extends _ _ _ _ _ Hrun) as [_ ->].
  rewrite in_flat_map. split.
  - intros [v [Hv He]]. apply captured_iff in He.
    destruct He as [name [f [c H]]]. exists v, name, f, c. now split.
  - intros [v [name [f [c [Hv H]]]]]. exists v. split; [exact Hv |].
    apply captured_iff. now exists name, f, c.
Qed.

Lemma key_files_exactly_witness :
  In (mkKeyFile "notes/a.md/a.md" "alpha")
     (importantFiles MoreSamples.notes_folder_state) <->
  exists v name f c,
    In v (filter (listed 3) (nodes MoreSamples.notes_folder)) /\
    v_handle v = FileHandle name (Some f) /\
    isKeyFile [".md"; ".epub"] true name = true /\
    isBinaryDocument name = false /\
    (size f < size_limit)%Z /\
    text f = Some c /\
    mkKeyFile "notes/a.md/a.md" "alpha" = mkKeyFile (v_path v ++ "/" ++ name) c.
Proof.
  exact (key_files_exactly MoreSamples.notes_folder [".md"; ".epub"] true 3
           MoreSamples.notes_folder_state eq_refl
           (mkKeyFile "notes/a.md/a.md" "alpha")).
Defined.

(** X4. The warnings of a scan are exactly one message per listed file
    with a key name, not .pdf or .epub, whose [getFile()] rejects, or whose
    file is smaller than 100KB and whose [text()] rejects. A file leaves at
    most one trace, a key file entry or a warning, never both. *)
Theorem warnings_exactly root keyFiles checkExtension maxDepth st :
  scan root keyFiles checkExtension maxDepth = Returned st ->
  (forall m,
     In m (warnings st) <->
     exists v name getFile,
       In v (filter (listed maxDepth) (nodes root)) /\
       v_handle v = FileHandle name getFile /\
       isKeyFile keyFiles checkExtension name = true /\
       isBinaryDocument name = false /\
       (getFile = None \/
        exists f, getFile = Some f /\ (size f < size_limit)%Z /\ text f = None) /\
       m = "Could not read file: " ++ v_path v ++ "/" ++ name) /\
  (forall v,
     List.length (captured keyFiles checkExtension v) +
     List.length (warned keyFiles checkExtension v) <= 1) /\
  List.length (importantFiles st) + List.length (warnings st) <=
    List.length (fileTree st).
Proof.
  intros Hrun. split; [| split].
  - intros m. rewrite (scan_warns _ _ _ _ _ Hrun), in_flat_map. split.
    + intros [v [Hv Hm]]. apply warned_iff in Hm.
      destruct Hm as [name [getFile H]]. exists v, name, getFile. now split.
    + intros [v [name [getFile [Hv H]]]]. exists v. split; [exact Hv |].
      apply warned_iff. now exists name, getFile.
  - intros v. apply one_trace.
  - destruct (scan_extends _ _ _ _ _ Hrun) as [-> ->].
    rewrite (scan_warns _ _ _ _ _ Hrun), length_map.
    induction (filter (listed maxDepth) (nodes root)) as [| v vs IH];
      [simpl; lia |].
    cbn [flat_map List.length]. rewrite !List.length_app.
    pose proof (one_trace keyFiles checkExtension v). lia.
Qed.

Lemma warnings_exactly_witness :
  List.length (importantFiles MoreSamples.notes_folder_state) +
  List.length (warnings MoreSamples.notes_folder_state) <=
    List.length (fileTree MoreSamples.notes_folder_state).
Proof.
  exact (proj2 (proj2
    (warnings_exactly MoreSamples.notes_folder [".md"; ".epub"] true 3
       MoreSamples.notes_folder_state eq_refl))).
Defined.

(** *** Ignored directories *)

Lemma handle_name_prune h : handle_name (prune h) = handle_name h.
Proof.
  destruct h as [name getFile | name entries failure]; [reflexivity |].
  cbn [prune]. now destruct (has IGNORE_DIRS name).
Qed.

Lemma is_directory_prune h : is_directory (prune h) = is_directory h.
Proof.
  destruct h as [name getFile | name entries failure]; [reflexivity |].
  cbn [prune]. now destruct (has IGNORE_DIRS name).
Qed.

Lemma for_await_prune (step : handle -> state -> outcome state) failure :
  forall entries st,
  Forall (fun e => forall st, step (prune e) st = step e st) entries ->
  for_await step failure (map prune entries) st =
  for_await step failure entries st.
Proof.
  induction entries as [| e rest IH]; intros st Hall; [reflexivity |].
  inversion Hall as [| ? ? He Hrest]; subst. cbn [map for_await].
  rewrite He. destruct (step e st); [now apply IH | reflexivity].
Qed.

Lemma traverse_prune keyFiles checkExtension maxDepth h :
  forall path depth st,
  traverse keyFiles checkExtension maxDepth (prune h) path depth st =
  traverse keyFiles checkExtension maxDepth h path depth st.
Proof.
  induction h as [name getFile | name entries failure IH] using handle_induction;
    intros path depth st; [reflexivity |].
  cbn [prune]. destruct (has IGNORE_DIRS name) eqn:Hig; cbn [traverse];
    rewrite Hig; destruct (maxDepth <? Z.of_nat depth)%Z; try reflexivity.
  unfold tree_line. cbn [is_directory handle_name].
  apply for_await_prune.
  eapply Forall_impl; [| exact IH]. intros e He st0. cbn beta.
  rewrite handle_name_prune. apply He.
Qed.

(** X5. What an ignored directory holds never matters: with every ignored
    directory emptied (no entry, no failure of its iteration) the summary
    is the same text, or the same exception. *)
Theorem ignored_contents_never_matter root keyFiles checkExtension maxDepth :
  generateDirectorySummary (prune root) keyFiles checkExtension maxDepth =
  generateDirectorySummary root keyFiles checkExtension maxDepth.
Proof.
  unfold generateDirectorySummary, scan.
  now rewrite handle_name_prune, traverse_prune.
Qed.

(** *** Key sets that name books *)

Lemma visit_file_same_keys kf1 ce1 kf2 ce2 name getFile path st :
  (isBinaryDocument name = false ->
   isKeyFile kf1 ce1 name = isKeyFile kf2 ce2 name) ->
  visit_file kf1 ce1 name getFile path st = visit_file kf2 ce2 name getFile path st.
Proof.
  intros H. unfold visit_file. destruct (isBinaryDocument name).
  - now destruct (isKeyFile kf1 ce1 name); destruct (isKeyFile kf2 ce2 name).
  - now rewrite H.
Qed.

Lemma for_await_same (step1 step2 : handle -> state -> outcome state) failure :
  forall entries st,
  Forall (fun e => forall st, step1 e st = step2 e st) entries ->
  for_await step1 failure entries st = for_await step2 failure entries st.
Proof.
  induction entries as [| e rest IH]; intros st Hall; [reflexivity |].
  inversion Hall as [| ? ? He Hrest]; subst. cbn [for_await].
  rewrite He. destruct (step2 e st); [now apply IH | reflexivity].
Qed.

Lemma traverse_same_keys kf1 ce1 kf2 ce2 maxDepth :
  (forall name, isBinaryDocument name = false ->
                isKeyFile kf1 ce1 name = isKeyFile kf2 ce2 name) ->
  forall h path depth st,
  traverse kf1 ce1 maxDepth h path depth st =
  traverse kf2 ce2 maxDepth h path depth st.
Proof.
  intros Hkeys.
  induction h as [name getFile | name entries failure IH] using handle_induction;
    intros path depth st; cbn [traverse];
    destruct (maxDepth <? Z.of_nat depth)%Z; try reflexivity.
  - f_equal. apply visit_file_same_keys. apply Hkeys.
  - destruct (has IGNORE_DIRS name); [reflexivity |].
    apply for_await_same.
    eapply Forall_impl; [| exact IH]. intros e He st0. apply He.
Qed.

(** X24. Naming .pdf and .epub in a key set has no effect: a file whose
    name ends in one of them is listed like any other file and never read,
    whether the set names them or not. The learning scan gives the same
    summary as a scan for its five text extensions alone. *)
Theorem book_extensions_are_inert root keyFiles checkExtension maxDepth :
  generateDirectorySummary root (keyFiles ++ [".pdf"; ".epub"]) checkExtension maxDepth =
    generateDirectorySummary root keyFiles checkExtension maxDepth /\
  generateDirectorySummary root App.learning_keyFiles true maxDepth =
    generateDirectorySummary root [".md"; ".txt"; ".json"; ".srt"; ".vtt"] true maxDepth.
Proof.
  assert (H : forall name, isBinaryDocument name = false ->
            isKeyFile (keyFiles ++ [".pdf"; ".epub"]) checkExtension name =
            isKeyFile keyFiles checkExtension name).
  { intros name Hb. unfold isBinaryDocument in Hb.
    apply orb_false_elim in Hb as [Hpdf Hepub].
    unfold isKeyFile, has. destruct checkExtension; rewrite existsb_app;
      cbn [existsb].
    - now rewrite Hpdf, Hepub, !orb_false_r.
    - replace (String.eqb name ".pdf") with false.
      + replace (String.eqb name ".epub") with false; [now rewrite !orb_false_r |].
        symmetry. apply String.eqb_neq. intros ->. discriminate Hepub.
      + symmetry. apply String.eqb_neq. intros ->. discriminate Hpdf. }
  split.
  - unfold generateDirectorySummary, scan.
    now rewrite (traverse_same_keys _ _ _ _ maxDepth H).
  - unfold generateDirectorySummary, scan.
    rewrite (traverse_same_keys App.learning_keyFiles true
               [".md"; ".txt"; ".json"; ".srt"; ".vtt"] true maxDepth);
      [reflexivity |].
    intros name Hb. unfold isBinaryDocument in Hb.
    apply orb_false_elim in Hb as [Hpdf Hepub].
    unfold isKeyFile, App.learning_keyFiles. cbn [existsb].
    now rewrite Hpdf, Hepub.
Qed.

(** *** The text of the summary *)

Lemma flat_map_nil {A B} (f : A -> list B) (l : list A) :
  (forall x, In x l -> f x = []) -> flat_map f l = [].
Proof.
  induction l as [| x l IH]; intros H; [reflexivity |]. cbn [flat_map].
  rewrite (H x (or_introl eq_refl)), IH; [reflexivity |].
  intros y Hy. apply H. now right.
Qed.

Lemma render_no_files rootName tree ws :
  render rootName (mkState tree [] ws) =
  "Directory Root: " ++ rootName ++ nl ++ nl ++ "Directory Structure:" ++ nl
    ++ join nl tree ++ nl ++ nl.
Proof. unfold render. cbn [fileTree importantFiles]. now rewrite !append_assoc. Qed.

(** X6. When no listed file has a key name (for one, when the key set is
    empty) nothing is read: there is no key file and no warning, and the
    summary is the header and the structure section alone. *)
Theorem no_key_name_nothing_read root keyFiles checkExtension maxDepth st :
  scan root keyFiles checkExtension maxDepth = Returned st ->
  (forall v name getFile,
     In v (filter (listed maxDepth) (nodes root)) ->
     v_handle v = FileHandle name getFile ->
     isKeyFile keyFiles checkExtension name = false) ->
  importantFiles st = [] /\
  warnings st = [] /\
  generateDirectorySummary root keyFiles checkExtension maxDepth =
    Returned
      ("Directory Root: " ++ handle_name root ++ nl ++ nl
         ++ "Directory Structure:" ++ nl ++ join nl (fileTree st) ++ nl ++ nl).
Proof.
  intros Hrun Hkeys.
  assert (Hfiles : importantFiles st = []).
  { destruct (scan_extends _ _ _ _ _ Hrun) as [_ ->]. apply flat_map_nil.
    intros v Hv. unfold captured, visit_file.
    destruct (v_handle v) as [name getFile |] eqn:Hh; [| reflexivity].
    now rewrite (Hkeys v name getFile Hv Hh). }
  assert (Hwarn : warnings st = []).
  { rewrite (scan_warns _ _ _ _ _ Hrun). apply flat_map_nil.
    intros v Hv. unfold warned, visit_file.
    destruct (v_handle v) as [name getFile |] eqn:Hh; [| reflexivity].
    now rewrite (Hkeys v name getFile Hv Hh). }
  split; [exact Hfiles |]. split; [exact Hwarn |].
  unfold generateDirectorySummary. rewrite Hrun.
  destruct st as [tree files ws]. cbn [importantFiles] in Hfiles. subst files.
  now rewrite render_no_files.
Qed.

Lemma no_key_name_nothing_read_witness :
  generateDirectorySummary Samples.notes_root [] true 3 =
    Returned
      ("Directory Root: " ++ "root" ++ nl ++ nl ++ "Directory Structure:" ++ nl
         ++ join nl (fileTree Samples.notes_state) ++ nl ++ nl).
Proof.
  exact (proj2 (proj2
    (no_key_name_nothing_read Samples.notes_root [] true 3
       (mkState (fileTree Samples.notes_state) [] []) eq_refl
       (fun v name getFile _ _ => eq_refl)))).
Defined.

Lemma concat_cons sep y z l :
  String.concat sep (y :: z :: l) = y ++ sep ++ String.concat sep (z :: l).
Proof. reflexivity. Qed.

Lemma join_includes sep x l : In x l -> includes (join sep l) x = true.
Proof.
  unfold join. induction l as [| y l IH]; intros Hin; [destruct Hin |].
  apply includes_iff. destruct Hin as [-> | Hin].
  - destruct l as [| z l].
    + exists "", "". simpl. now rewrite append_nil_r.
    + rewrite concat_cons. now exists "", (sep ++ String.concat sep (z :: l)).
  - destruct l as [| z l]; [destruct Hin |].
    apply IH, includes_iff in Hin. destruct Hin as [pre [post Hin]].
    rewrite concat_cons, Hin.
    exists (y ++ sep ++ pre), post. now rewrite !append_assoc.
Qed.

Lemma fold_render_includes files : forall init f,
  In f files ->
  includes (fold_left (fun acc f => acc ++ render_file f) files init)
    (render_file f) = true.
Proof.
  induction files as [| g files IH]; intros init f Hin; [destruct Hin |].
  cbn [fold_left]. destruct Hin as [-> | Hin]; [| now apply IH].
  destruct (fold_append render_file files (init ++ render_file f)) as [rest ->].
  apply includes_iff. exists init, rest. now rewrite append_assoc.
Qed.

Lemma render_includes_line rootName st l :
  In l (fileTree st) -> includes (render rootName st) l = true.
Proof.
  intros Hin. apply (join_includes nl) in Hin.
  apply includes_iff in Hin. destruct Hin as [pre [post Hin]].
  unfold render. rewrite Hin.
  set (head := "Directory Root: " ++ rootName ++ nl ++ nl).
  assert (Hbase : forall tail,
    (head ++ "Directory Structure:" ++ nl ++ (pre ++ l ++ post) ++ nl ++ nl) ++ tail =
    (head ++ "Directory Structure:" ++ nl ++ pre) ++ l ++ (post ++ nl ++ nl ++ tail)).
  { intros tail. now rewrite !append_assoc. }
  destruct (importantFiles st) as [| f fs].
  - rewrite <- (append_nil_r (head ++ _)), Hbase. apply includes_middle.
  - destruct (fold_append render_file (f :: fs)
                ((head ++ "Directory Structure:" ++ nl ++ (pre ++ l ++ post) ++ nl ++ nl)
                   ++ "--- Key File Contents ---" ++ nl ++ nl)) as [rest ->].
    rewrite append_assoc, Hbase. apply includes_middle.
Qed.

Lemma render_includes_file rootName st f :
  In f (importantFiles st) ->
  includes (render rootName st) (render_file f) = true.
Proof.
  intros Hin. unfold render.
  destruct (importantFiles st) as [| g fs]; [destruct Hin |].
  now apply fold_render_includes.
Qed.

(** X7. Everything listed and everything captured reaches the text of the
    summary: each tree line is a piece of it, and so is, for each key file,
    the block with its path and its whole content between the fences. *)
Theorem summary_carries_lines_and_contents
    root keyFiles checkExtension maxDepth summary :
  generateDirectorySummary root keyFiles checkExtension maxDepth = Returned summary ->
  exists st,
    scan root keyFiles checkExtension maxDepth = Returned st /\
    (forall l, In l (fileTree st) -> includes summary l = true) /\
    (forall f, In f (importantFiles st) ->
       includes summary
         ("### FILE: " ++ path f ++ nl ++ fence ++ nl ++ content f ++ nl
            ++ fence ++ nl ++ nl) = true).
Proof.
  unfold generateDirectorySummary.
  destruct (scan root keyFiles checkExtension maxDepth) as [st |];
    [| discriminate].
  intros [= <-]. exists st. split; [reflexivity |]. split.
  - intros l. apply render_includes_line.
  - intros f. apply render_includes_file.
Qed.

Lemma summary_carries_lines_and_contents_witness :
  exists st,
    scan Samples.notes_root [".md"] true 3 = Returned st /\
    (forall l, In l (fileTree st) ->
       includes (render "root" Samples.notes_state) l = true) /\
    (forall f, In f (importantFiles st) ->
       includes (render "root" Samples.notes_state)
         ("### FILE: " ++ path f ++ nl ++ fence ++ nl ++ content f ++ nl
            ++ fence ++ nl ++ nl) = true).
Proof.
  exact (summary_carries_lines_and_contents Samples.notes_root [".md"] true 3
           (render "root" Samples.notes_state) eq_refl).
Defined.

(** *** What [pickAndSummarizeDirectory] yields *)

Lemma render_header rootName st :
  exists rest, render rootName st = "Directory Root: " ++ rest.
Proof.
  unfold render. destruct (importantFiles st) as [| f fs].
  - eexists. now rewrite !append_assoc.
  - match goal with
    | |- context [fold_left _ ?l ?init] =>
        destruct (fold_append render_file l init) as [rest ->]
    end.
    eexists. now rewrite !append_assoc.
Qed.

Lemma render_not_blank rootName st :
  String.eqb (trim (render rootName st)) "" = false.
Proof.
  destruct (render_header rootName st) as [rest ->].
  apply String.eqb_neq.
  change ("Directory Root: " ++ rest) with (String "D" ("irectory Root: " ++ rest)).
  apply JsStringFacts.trim_keeps_D.
Qed.

(** X8. The outcomes of [pickAndSummarizeDirectory]. A summary it returns
    is the one [generateDirectorySummary] returned for the picked
    directory, and it starts with "Directory Root: ": it is never empty or
    blank. An exception it throws is the unsupported-browser error when
    the picker is missing, and otherwise one that the picker or the
    summarizer threw and that is not an abort: the function never throws
    its "empty or could not be read" error of its own. *)
Theorem pick_outcomes w keyFileSet checkExtension :
  (forall summary,
     pickAndSummarizeDirectory w keyFileSet checkExtension = Returned (Some summary) ->
     has_showDirectoryPicker w = true /\
     (exists directoryHandle,
        showDirectoryPicker w = Returned directoryHandle /\
        generateDirectorySummary directoryHandle keyFileSet checkExtension 3 =
          Returned summary) /\
     startsWith summary "Directory Root: " = true /\
     String.eqb (trim summary) "" = false) /\
  (forall e,
     pickAndSummarizeDirectory w keyFileSet checkExtension = Threw e ->
     (has_showDirectoryPicker w = false /\ e = unsupported) \/
     (has_showDirectoryPicker w = true /\ isAbortError e = false /\
      (showDirectoryPicker w = Threw e \/
       exists directoryHandle,
         showDirectoryPicker w = Returned directoryHandle /\
         generateDirectorySummary directoryHandle keyFileSet checkExtension 3 =
           Threw e))).
Proof.
  unfold pickAndSummarizeDirectory.
  destruct (has_showDirectoryPicker w); cbn [negb].
  - destruct (showDirectoryPicker w) as [h | e0].
    + destruct (generateDirectorySummary h keyFileSet checkExtension 3)
        as [s0 | e0] eqn:Hgen.
      * assert (Hs0 : exists st, s0 = render (handle_name h) st).
        { unfold generateDirectorySummary in Hgen.
          destruct (scan h keyFileSet checkExtension 3) as [st |];
            [injection Hgen as <-; now exists st | discriminate]. }
        destruct Hs0 as [st ->]. rewrite render_not_blank. split.
        -- intros summary [= <-]. split; [reflexivity |].
           split; [now exists h |]. split; [| apply render_not_blank].
           destruct (render_header (handle_name h) st) as [rest ->].
           unfold startsWith. apply prefix_iff. now exists rest.
        -- discriminate.
      * destruct (isAbortError e0) eqn:Hab; split; try discriminate.
        intros e [= <-]. right. split; [reflexivity |]. split; [exact Hab |].
        right. now exists h.
    + destruct (isAbortError e0) eqn:Hab; split; try discriminate.
      intros e [= <-]. right. split; [reflexivity |]. split; [exact Hab |].
      now left.
  - split; [discriminate |]. intros e [= <-]. now left.
Qed.

Lemma pick_outcomes_witness :
  has_showDirectoryPicker Samples.picked = true /\
  (exists directoryHandle,
     showDirectoryPicker Samples.picked = Returned directoryHandle /\
     generateDirectorySummary directoryHandle [".md"] true 3 =
       Returned (render "root" Samples.notes_state)) /\
  startsWith (render "root" Samples.notes_state) "Directory Root: " = true /\
  String.eqb (trim (render "root" Samples.notes_state)) "" = false.
Proof.
  exact (proj1 (pick_outcomes Samples.picked [".md"] true)
           (render "root" Samples.notes_state) eq_refl).
Defined.

End SummarizerMore.

(** ** Facts about the service *)

Module GeminiMore.
Import JsString Gemini GeminiApi SummarizerFacts StringFacts.

(** The templates have the lengths of the source texts. *)
Example template_lengths :
  String.length task_head = 1039 /\ String.length task_tail = 461 /\
  String.length project_head = 387 /\ String.length project_tail = 478 /\
  String.length learning_head = 959 /\ String.length learning_tail = 532.
Proof. repeat split; reflexivity. Qed.

Lemma not_configured_iff (JSON_parse : string -> outcome json) this prompt :
  generateSuggestions JSON_parse this prompt = Threw not_configured <->
  isConfigured this = false \/ ai this = None.
Proof.
  unfold generateSuggestions.
  destruct (isConfigured this); destruct (ai this) as [generateContent |];
    [destruct (generateContent prompt) as [[[t |]] | e0]; cbn [text];
       [destruct (JSON_parse (trim t)) | |] | | |];
    split; intros H; try discriminate H; auto;
    destruct H as [H | H]; discriminate H.
Qed.

(** X9. [generateSuggestions] throws two errors only: the not-configured
    error, exactly when [isConfigured] is false or [ai] is null, and the
    generic failure, which replaces whatever the model call or [JSON.parse]
    threw. A value it returns is what [JSON.parse] made of the trimmed
    text of the response. *)
Theorem generateSuggestions_outcomes
    (JSON_parse : string -> outcome json) this prompt :
  (forall e, generateSuggestions JSON_parse this prompt = Threw e ->
     e = not_configured \/ e = failed) /\
  (generateSuggestions JSON_parse this prompt = Threw not_configured <->
     isConfigured this = false \/ ai this = None) /\
  (forall v, generateSuggestions JSON_parse this prompt = Returned v ->
     exists generateContent t,
       ai this = Some generateContent /\
       generateContent prompt = Returned (mkResponse (Some t)) /\
       JSON_parse (trim t) = Returned v).
Proof.
  unfold generateSuggestions.
  destruct (isConfigured this); destruct (ai this) as [generateContent |];
    [destruct (generateContent prompt) as [[[t |]] | e0] eqn:Hgen; cbn [text];
       [destruct (JSON_parse (trim t)) as [v0 | e0] eqn:Hp | |] | | |];
    (split; [| split]);
    try (intros e H; try discriminate H; injection H as <-; auto; fail);
    try (split; intros H; try discriminate H; auto;
         destruct H as [H | H]; discriminate H);
    try (intros v H; try discriminate H; injection H as <-; eauto; fail).
Qed.

(** The model answers with the text of the empty object between a
    no-break space and a byte order mark: what is returned is what
    [JSON.parse] made of the text between them. *)
Lemma generateSuggestions_outcomes_witness :
  exists generateContent t,
    ai (answering (utf8 160 ++ "{}" ++ utf8 65279)) = Some generateContent /\
    generateContent "Analyze the task" = Returned (mkResponse (Some t)) /\
    parse_empty_object (trim t) = Returned (JObject []).
Proof.
  exact (proj2 (proj2
    (generateSuggestions_outcomes parse_empty_object
       (answering (utf8 160 ++ "{}" ++ utf8 65279)) "Analyze the task"))
    (JObject []) eq_refl).
Defined.

(** X10. A service built by the constructor is configured exactly when
    [API_KEY] is set and not empty; it has a client exactly when it is
    configured; and its calls throw the not-configured error exactly when
    the key is missing or empty. *)
Theorem constructor_configured_iff_key
    (JSON_parse : string -> outcome json)
    (GoogleGenAI : string -> string -> outcome response) API_KEY prompt :
  (isConfigured (constructor GoogleGenAI API_KEY) = true <->
     exists apiKey, API_KEY = Some apiKey /\ String.eqb apiKey "" = false) /\
  (ai (constructor GoogleGenAI API_KEY) = None <->
     isConfigured (constructor GoogleGenAI API_KEY) = false) /\
  (generateSuggestions JSON_parse (constructor GoogleGenAI API_KEY) prompt =
     Threw not_configured <->
     API_KEY = None \/ API_KEY = Some "").
Proof.
  rewrite not_configured_iff.
  unfold constructor. destruct API_KEY as [apiKey |];
    [destruct (String.eqb apiKey "") eqn:Hk |]; cbn [isConfigured ai];
    (split; [| split]).
  - split; [discriminate | intros [k [[= <-] H]]; congruence].
  - split; reflexivity.
  - apply String.eqb_eq in Hk. subst apiKey. split; intros _; [now right | now left].
  - split; [intros _; now exists apiKey | reflexivity].
  - split; discriminate.
  - split.
    + intros [H | H]; discriminate H.
    + intros [H | [= ->]]; [discriminate H | discriminate Hk].
  - split; [discriminate | intros [k [H _]]; discriminate H].
  - split; reflexivity.
  - split; intros _; now left.
Qed.

Lemma append_inv_tail a : forall b t, a ++ t = b ++ t -> a = b.
Proof.
  induction a as [| x a IH]; intros [| y b] t H.
  - reflexivity.
  - apply (f_equal String.length) in H. simpl in H. rewrite length_app in H. lia.
  - apply (f_equal String.length) in H. simpl in H. rewrite length_app in H. lia.
  - simpl in H. injection H as -> H. f_equal. now apply (IH b t).
Qed.

Lemma append_inv_head a : forall b c, a ++ b = a ++ c -> b = c.
Proof.
  induction a as [| x a IH]; intros b c H; [exact H |].
  simpl in H. injection H as H. now apply IH.
Qed.

(** X11. Each of the three prompts carries the input text as it is, and
    determines it: two inputs with the same prompt are the same text. *)
Theorem prompts_embed_input (d1 d2 : string) :
  includes (taskPrompt d1) d1 = true /\
  includes (projectPrompt d1) d1 = true /\
  includes (learningPrompt d1) d1 = true /\
  (taskPrompt d1 = taskPrompt d2 -> d1 = d2) /\
  (projectPrompt d1 = projectPrompt d2 -> d1 = d2) /\
  (learningPrompt d1 = learningPrompt d2 -> d1 = d2).
Proof.
  unfold taskPrompt, projectPrompt, learningPrompt.
  repeat split; try apply includes_middle;
    intros H; apply append_inv_head in H; now apply append_inv_tail in H.
Qed.

Lemma prompts_embed_input_witness :
  "Copy the figures into the report" = "Copy the figures into the report".
Proof.
  exact (proj1 (proj2 (proj2 (proj2
    (prompts_embed_input "Copy the figures into the report"
       "Copy the figures into the report")))) eq_refl).
Defined.

End GeminiMore.

(** ** Facts about the three actions of the component *)

Module AppFacts.
Import JsString Utf16 Summarizer Gemini App AppSpec.
Import JsStringFacts SummarizerFacts SummarizerMore.

Lemma pick_not_empty w keyFileSet checkExtension summary :
  pickAndSummarizeDirectory w keyFileSet checkExtension = Returned (Some summary) ->
  String.eqb summary "" = false.
Proof.
  unfold pickAndSummarizeDirectory.
  destruct (has_showDirectoryPicker w); cbn [negb]; [| discriminate].
  destruct (showDirectoryPicker w) as [h | e0];
    [| destruct (isAbortError e0); discriminate].
  unfold generateDirectorySummary.
  destruct (scan h keyFileSet checkExtension 3) as [st | e0];
    [| destruct (isAbortError e0); discriminate].
  rewrite render_not_blank. intros [= <-].
  destruct (render_header (handle_name h) st) as [rest ->]. reflexivity.
Qed.

Lemma pick_dismissed w keyFileSet checkExtension m :
  has_showDirectoryPicker w = true ->
  showDirectoryPicker w = Threw (DOMException "AbortError" m) ->
  pickAndSummarizeDirectory w keyFileSet checkExtension = Returned None.
Proof.
  intros Hhas Hpick. unfold pickAndSummarizeDirectory.
  now rewrite Hhas, Hpick.
Qed.

Lemma pick_unsupported w keyFileSet checkExtension :
  has_showDirectoryPicker w = false ->
  pickAndSummarizeDirectory w keyFileSet checkExtension = Threw unsupported.
Proof. intros Hhas. unfold pickAndSummarizeDirectory. now rewrite Hhas. Qed.

Lemma not_blank_trim s : ~ blank s -> String.eqb (trim s) "" = false.
Proof.
  intros H. apply String.eqb_neq. intros E. now apply H, trim_empty_iff.
Qed.

Lemma blank_trim s : blank s -> String.eqb (trim s) "" = true.
Proof. intros H. apply String.eqb_eq. now apply trim_empty_iff. Qed.








(** X13. An analysis is refused before anything else happens exactly
    when the description is blank, that is empty or of white space only (of
    any kind that [trim] removes): the error then asks for a description,
    the loading state and the suggestions stay as they were (suggestions of
    an earlier analysis remain beside the error), and neither the browser
    nor the service has any influence. A description that is not blank is
    never refused in this way by every browser and service. *)
Theorem blank_task_refused c :
  blank (taskDescription c) <->
  (forall b geminiService,
     analyzeTask b geminiService c =
       mkComponent (taskDescription c) (suggestions c) (loadingState c)
         (Some "Please describe a task to analyze.")).
Proof.
  split.
  - intros H b geminiService. unfold analyzeTask. now rewrite (blank_trim _ H).
  - intros H. apply trim_empty_iff. apply String.eqb_eq.
    destruct (String.eqb (trim (taskDescription c)) "") eqn:E; [reflexivity |].
    specialize (H (plain false Samples.dismissed) (rejecting (Error ""))).
    unfold analyzeTask in H. rewrite E in H. discriminate H.
Qed.

(** A no-break space, a space, an ideographic space and a line feed. *)
Lemma blank_task_refused_witness :
  analyzeTask (plain true Samples.picked) (resolving (JObject []))
    (mkComponent (utf8 160 ++ utf8 32 ++ utf8 12288 ++ utf8 10)
       (Some (JArray [JString "earlier"])) idle None) =
  mkComponent (utf8 160 ++ utf8 32 ++ utf8 12288 ++ utf8 10)
    (Some (JArray [JString "earlier"])) idle
    (Some "Please describe a task to analyze.").
Proof.
  refine (proj1
    (blank_task_refused
       (mkComponent (utf8 160 ++ utf8 32 ++ utf8 12288 ++ utf8 10)
          (Some (JArray [JString "earlier"])) idle None))
    _ (plain true Samples.picked) (resolving (JObject []))).
  refine (blank_more 160 _ _ (blank_more 32 _ _ (blank_more 12288 _ _
            (blank_more 10 "" _ blank_empty)))); reflexivity.
Defined.

(** X14. When the user dismisses the picker, a scan ends with no
    suggestions and no error and never asks the service; an analysis goes
    on as if the user had declined to pick a folder. *)
Theorem dismissed_picker_is_silent b geminiService c m :
  has_showDirectoryPicker (window b) = true ->
  showDirectoryPicker (window b) = Threw (DOMException "AbortError" m) ->
  scanLocalProject b geminiService c =
    mkComponent (taskDescription c) None idle None /\
  scanLearningFolder b geminiService c =
    mkComponent (taskDescription c) None idle None /\
  analyzeTask b geminiService c =
    analyzeTask (mkBrowser false (window b) (ToNumber b) (typeErrorMessage b))
      geminiService c.
Proof.
  intros Hhas Hpick.
  unfold scanLocalProject, scanLearningFolder, analyzeTask.
  rewrite !(pick_dismissed _ _ _ m Hhas Hpick). cbn [confirm].
  repeat split. now destruct (confirm b).
Qed.

Lemma dismissed_picker_is_silent_witness :
  scanLocalProject (plain false Samples.dismissed) (rejecting Gemini.failed)
    (mkComponent "" None idle (Some "old error")) =
  mkComponent "" None idle None.
Proof.
  exact (proj1
    (dismissed_picker_is_silent (plain false Samples.dismissed)
       (rejecting Gemini.failed)
       (mkComponent "" None idle (Some "old error"))
       "The user aborted a request." eq_refl eq_refl)).
Defined.

(** X15. In a browser without [showDirectoryPicker] a scan ends with the
    unsupported-browser message; so does an analysis of a description that
    is not blank when the user agreed to pick a folder, and the service is
    then not asked though the description alone could be analysed. *)
Theorem unsupported_browser_reported b geminiService c :
  has_showDirectoryPicker (window b) = false ->
  scanLocalProject b geminiService c =
    mkComponent (taskDescription c) None idle (Some (message unsupported)) /\
  scanLearningFolder b geminiService c =
    mkComponent (taskDescription c) None idle (Some (message unsupported)) /\
  (confirm b = true ->
   ~ blank (taskDescription c) ->
   analyzeTask b geminiService c =
     mkComponent (taskDescription c) None idle (Some (message unsupported))).
Proof.
  intros Hhas. unfold scanLocalProject, scanLearningFolder, analyzeTask.
  rewrite !(pick_unsupported _ _ _ Hhas). repeat split.
  intros -> Hb. now rewrite (not_blank_trim _ Hb).
Qed.

Lemma unsupported_browser_reported_witness :
  scanLearningFolder (plain true (mkWindow false (Returned Samples.notes_root)))
    (rejecting Gemini.failed)
    (mkComponent "Learn Rocq" None idle None) =
  mkComponent "Learn Rocq" None idle (Some (message unsupported)) /\
  analyzeTask (plain true (mkWindow false (Returned Samples.notes_root)))
    (resolving (JObject [("suggestions", JArray [JString "x"])]))
    (mkComponent (utf8 160 ++ "Learn Rocq") None idle None) =
  mkComponent (utf8 160 ++ "Learn Rocq") None idle (Some (message unsupported)).
Proof.
  split.
  - exact (proj1 (proj2
      (unsupported_browser_reported
         (plain true (mkWindow false (Returned Samples.notes_root)))
         (rejecting Gemini.failed)
         (mkComponent "Learn Rocq" None idle None) eq_refl))).
  - refine (proj2 (proj2
      (unsupported_browser_reported
         (plain true (mkWindow false (Returned Samples.notes_root)))
         (resolving (JObject [("suggestions", JArray [JString "x"])]))
         (mkComponent (utf8 160 ++ "Learn Rocq") None idle None) eq_refl))
      eq_refl _).
    intros H. apply trim_empty_iff in H. discriminate H.
Defined.

(** X16. An analysis asks the service once: about the trimmed description
    when no folder is picked, and about the trimmed description followed by
    the context header and the summary when one is. Two services that
    answer that one text alike give the same result. *)
Theorem analyzeTask_asks_once b s1 s2 c :
  (confirm b = false ->
   getTaskAutomationSuggestions s1 (trim (taskDescription c)) =
   getTaskAutomationSuggestions s2 (trim (taskDescription c)) ->
   analyzeTask b s1 c = analyzeTask b s2 c) /\
  (forall summary,
     confirm b = true ->
     pickAndSummarizeDirectory (window b) task_keyFiles true =
       Returned (Some summary) ->
     getTaskAutomationSuggestions s1
       (trim (taskDescription c) ++ nl ++ nl
          ++ "--- CONTEXT FROM LOCAL FILES ---" ++ nl ++ summary) =
     getTaskAutomationSuggestions s2
       (trim (taskDescription c) ++ nl ++ nl
          ++ "--- CONTEXT FROM LOCAL FILES ---" ++ nl ++ summary) ->
     analyzeTask b s1 c = analyzeTask b s2 c).
Proof.
  split.
  - intros Hc Hsame. unfold analyzeTask. rewrite Hc.
    destruct (String.eqb (trim (taskDescription c)) ""); [reflexivity |].
    now rewrite Hsame.
  - intros summary Hc Hpick Hsame. unfold analyzeTask. rewrite Hc, Hpick.
    rewrite (pick_not_empty _ _ _ _ Hpick).
    destruct (String.eqb (trim (taskDescription c)) ""); [reflexivity |].
    unfold context_header. rewrite !append_assoc. now rewrite Hsame.
Qed.

(** Two services that agree on "Sort my inbox" and on nothing else: the
    description has a no-break space before it and a line feed after. *)
Lemma analyzeTask_asks_once_witness :
  analyzeTask (plain false Samples.picked)
    (mkGeminiService
       (fun t => if String.eqb t "Sort my inbox" then Returned JNull
                 else Threw Gemini.failed)
       (fun _ => Threw Gemini.failed) (fun _ => Threw Gemini.failed))
    (mkComponent (utf8 160 ++ "Sort my inbox" ++ nl) None idle None) =
  analyzeTask (plain false Samples.picked)
    (mkGeminiService
       (fun t => if String.eqb t "Sort my inbox" then Returned JNull
                 else Returned (JArray []))
       (fun _ => Returned JNull) (fun _ => Threw Gemini.not_configured))
    (mkComponent (utf8 160 ++ "Sort my inbox" ++ nl) None idle None).
Proof.
  exact (proj1
    (analyzeTask_asks_once (plain false Samples.picked)
       (mkGeminiService
          (fun t => if String.eqb t "Sort my inbox" then Returned JNull
                    else Threw Gemini.failed)
          (fun _ => Threw Gemini.failed) (fun _ => Threw Gemini.failed))
       (mkGeminiService
          (fun t => if String.eqb t "Sort my inbox" then Returned JNull
                    else Returned (JArray []))
          (fun _ => Returned JNull) (fun _ => Threw Gemini.not_configured))
       (mkComponent (utf8 160 ++ "Sort my inbox" ++ nl) None idle None))
    eq_refl eq_refl).
Defined.

(** X17. What the adapter of the service lets through is what the user
    reads after a scan of a project. With the service of
    [gemini.service.ts] and a summarized directory: a service that is not
    configured shows its message; a model call that throws, a response
    without text and a text that does not parse all show the generic
    failure; a parsed value that is falsy ([null], for instance) shows the
    message of the scan; a parsed value without [suggestions] shows the
    message of the engine's [TypeError]; a list of suggestions is shown
    when it is not empty, else the message of the scan is. *)
Theorem scan_shows_adapter_outcome
    (JSON_parse : string -> outcome json) b this c summary :
  pickAndSummarizeDirectory (window b) project_keyFiles false =
    Returned (Some summary) ->
  let r := scanLocalProject b (inject JSON_parse this) c in
  let shown (m : string) := mkComponent (taskDescription c) None idle (Some m) in
  (isConfigured this = false \/ ai this = None ->
   r = shown (message not_configured)) /\
  (forall generateContent,
     isConfigured this = true -> ai this = Some generateContent ->
     let answer := generateContent (GeminiApi.projectPrompt summary) in
     (forall e, answer = Threw e -> r = shown (message failed)) /\
     (answer = Returned (mkResponse None) -> r = shown (message failed)) /\
     (forall t e, answer = Returned (mkResponse (Some t)) ->
        JSON_parse (trim t) = Threw e -> r = shown (message failed)) /\
     (forall t v, answer = Returned (mkResponse (Some t)) ->
        JSON_parse (trim t) = Returned v ->
        (truthy v = false -> r = shown no_project_suggestions) /\
        (truthy v = true -> field "suggestions" v = None ->
         r = shown (typeErrorMessage b None)) /\
        (field "suggestions" v = Some (JArray []) ->
         r = shown no_project_suggestions) /\
        (forall x l, field "suggestions" v = Some (JArray (x :: l)) ->
         r = mkComponent (taskDescription c) (Some (JArray (x :: l))) idle None))).
Proof.
  intros Hpick r shown. subst r shown. unfold scanLocalProject. rewrite Hpick.
  cbn [inject getProjectAutomationSuggestions].
  unfold GeminiApi.getProjectAutomationSuggestions, generateSuggestions.
  split.
  - intros [H | H]; rewrite H; [reflexivity | now destruct (isConfigured this)].
  - intros generateContent Hc Hai. rewrite Hc, Hai.
    split; [| split; [| split]].
    + intros e ->. reflexivity.
    + intros ->. reflexivity.
    + intros t e -> Hp. cbn [text]. now rewrite Hp.
    + intros t v -> Hp. cbn [text]. rewrite Hp. unfold show.
      split; [| split; [| split]].
      * intros ->. reflexivity.
      * intros -> ->. reflexivity.
      * intros Hf. destruct v; try discriminate Hf. cbn [truthy]. now rewrite Hf.
      * intros x l Hf. destruct v; try discriminate Hf. cbn [truthy]. now rewrite Hf.
Qed.

(** The model answers with the text of the empty object between a
    no-break space and a line feed: the adapter returns the object, and the
    user reads the message of the [TypeError]. *)
Lemma scan_shows_adapter_outcome_witness :
  scanLocalProject (plain false Samples.picked)
    (inject parse_empty_object (answering (utf8 160 ++ "{}" ++ nl)))
    (mkComponent "" None idle None) =
  mkComponent "" None idle
    (Some "Cannot read properties of undefined (reading 'length')").
Proof.
  exact (proj1 (proj2
    (proj2 (proj2 (proj2
       (proj2
          (scan_shows_adapter_outcome parse_empty_object
             (plain false Samples.picked)
             (answering (utf8 160 ++ "{}" ++ nl)) (mkComponent "" None idle None)
             (render "root" (mkState (fileTree Samples.notes_state) [] []))
             eq_refl)
          (fun _ => Returned (mkResponse (Some (utf8 160 ++ "{}" ++ nl))))
          eq_refl eq_refl)))
       (utf8 160 ++ "{}" ++ nl) (JObject []) eq_refl eq_refl))
    eq_refl eq_refl).
Defined.

End AppFacts.

(** ** More facts about the chart data *)

Module ChartMore.
Import JsString Chart ChartSpec ChartView FloatShape SpecFacts Float64.
Import ChartFacts StringFacts SummarizerFacts JsStringFacts.

Local Open Scope float_scope.

(** *** Letter case *)




Lemma fraction_cons c t :
  fraction (String c t) = if Ascii.eqb c "." then fst (digits t) else "".
Proof. destruct c as [[] [] [] [] [] [] [] []]; reflexivity. Qed.









(** *** The match of the pattern *)

Lemma digits_split s : s = fst (digits s) ++ snd (digits s).
Proof.
  induction s as [| c t IH]; [reflexivity |]. cbn [digits].
  destruct (isDigit c); [| reflexivity].
  destruct (digits t) as [d rest]. cbn [fst snd] in *. simpl. now rewrite <- IH.
Qed.

Lemma digits_empty s : fst (digits s) = "" -> starts_with_digit s = false.
Proof.
  destruct s as [| c t]; [reflexivity |]. cbn [digits starts_with_digit].
  rewrite <- isDigit_is_digit. destruct (isDigit c); [| reflexivity].
  destruct (digits t). discriminate.
Qed.

Lemma fraction_shape s :
  fraction s <> "" ->
  exists post, s = "." ++ fraction s ++ post /\ starts_with_digit post = false.
Proof.
  destruct s as [| c t]; [intros H; now elim H |]. rewrite fraction_cons.
  destruct (Ascii.eqb c ".") eqn:Hc; [| intros H; now elim H].
  apply Ascii.eqb_eq in Hc. subst c. intros _.
  exists (snd (digits t)). split; [| apply digits_rest].
  simpl. now rewrite <- digits_split.
Qed.

Lemma fraction_empty s : fraction s = "" -> starts_with_fraction s = false.
Proof.
  destruct s as [| c t]; [reflexivity |]. rewrite fraction_cons.
  destruct (Ascii.eqb c ".") eqn:Hc.
  - apply Ascii.eqb_eq in Hc. subst c. cbn [starts_with_fraction]. apply digits_empty.
  - intros _. destruct c as [[] [] [] [] [] [] [] []]; try reflexivity. discriminate Hc.
Qed.

(** What the pattern matches at the start of a text is its first
    number. *)
Lemma match_here_first s m :
  match_here s = Some m ->
  exists int frac post, first_number s "" int frac post /\ m = numeral int frac.
Proof.
  unfold match_here. pose proof (digits_all s) as Hall.
  pose proof (digits_split s) as Hs. pose proof (digits_rest s) as Hrest.
  destruct (digits s) as [int rest]. cbn [fst snd] in *.
  destruct int as [| c d]; [discriminate |].
  pose proof (fraction_all rest) as Hf. rewrite all_digits_only in Hall, Hf.
  destruct (fraction rest) as [| c' d'] eqn:Hfr.
  - intros [= <-]. exists (String c d), "", rest. split; [| reflexivity].
    unfold first_number, numeral. repeat split; auto; try discriminate.
    intros _. now apply fraction_empty.
  - intros [= <-].
    destruct (fraction_shape rest) as [post [Hpost Hp]]; [rewrite Hfr; discriminate |].
    rewrite Hfr in Hpost.
    exists (String c d), (String c' d'), post. split; [| reflexivity].
    unfold first_number, numeral. repeat split; auto; try discriminate.
    rewrite Hs, Hpost. cbn [append]. now rewrite append_assoc.
Qed.

(** X19. The pattern matches exactly the first number of a text: the
    match is [int] or [int.frac] made of digits, no digit stands before it,
    and it is as long as it can be (no digit follows it, and no point with
    a digit follows an [int]). A text has no match exactly when it has no
    digit. *)
Theorem match_is_first_number s :
  (forall m,
     match_number s = Some m <->
     exists pre int frac post,
       first_number s pre int frac post /\ m = numeral int frac) /\
  (match_number s = None <-> digit_free s = true).
Proof.
  split.
  - intros m. split.
    + revert m. induction s as [| c t IH]; intros m; cbn [match_number].
      * discriminate.
      * destruct (match_here (String c t)) as [m0 |] eqn:E.
        -- intros [= <-]. apply match_here_first in E.
           destruct E as [int [frac [post [Hf Hm]]]]. now exists "", int, frac, post.
        -- intros Hm. destruct (IH m Hm) as [pre [int [frac [post [Hf Hn]]]]].
           exists (String c pre), int, frac, post. split; [| exact Hn].
           destruct Hf as [Ht [Hpre Hrest]]. split; [| split; [| exact Hrest]].
           ++ cbn [append]. now rewrite Ht.
           ++ cbn [digit_free]. rewrite Hpre.
              apply (proj1 (match_here_none c t)) in E.
              rewrite isDigit_is_digit in E. now rewrite E.
    + intros [pre [int [frac [post [Hf ->]]]]]. now apply first_number_match in Hf.
  - rewrite match_number_none, has_digit_free. now destruct (digit_free s).
Qed.

(** In "Takes 12.5 hrs, 3 on Fridays" the match is 12.5: not 12, not 1,
    and not the later 3. *)
Lemma match_is_first_number_witness :
  match_number "Takes 12.5 hrs, 3 on Fridays" = Some "12.5" /\
  match_number "v12.x" = Some "12".
Proof.
  split.
  - refine (proj2 (proj1 (match_is_first_number "Takes 12.5 hrs, 3 on Fridays") "12.5")
              (ex_intro _ "Takes " (ex_intro _ "12" (ex_intro _ "5"
                 (ex_intro _ " hrs, 3 on Fridays" (conj _ eq_refl)))))).
    repeat split; try reflexivity; discriminate.
  - refine (proj2 (proj1 (match_is_first_number "v12.x") "12")
              (ex_intro _ "v" (ex_intro _ "12" (ex_intro _ ""
                 (ex_intro _ ".x" (conj _ eq_refl)))))).
    repeat split; try reflexivity; discriminate.
Defined.

(** *** What is charted *)

Lemma zero_not_above_zero : (0 <? 0) = false.
Proof. reflexivity. Qed.

(** X20. A record is charted only for a suggestion whose benefit has a
    digit and, letter case apart, one of the unit words hour, hr, minute,
    min; the chart has at most as many records as there are suggestions. *)
Theorem charted_benefits_are_quantified
    (suggestions : list Gemini.AutomationSuggestion) :
  (forall r, In r (chartData (Some suggestions)) ->
     exists s,
       In s suggestions /\ r = toChartData s /\
       has_digit (Gemini.benefit s) = true /\
       (includes (toLowerCase (Gemini.benefit s)) "hour"
        || includes (toLowerCase (Gemini.benefit s)) "hr"
        || includes (toLowerCase (Gemini.benefit s)) "minute"
        || includes (toLowerCase (Gemini.benefit s)) "min") = true) /\
  List.length (chartData (Some suggestions)) <= List.length suggestions.
Proof.
  pose proof (sort_permutation hoursSaved (kept suggestions)) as Hp.
  split.
  - intros r Hr. apply (Permutation_in _ Hp) in Hr.
    apply filter_In in Hr. destruct Hr as [Hin Hpos].
    apply in_map_iff in Hin. destruct Hin as [s [<- Hs]].
    exists s. split; [exact Hs |]. split; [reflexivity |].
    cbn [toChartData hoursSaved] in Hpos. unfold parseBenefitToWeeklyHours in Hpos.
    split.
    + destruct (has_digit (Gemini.benefit s)) eqn:Hd; [reflexivity |].
      apply match_number_none in Hd. rewrite Hd in Hpos.
      rewrite zero_not_above_zero in Hpos. discriminate.
    + destruct (match_number (Gemini.benefit s));
        [| rewrite zero_not_above_zero in Hpos; discriminate].
      destruct (includes _ "hour" || includes _ "hr"); [reflexivity |].
      destruct (includes _ "minute" || includes _ "min") eqn:Hm;
        [| rewrite zero_not_above_zero in Hpos; discriminate].
      cbn [orb]. exact Hm.
  - change (chartData (Some suggestions))
      with (sort (fun a b => hoursSaved b - hoursSaved a) (kept suggestions)).
    rewrite (Permutation_length Hp). unfold kept.
    rewrite <- (length_map toChartData suggestions). apply filter_length_le.
Qed.

Lemma is_nonneg_zero_or_above a :
  is_nonneg a -> (0 <? a) = false -> a = 0.
Proof.
  intros Hn Hz. apply Prim2SF_inj. rewrite Prim2SF_zero.
  rewrite ltb_spec, Prim2SF_zero in Hz. unfold is_nonneg in Hn.
  destruct (Prim2SF a) as [[] | [] | | [] m e]; try discriminate Hn;
    try discriminate Hz; reflexivity.
Qed.

(** X21. The chart is empty, and the placeholder is shown instead, exactly
    when every suggestion parses to 0 hours. *)
Theorem chart_empty_iff_no_hours
    (suggestions : list Gemini.AutomationSuggestion) :
  chartData (Some suggestions) = [] <->
  (forall s, In s suggestions ->
     parseBenefitToWeeklyHours (Gemini.benefit s) = 0).
Proof.
  pose proof (sort_permutation hoursSaved (kept suggestions)) as Hp.
  change (sort (fun a b => hoursSaved b - hoursSaved a) (kept suggestions))
    with (chartData (Some suggestions)) in Hp.
  split.
  - intros Hnil s Hs. rewrite Hnil in Hp. apply Permutation_nil in Hp.
    apply is_nonneg_zero_or_above; [apply parse_is_nonneg |].
    destruct (0 <? parseBenefitToWeeklyHours (Gemini.benefit s)) eqn:Hpos;
      [| reflexivity].
    assert (Hin : In (toChartData s) (kept suggestions)).
    { apply filter_In. split; [now apply in_map | exact Hpos]. }
    rewrite Hp in Hin. destruct Hin.
  - intros Hall.
    assert (Hk : kept suggestions = []).
    { apply filter_none. intros r Hr. apply in_map_iff in Hr.
      destruct Hr as [s [<- Hs]]. cbn [toChartData hoursSaved].
      rewrite (Hall s Hs). reflexivity. }
    rewrite Hk in Hp. apply Permutation_sym in Hp. now apply Permutation_nil in Hp.
Qed.

(** *** The domain of the horizontal scale *)

Lemma SFleb_refl x : pos x = true -> SFleb x x = true.
Proof.
  destruct x as [[] | [] | | [] m e]; intros H; try discriminate H;
    [reflexivity |].
  apply SFleb_finite. right. split; [reflexivity | apply Z.le_refl].
Qed.

Lemma SFleb_not_SFltb x y :
  pos x = true -> pos y = true -> SFleb y x = true -> SFltb x y = false.
Proof.
  intros Hx Hy.
  destruct x as [[] | [] | | [] mx ex]; try discriminate Hx;
    destruct y as [[] | [] | | [] my ey]; try discriminate Hy;
    intros H; try reflexivity; try discriminate H.
  apply SFleb_finite in H.
  destruct (SFltb (S754_finite false mx ex) (S754_finite false my ey)) eqn:E;
    [| reflexivity].
  apply SFltb_finite in E. lia.
Qed.

Lemma above_zero_truthy a :
  (0 <? a) = true -> (a <=? a) = true /\ (a =? 0) = false /\ is_nan a = false.
Proof.
  intros H. pose proof H as Hp. apply ltb_zero_pos in Hp.
  unfold is_nan. rewrite leb_spec, !eqb_spec, Prim2SF_zero.
  split; [now apply SFleb_refl |].
  destruct (Prim2SF a) as [[] | [] | | [] m e]; try discriminate Hp;
    split; try reflexivity.
  replace (SFeqb (S754_finite false m e) (S754_finite false m e)) with true;
    [reflexivity |].
  symmetry. apply SFeqb_finite. now split.
Qed.

Lemma leb_not_ltb a b :
  (0 <? a) = true -> (0 <? b) = true -> (b <=? a) = true -> (a <? b) = false.
Proof.
  intros Ha Hb. apply ltb_zero_pos in Ha. apply ltb_zero_pos in Hb.
  rewrite leb_spec, ltb_spec. now apply SFleb_not_SFltb.
Qed.

Lemma d3_max_first h t :
  (h <=? h) = true ->
  (forall v, In v t -> (h <? v) = false) ->
  d3_max (h :: t) = Some h.
Proof.
  intros Hh Ht. unfold d3_max. cbn [fold_left]. rewrite Hh.
  induction t as [| v t IH]; [reflexivity |]. cbn [fold_left].
  rewrite (Ht v (or_introl eq_refl)). apply IH.
  intros w Hw. apply Ht. now right.
Qed.

(** X22. For the chart data of any suggestions, when it is not empty, the
    upper end of the domain of the horizontal scale is the hours of the
    first record: the first bar spans the whole width, every bar fits, and
    the fallback 10 is not used. *)
Theorem x_domain_is_first_record
    (suggestions : list Gemini.AutomationSuggestion) r rest :
  chartData (Some suggestions) = r :: rest ->
  xDomainMax (r :: rest) = hoursSaved r /\
  (forall d, In d (r :: rest) ->
     (hoursSaved d <=? xDomainMax (r :: rest)) = true) /\
  (0 <? xDomainMax (r :: rest)) = true.
Proof.
  intros Hdata.
  pose proof (sort_sorted hoursSaved (kept suggestions) (kept_above_zero suggestions))
    as Hsorted.
  pose proof (sort_permutation hoursSaved (kept suggestions)) as Hp.
  change (sort (fun a b => hoursSaved b - hoursSaved a) (kept suggestions))
    with (chartData (Some suggestions)) in Hsorted, Hp.
  rewrite Hdata in Hsorted, Hp.
  assert (Hall : Forall (above_zero hoursSaved) (r :: rest)).
  { eapply Permutation_Forall; [apply Permutation_sym, Hp |].
    apply kept_above_zero. }
  inversion Hall as [| ? ? Hr Hrest]; subst.
  inversion Hsorted as [| ? ? _ Hle]; subst.
  destruct (above_zero_truthy _ Hr) as [Hrefl [Hnz Hnan]].
  assert (Hmax : xDomainMax (r :: rest) = hoursSaved r).
  { unfold xDomainMax. cbn [map]. rewrite d3_max_first.
    - now rewrite Hnz, Hnan.
    - exact Hrefl.
    - intros v Hv. apply in_map_iff in Hv. destruct Hv as [d [<- Hd]].
      rewrite Forall_forall in Hle, Hrest.
      apply leb_not_ltb; [exact Hr | now apply Hrest | now apply Hle]. }
  rewrite Hmax. split; [reflexivity |]. split; [| exact Hr].
  intros d [<- | Hd]; [exact Hrefl |].
  rewrite Forall_forall in Hle. now apply Hle.
Qed.

Lemma x_domain_is_first_record_witness :
  xDomainMax [mkChartData "Morning report" 10; mkChartData "Inbox triage" 2.5] = 10.
Proof.
  exact (proj1
    (x_domain_is_first_record
       [Gemini.mkSuggestion "Inbox triage" "Filters" "Saves 30 minutes daily" [];
        Gemini.mkSuggestion "Morning report" "Python" "Saves 2 hours per day" []]
       (mkChartData "Morning report" 10)
       [mkChartData "Inbox triage" 2.5] eq_refl)).
Defined.

(** *** The length of a label *)

(** X23. A truncated label never has more than [maxLength + 3] code
    units: the labels handed to the renderer, one per record and in the
    order of the records, have at most 23 code units. *)
Theorem labels_are_short label maxLength (data : list ChartData) :
  (length (truncateLabel label maxLength) <= maxLength + 3)%nat /\
  Forall (fun l => (length l <= 23)%nat) (chartLabels data) /\
  List.length (chartLabels data) = List.length data.
Proof.
  assert (H : forall l n, (length (truncateLabel l n) <= n + 3)%nat).
  { intros l n. unfold truncateLabel.
    destruct (length l <=? n)%nat eqn:Hl.
    - apply Nat.leb_le in Hl. lia.
    - rewrite length_append. change (length "...") with 3%nat.
      pose proof (length_trim_le (substring 0 n l)).
      pose proof (length_substring_le l n). lia. }
  split; [apply H |]. split.
  - unfold chartLabels. apply Forall_forall. intros l Hl.
    apply in_map_iff in Hl. destruct Hl as [d [<- _]]. apply (H (area d) 20%nat).
  - unfold chartLabels. apply length_map.
Qed.

(** Thirty letters e with an acute accent, sixty bytes: twenty of them are
    kept. *)
Lemma labels_are_short_witness :
  (length (truncateLabel (repeat (utf8 233) 30) 20) <= 20 + 3)%nat /\
  truncateLabel (repeat (utf8 233) 30) 20 = repeat (utf8 233) 20 ++ "...".
Proof.
  split; [| reflexivity].
  exact (proj1 (labels_are_short (repeat (utf8 233) 30) 20 [])).
Defined.

End ChartMore.
